(** * NYC Contract Awards Explorer: the aggregation pipeline

    A shallow embedding of the data-shaping code of the dashboard
    (js/api.js, js/filters.js, js/utils.js, js/sankey.js, js/matrix.js,
    js/app.js) and the properties of it that the specification states.

    Conventions of the embedding.
    - A JavaScript number is an exact rational ([Q]); [NaN] and [undefined]
      are the absence of a value ([None]).  Rounding and the two infinities
      are outside the model.  Equalities that hold by the very same sequence
      of additions are stated with [=]; equalities that need additions to be
      reordered are stated with [==] (equality of rationals).
    - A JavaScript string is a [string] (a sequence of 8-bit characters);
      [toLowerCase] changes the letters A to Z only, and white space is the
      space and the control characters 9 to 13.
    - A [Map] is an association list in insertion order, since the code
      iterates over maps and the order of iteration is observable.
    - [Array.prototype.sort] is a stable sort driven by the sign of the
      number the comparator returns.
    - Arrays that the code copies or sorts in place live in a store of
      arrays ([Store]), so that aliasing is visible. *)

From Stdlib Require Import ZArith QArith Qround List String Ascii Bool Lia Lqa.
From Stdlib Require Import DecimalString.
From Stdlib Require Import Permutation Sorted.
From stdpp Require Import base option list gmap strings.

Local Open Scope Q_scope.
Local Open Scope string_scope.
Local Open Scope list_scope.

(** ** JavaScript values *)

Module Js.

Abbreviation number := Q (only parsing).

(** [x || d] for a string that may be undefined: the empty string is falsy. *)
Definition or_string (x : option string) (d : string) : string :=
  match x with
  | Some (String c s) => String c s
  | _ => d
  end.

(** Truthiness of a string that may be undefined. *)
Definition truthy (x : option string) : bool :=
  match x with
  | Some (String _ _) => true
  | _ => false
  end.

(** [x || d] for a number that may be undefined or NaN: zero is falsy. *)
Definition or_number (x : option number) (d : number) : number :=
  match x with
  | Some q => if Qeq_bool q 0 then d else q
  | None => d
  end.

(** The comparator result [r] asks for a swap exactly when [r > 0]. *)
Definition is_positive (r : number) : bool := (0 <? Qnum r)%Z.

(** [Array.prototype.sort(cmp)]: a stable sort; an element moves behind
    the ones the comparator puts strictly before it. *)
Fixpoint sort_insert {A} (cmp : A -> A -> number) (x : A) (l : list A) : list A :=
  match l with
  | [] => [x]
  | y :: l' => if is_positive (cmp x y) then y :: sort_insert cmp x l' else x :: l
  end.

Definition sort {A} (cmp : A -> A -> number) (l : list A) : list A :=
  foldr (sort_insert cmp) [] l.

(** [Array.prototype.slice(0, n)]. *)
Definition slice0 {A} (n : nat) (l : list A) : list A := firstn n l.

(** [s.includes(q)] on strings. *)
Fixpoint includes (s q : string) : bool :=
  String.prefix q s ||
  match s with
  | EmptyString => false
  | String _ s' => includes s' q
  end.

Definition lower_char (c : ascii) : ascii :=
  let n := nat_of_ascii c in
  if (65 <=? n)%nat && (n <=? 90)%nat then ascii_of_nat (n + 32) else c.

(** [s.toLowerCase()], on the letters A to Z. *)
Fixpoint toLowerCase (s : string) : string :=
  match s with
  | EmptyString => EmptyString
  | String c s' => String (lower_char c) (toLowerCase s')
  end.

Definition is_space (c : ascii) : bool :=
  let n := nat_of_ascii c in
  (n =? 32)%nat || ((9 <=? n)%nat && (n <=? 13)%nat).

Fixpoint trimStart (s : string) : string :=
  match s with
  | String c s' => if is_space c then trimStart s' else s
  | EmptyString => EmptyString
  end.

(** [s.trim()] is truthy exactly when [s] has a character that is not
    white space; the code only uses [trim] in that way. *)
Definition trim_truthy (s : string) : bool :=
  match trimStart s with
  | EmptyString => false
  | String _ _ => true
  end.

(** [parts.join(sep)]. *)
Fixpoint join (sep : string) (parts : list string) : string :=
  match parts with
  | [] => ""
  | [p] => p
  | p :: ps => p +:+ sep +:+ join sep ps
  end.

(** [s.split(sep)] for a one-character separator. *)
Fixpoint split (sep : ascii) (s : string) : list string :=
  match s with
  | EmptyString => [""]
  | String c s' =>
      if Ascii.eqb c sep then "" :: split sep s'
      else match split sep s' with
           | p :: ps => String c p :: ps
           | [] => [String c ""]
           end
  end.

(** *** parseFloat *)

Definition is_digit (c : ascii) : bool :=
  let n := nat_of_ascii c in (48 <=? n)%nat && (n <=? 57)%nat.

Definition digit_value (c : ascii) : Z := Z.of_nat (nat_of_ascii c) - 48.

(** The longest prefix of decimal digits, and what follows it. *)
Fixpoint digits (s : string) : list ascii * string :=
  match s with
  | String c s' =>
      if is_digit c then let '(ds, rest) := digits s' in (c :: ds, rest)
      else ([], s)
  | EmptyString => ([], EmptyString)
  end.

Definition digits_value (ds : list ascii) : Z :=
  fold_left (fun acc c => 10 * acc + digit_value c)%Z ds 0%Z.

(** An optional sign: [true] for a minus. *)
Definition sign (s : string) : bool * string :=
  match s with
  | String "-" s' => (true, s')
  | String "+" s' => (false, s')
  | _ => (false, s)
  end.

(** The exponent part, consumed only when a digit follows. *)
Definition exponent (s : string) : Z :=
  match s with
  | String c s' =>
      if Ascii.eqb c "e" || Ascii.eqb c "E" then
        let '(neg, s2) := sign s' in
        let '(ds, _) := digits s2 in
        match ds with
        | [] => 0%Z
        | _ => if neg then (- digits_value ds)%Z else digits_value ds
        end
      else 0%Z
  | EmptyString => 0%Z
  end.

(** [parseFloat(x)]: leading white space is skipped, the longest prefix
    that is a decimal literal is read, and the rest is ignored; [None] is
    NaN.  An input that is undefined reads as NaN.  The literal
    [Infinity] is not recognised (the model has no infinite number). *)
Definition parseFloat (x : option string) : option number :=
  match x with
  | None => None
  | Some s =>
      let '(neg, s1) := sign (trimStart s) in
      let '(ip, s2) := digits s1 in
      let '(fp, s3) :=
        match s2 with
        | String "." s' => digits s'
        | _ => ([], s2)
        end in
      match ip ++ fp with
      | [] => None
      | ds =>
          let m := digits_value ds in
          let e := (exponent s3 - Z.of_nat (length fp))%Z in
          let v := inject_Z m * Qpower (10 # 1) e in
          Some (if neg then - v else v)
      end
  end.

(** *** Strings, sets and integers of the helper functions *)

(** [s.substring(0, n)]: the first [n] characters of [s], all of [s] when it
    is shorter, none when [n] is negative. *)
Fixpoint take_chars (n : nat) (s : string) : string :=
  match n, s with
  | S n', String c s' => String c (take_chars n' s')
  | _, _ => EmptyString
  end.

Definition substring0 (n : Z) (s : string) : string := take_chars (Z.to_nat n) s.

(** The comparator of [sort()] without argument, on strings: the order of
    the code units. *)
Definition default_compare (a b : string) : number :=
  match String.compare a b with
  | Lt => -(1)
  | Eq => 0
  | Gt => 1
  end.

(** [[...new Set(xs)]]: the first occurrence of each string, in order. *)
Definition set_of (xs : list string) : list string :=
  fold_left (fun seen x => if existsb (String.eqb x) seen then seen else seen ++ [x])
            xs [].

(** [ToInt32], and [x << k] on integers. *)
Definition to_int32 (z : Z) : Z := ((z + 2 ^ 31) mod 2 ^ 32 - 2 ^ 31)%Z.

Definition shift_left (x k : Z) : Z := to_int32 (to_int32 x * 2 ^ (k mod 32))%Z.

(** [`${n}`] for an integer [n]. *)
Definition int_to_string (z : Z) : string := NilZero.string_of_int (Z.to_int z).

(** [a > b] on numbers. *)
Definition gt (a b : number) : bool := negb (Qle_bool a b).

End Js.

(** ** Maps in insertion order *)

Module JsMap.

Definition t (V : Type) := list (string * V).

Definition empty {V} : t V := [].

Fixpoint get {V} (k : string) (m : t V) : option V :=
  match m with
  | [] => None
  | (k', v) :: m' => if String.eqb k k' then Some v else get k m'
  end.

Definition has {V} (k : string) (m : t V) : bool :=
  match get k m with Some _ => true | None => false end.

(** [m.set(k, v)]: an existing key keeps its place, a new key goes last. *)
Fixpoint set {V} (k : string) (v : V) (m : t V) : t V :=
  match m with
  | [] => [(k, v)]
  | (k', v') :: m' =>
      if String.eqb k k' then (k', v) :: m' else (k', v') :: set k v m'
  end.

(** Updating in place the object stored under [k]. *)
Fixpoint alter {V} (f : V -> V) (k : string) (m : t V) : t V :=
  match m with
  | [] => []
  | (k', v') :: m' =>
      if String.eqb k k' then (k', f v') :: m' else (k', v') :: alter f k m'
  end.

Definition entries {V} (m : t V) : list (string * V) := m.
Definition keys {V} (m : t V) : list string := map fst m.
Definition values {V} (m : t V) : list V := map snd m.

End JsMap.

(** ** The data model *)

(** A row as the data source returns it: every column is a string, and any
    column may be missing.  [extra] holds the columns the code never reads
    (request_id, vendor_address, pin and the description columns). *)
Record raw_row := RawRow {
  raw_vendor_name : option string;
  raw_agency_name : option string;
  raw_contract_amount : option string;
  raw_short_title : option string;
  raw_start_date : option string;
  raw_end_date : option string;
  raw_other_info_1 : option string;
  raw_other_info_2 : option string;
  raw_other_info_3 : option string;
  raw_extra : list (string * string)
}.

(** A normalized record: the row, with the amount as a number and the
    derived fields added.  A [Date] is kept as the string it is built
    from. *)
Record record := MkRecord {
  vendor_name : option string;
  agency_name : option string;
  contract_amount : option Js.number;
  short_title : option string;
  additional_info : option string;
  start_date : option string;
  end_date : option string;
  start_date_parsed : option string;
  end_date_parsed : option string;
  other_info_1 : option string;
  other_info_2 : option string;
  other_info_3 : option string;
  extra : list (string * string)
}.

(** The collation of the environment, which [localeCompare] consults. *)
Class Locale := { localeCompare : string -> string -> Js.number }.

(** ** js/utils.js *)

Module Utils.

Definition concatenateOtherInfo (r : raw_row) : string :=
  let parts :=
    omap (fun part : option string =>
            match part with
            | Some p => if Js.truthy part && Js.trim_truthy p then Some p else None
            | None => None
            end)
         [raw_other_info_1 r; raw_other_info_2 r; raw_other_info_3 r] in
  Js.join " | " parts.

(** [truncate(text, maxLength)]. *)
Definition truncate (text : option string) (maxLength : Z) : string :=
  match text with
  | Some (String c s) =>
      let text := String c s in
      if (Z.of_nat (String.length text) <=? maxLength)%Z then text
      else Js.substring0 (maxLength - 3) text +:+ "..."
  | _ => ""
  end.

(** The hash that the loop of [stringToColor] computes. *)
Definition stringToColor_hash (str : string) : Z :=
  fold_left (fun hash c =>
               (Z.of_nat (nat_of_ascii c) + (Js.shift_left hash 5 - hash))%Z)
            (list_ascii_of_string str) 0%Z.

Definition stringToColor (str : string) : string :=
  let h := Z.rem (stringToColor_hash str) 360 in
  "hsl(" +:+ Js.int_to_string h +:+ ", 65%, 55%)".

Definition matchesSearch (text query : option string) : bool :=
  match query with
  | Some (String c q') =>
      match text with
      | Some (String d t') =>
          Js.includes (Js.toLowerCase (String d t')) (Js.toLowerCase (String c q'))
      | _ => false
      end
  | _ => true
  end.

End Utils.

(** ** js/api.js *)

Module API.

Definition PAGE_SIZE : Z := 10000.

(** *** fetchAll *)

(** What one call of [fetchPage] gives: the rows of the page, or the
    error it throws. *)
Inductive response :=
| Rows (page : list raw_row)
| HttpError (status : Z).

Inductive outcome (A : Type) :=
| Returned (data : A)
| Thrown (status : Z).
Arguments Returned {A} data.
Arguments Thrown {A} status.

Definition processData (data : list raw_row) : list record :=
  map (fun r =>
         {| vendor_name := raw_vendor_name r;
            agency_name := raw_agency_name r;
            contract_amount :=
              Some (Js.or_number (Js.parseFloat (raw_contract_amount r)) 0);
            short_title := raw_short_title r;
            additional_info := Some (Utils.concatenateOtherInfo r);
            start_date := raw_start_date r;
            end_date := raw_end_date r;
            start_date_parsed :=
              if Js.truthy (raw_start_date r) then raw_start_date r else None;
            end_date_parsed :=
              if Js.truthy (raw_end_date r) then raw_end_date r else None;
            other_info_1 := raw_other_info_1 r;
            other_info_2 := raw_other_info_2 r;
            other_info_3 := raw_other_info_3 r;
            extra := raw_extra r |})
      data.

Section FetchAll.

(** The data source: the page it answers with at a given offset (the
    limit is always [PAGE_SIZE]). *)
Variable fetchPage : Z -> response.

(** The [while (hasMore)] loop; [fuel] bounds the number of rounds and
    [None] means that the bound was reached. *)
Fixpoint fetchAll_loop (fuel : nat) (allData : list raw_row) (offset : Z)
  : option (outcome (list raw_row)) :=
  match fuel with
  | O => None
  | S fuel' =>
      match fetchPage offset with
      | HttpError status => Some (Thrown status)
      | Rows pageData =>
          if (length pageData =? 0)%nat then Some (Returned allData)
          else
            let allData := allData ++ pageData in
            let offset := (offset + PAGE_SIZE)%Z in
            let hasMore := true in
            let hasMore := if (offset >? 100000)%Z then false else hasMore in
            let hasMore :=
              if (Z.of_nat (length pageData) <? PAGE_SIZE)%Z then false
              else hasMore in
            if hasMore then fetchAll_loop fuel' allData offset
            else Some (Returned allData)
      end
  end.

Definition fetchAll (fuel : nat) : option (outcome (list record)) :=
  match fetchAll_loop fuel [] 0%Z with
  | Some (Returned allData) => Some (Returned (processData allData))
  | Some (Thrown status) => Some (Thrown status)
  | None => None
  end.

End FetchAll.

(** *** The two aggregations *)

(** A bucket of [linkMap]. *)
Record bucket := Bucket {
  vendor : string;
  agency : string;
  amount : Js.number;
  count : Js.number;
  contracts : list record
}.

Inductive node_type := vendor_node | agency_node.

Record node := Node {
  name : string;
  type : node_type;
  id : string;
  total : option Js.number
}.

Record link := Link {
  source : option nat;
  target : option nat;
  value : Js.number;
  link_count : Js.number;
  link_vendor : string;
  link_agency : string;
  link_contracts : list record
}.

Record sankey := Sankey { nodes : list node; links : list link }.

Record cell := Cell { cell_amount : Js.number; cell_count : Js.number }.

Record matrix_data := MatrixData {
  vendors : list string;
  agencies : list string;
  matrix : list (list cell);
  vendorTotals : list (option Js.number);
  agencyTotals : list (option Js.number)
}.

Definition vendor_of (r : record) : string :=
  Js.or_string (vendor_name r) "Unknown Vendor".
Definition agency_of (r : record) : string :=
  Js.or_string (agency_name r) "Unknown Agency".
Definition amount_of (r : record) : Js.number :=
  Js.or_number (contract_amount r) 0.

(** The template [`${vendor}|||${agency}`]. *)
Definition pair_key (vendor agency : string) : string :=
  vendor +:+ "|||" +:+ agency.

(** [m.set(k, (m.get(k) || 0) + x)]. *)
Definition accumulate (k : string) (x : Js.number) (m : JsMap.t Js.number)
  : JsMap.t Js.number :=
  JsMap.set k (Js.or_number (JsMap.get k m) 0 + x) m.

(** [const [field, direction] = sortBy.split('-')], and the multiplier. *)
Definition sort_field (sortBy : string) : string :=
  match Js.split "-" sortBy with
  | f :: _ => f
  | [] => ""
  end.

Definition sort_direction (sortBy : string) : option string :=
  match Js.split "-" sortBy with
  | _ :: d :: _ => Some d
  | _ => None
  end.

Definition multiplier (sortBy : string) : Js.number :=
  match sort_direction sortBy with
  | Some d => if String.eqb d "desc" then -(1) else 1
  | None => 1
  end.

(** [Array.from(m.entries()).sort((a, b) => multiplier * (a[1] - b[1]))
    .map(e => e[0])]. *)
Definition sort_by_number (mult : Js.number) (m : JsMap.t Js.number) : list string :=
  map fst (Js.sort (fun a b => mult * (snd a - snd b)) (JsMap.entries m)).

Section Aggregation.

Context `{Locale}.

(** [Array.from(m.keys()).sort((a, b) => multiplier * a.localeCompare(b))]. *)
Definition sort_by_name {V} (mult : Js.number) (m : JsMap.t V) : list string :=
  Js.sort (fun a b => mult * localeCompare a b) (JsMap.keys m).

(** The body of the first [data.forEach] of [aggregateForSankey]. *)
Definition sankey_step
  (st : JsMap.t bucket * JsMap.t Js.number * JsMap.t Js.number) (r : record)
  : JsMap.t bucket * JsMap.t Js.number * JsMap.t Js.number :=
  let '(linkMap, vendorTotals, agencyTotals) := st in
  let vendor := vendor_of r in
  let agency := agency_of r in
  let amount := amount_of r in
  let vendorTotals := accumulate vendor amount vendorTotals in
  let agencyTotals := accumulate agency amount agencyTotals in
  let key := pair_key vendor agency in
  let linkMap :=
    if negb (JsMap.has key linkMap)
    then JsMap.set key (Bucket vendor agency 0 0 []) linkMap
    else linkMap in
  let linkMap :=
    JsMap.alter
      (fun link => Bucket (API.vendor link) (API.agency link)
                          (API.amount link + amount) (API.count link + 1)
                          (contracts link ++ [r]))
      key linkMap in
  (linkMap, vendorTotals, agencyTotals).

(** The body of the counting [data.forEach] of [aggregateForSankey]. *)
Definition count_step (st : JsMap.t Js.number * JsMap.t Js.number) (r : record)
  : JsMap.t Js.number * JsMap.t Js.number :=
  let '(vendorCounts, agencyCounts) := st in
  let v := vendor_of r in
  let a := agency_of r in
  (accumulate v 1 vendorCounts, accumulate a 1 agencyCounts).

(** One round of [sortedVendors.forEach] or [sortedAgencies.forEach]. *)
Definition push_node (ty : node_type) (prefix : string)
  (totals : JsMap.t Js.number)
  (st : list node * JsMap.t nat) (n : string) : list node * JsMap.t nat :=
  let '(nodes, nodeIndex) := st in
  (nodes ++ [Node n ty (prefix +:+ n) (JsMap.get n totals)],
   JsMap.set (prefix +:+ n) (length nodes) nodeIndex).

Definition aggregateForSankey (data : list record) (sortBy : string) : sankey :=
  let '(linkMap, vendorTotals, agencyTotals) :=
    fold_left sankey_step data (JsMap.empty, JsMap.empty, JsMap.empty) in
  let field := sort_field sortBy in
  let multiplier := multiplier sortBy in
  let '(sortedVendors, sortedAgencies) :=
    if String.eqb field "amount" then
      (sort_by_number multiplier vendorTotals,
       sort_by_number multiplier agencyTotals)
    else if String.eqb field "count" then
      let '(vendorCounts, agencyCounts) :=
        fold_left count_step data (JsMap.empty, JsMap.empty) in
      (sort_by_number multiplier vendorCounts,
       sort_by_number multiplier agencyCounts)
    else
      (sort_by_name multiplier vendorTotals,
       sort_by_name multiplier agencyTotals) in
  let st := fold_left (push_node vendor_node "vendor:" vendorTotals)
                      sortedVendors ([], JsMap.empty) in
  let '(nodes, nodeIndex) :=
    fold_left (push_node agency_node "agency:" agencyTotals) sortedAgencies st in
  let links :=
    map (fun b : bucket =>
           {| source := JsMap.get ("vendor:" +:+ API.vendor b) nodeIndex;
              target := JsMap.get ("agency:" +:+ API.agency b) nodeIndex;
              value := API.amount b;
              link_count := API.count b;
              link_vendor := API.vendor b;
              link_agency := API.agency b;
              link_contracts := contracts b |})
        (JsMap.values linkMap) in
  Sankey nodes links.

(** The body of [data.forEach] of [aggregateForMatrix]. *)
Definition matrix_step
  (st : JsMap.t Js.number * JsMap.t Js.number * JsMap.t Js.number
        * JsMap.t Js.number * JsMap.t cell) (r : record) :=
  let '(vendorTotalsMap, agencyTotalsMap, vendorCountsMap, agencyCountsMap,
        matrixMap) := st in
  let vendor := vendor_of r in
  let agency := agency_of r in
  let amount := amount_of r in
  let vendorTotalsMap := accumulate vendor amount vendorTotalsMap in
  let agencyTotalsMap := accumulate agency amount agencyTotalsMap in
  let vendorCountsMap := accumulate vendor 1 vendorCountsMap in
  let agencyCountsMap := accumulate agency 1 agencyCountsMap in
  let key := pair_key vendor agency in
  let matrixMap :=
    if negb (JsMap.has key matrixMap)
    then JsMap.set key (Cell 0 0) matrixMap
    else matrixMap in
  let matrixMap :=
    JsMap.alter (fun c => Cell (cell_amount c + amount) (cell_count c + 1))
                key matrixMap in
  (vendorTotalsMap, agencyTotalsMap, vendorCountsMap, agencyCountsMap, matrixMap).

Definition aggregateForMatrix (data : list record) (sortBy : string) : matrix_data :=
  let '(vendorTotalsMap, agencyTotalsMap, vendorCountsMap, agencyCountsMap,
        matrixMap) :=
    fold_left matrix_step data
      (JsMap.empty, JsMap.empty, JsMap.empty, JsMap.empty, JsMap.empty) in
  let field := sort_field sortBy in
  let multiplier := multiplier sortBy in
  let '(vendors, agencies) :=
    if String.eqb field "amount" then
      (sort_by_number multiplier vendorTotalsMap,
       sort_by_number multiplier agencyTotalsMap)
    else if String.eqb field "count" then
      (sort_by_number multiplier vendorCountsMap,
       sort_by_number multiplier agencyCountsMap)
    else
      (sort_by_name multiplier vendorTotalsMap,
       sort_by_name multiplier agencyTotalsMap) in
  let matrix :=
    map (fun vendor =>
           map (fun agency =>
                  match JsMap.get (pair_key vendor agency) matrixMap with
                  | Some c => Cell (cell_amount c) (cell_count c)
                  | None => Cell 0 0
                  end)
               agencies)
        vendors in
  let vendorTotals := map (fun vendor => JsMap.get vendor vendorTotalsMap) vendors in
  let agencyTotals := map (fun agency => JsMap.get agency agencyTotalsMap) agencies in
  MatrixData vendors agencies matrix vendorTotals agencyTotals.

End Aggregation.

(** *** getFilterOptions *)

Record filter_options := FilterOptions {
  option_vendors : list string;
  option_agencies : list string
}.

(** [data.map(r => r.name).filter(Boolean)]. *)
Definition truthy_names (proj : record -> option string) (data : list record)
  : list string :=
  omap (fun r => if Js.truthy (proj r) then proj r else None) data.

Definition getFilterOptions (data : list record) : filter_options :=
  let vendors :=
    Js.sort Js.default_compare (Js.set_of (truthy_names vendor_name data)) in
  let agencies :=
    Js.sort Js.default_compare (Js.set_of (truthy_names agency_name data)) in
  FilterOptions vendors agencies.

End API.

(** ** js/filters.js *)

(** The store of arrays.  An array variable of the program holds a
    location; [[...a]] and [a.filter(p)] allocate a new array, [a.sort(cmp)]
    rewrites the array at [a] and returns [a] itself. *)
Module Store.

Abbreviation loc := nat (only parsing).
Abbreviation t := (gmap nat (list record)) (only parsing).

(** A computation on the store; [None] is a dangling location. *)
Definition M (A : Type) : Type := t -> option (A * t).

Definition ret {A} (x : A) : M A := fun h => Some (x, h).

Definition bind {A B} (c : M A) (k : A -> M B) : M B :=
  fun h => match c h with
           | Some (x, h') => k x h'
           | None => None
           end.

Definition read (a : loc) : M (list record) :=
  fun h => match h !! a with
           | Some l => Some (l, h)
           | None => None
           end.

Definition alloc (l : list record) : M loc :=
  fun h => let a := fresh (dom h) in Some (a, <[a := l]> h).

Definition write (a : loc) (l : list record) : M unit :=
  fun h => match h !! a with
           | Some _ => Some (tt, <[a := l]> h)
           | None => None
           end.

End Store.

Notation "x <- c ;; k" := (Store.bind c (fun x => k))
  (at level 100, c at next level, right associativity).

Module JsArray.

(** [[...a]]. *)
Definition spread (a : Store.loc) : Store.M Store.loc :=
  l <- Store.read a ;; Store.alloc l.

(** [a.filter(p)]. *)
Definition filter (p : record -> bool) (a : Store.loc) : Store.M Store.loc :=
  l <- Store.read a ;; Store.alloc (List.filter p l).

(** [a.sort(cmp)]. *)
Definition sort (cmp : record -> record -> Js.number) (a : Store.loc)
  : Store.M Store.loc :=
  l <- Store.read a ;;
  _ <- Store.write a (Js.sort cmp l) ;;
  Store.ret a.

End JsArray.

Module Filters.

Record state := State {
  startDate : option string;
  endDate : option string;
  searchQuery : string;
  minAmount : Js.number;
  selectedVendors : list string;
  selectedAgencies : list string;
  sortBy : string;
  activePreset : option string
}.

(** [arr.includes(x)] for an array of strings and an [x] that may be
    undefined. *)
Definition includes (arr : list string) (x : option string) : bool :=
  match x with
  | Some s => existsb (String.eqb s) arr
  | None => false
  end.

(** The callback of the search filter, [query] being the query in lower
    case. *)
Definition search_callback (query : string) (r : record) : bool :=
  let searchFields :=
    [vendor_name r; agency_name r; short_title r; additional_info r] in
  existsb (fun field : option string =>
             match field with
             | Some f => Js.truthy field && Js.includes (Js.toLowerCase f) query
             | None => false
             end)
          searchFields.

Section WithState.

Context `{Locale}.
Variable st : state.

(** The comparator of [sortData]. *)
Definition compare (a b : record) : Js.number :=
  let field := API.sort_field (sortBy st) in
  let multiplier := API.multiplier (sortBy st) in
  if String.eqb field "amount" || String.eqb field "count" then
    let valueA := Js.or_number (contract_amount a) 0 in
    let valueB := Js.or_number (contract_amount b) 0 in
    multiplier * (valueA - valueB)
  else if String.eqb field "name" then
    let valueA := Js.toLowerCase (Js.or_string (vendor_name a) "") in
    let valueB := Js.toLowerCase (Js.or_string (vendor_name b) "") in
    multiplier * localeCompare valueA valueB
  else 0.

Definition sortData (data : Store.loc) : Store.M Store.loc :=
  copy <- JsArray.spread data ;;
  JsArray.sort compare copy.

Definition applyFilters (data : Store.loc) : Store.M Store.loc :=
  filtered <- JsArray.spread data ;;
  filtered <-
    (if Js.truthy (Some (searchQuery st)) then
       let query := Js.toLowerCase (searchQuery st) in
       JsArray.filter (search_callback query) filtered
     else Store.ret filtered) ;;
  filtered <-
    (if (0 <? length (selectedVendors st))%nat then
       JsArray.filter (fun r => includes (selectedVendors st) (vendor_name r))
                      filtered
     else Store.ret filtered) ;;
  filtered <-
    (if (0 <? length (selectedAgencies st))%nat then
       JsArray.filter (fun r => includes (selectedAgencies st) (agency_name r))
                      filtered
     else Store.ret filtered) ;;
  sortData filtered.

End WithState.

(** What [getApiParams] hands to the data source. *)
Record api_params := ApiParams {
  param_startDate : option string;
  param_endDate : option string;
  param_minAmount : Js.number
}.

Definition getApiParams (st : state) : api_params :=
  ApiParams (startDate st) (endDate st) (minAmount st).

(** The state that [removeTag(type, value)] leaves. *)
Definition removeTag (type value : string) (st : state) : state :=
  if String.eqb type "vendor" then
    State (startDate st) (endDate st) (searchQuery st) (minAmount st)
          (List.filter (fun v => negb (String.eqb v value)) (selectedVendors st))
          (selectedAgencies st) (sortBy st) (activePreset st)
  else
    State (startDate st) (endDate st) (searchQuery st) (minAmount st)
          (selectedVendors st)
          (List.filter (fun v => negb (String.eqb v value)) (selectedAgencies st))
          (sortBy st) (activePreset st).

(** The state that [reset] installs, [today] being [Utils.getToday()]. *)
Definition reset (today : string) : state :=
  State (Some "2026-01-01") (Some today) "" 0 [] [] "amount-desc" None.

(** [selection.push(name)] unless [selection.includes(name)]; the flag
    tells whether the name was pushed. *)
Definition select (name : string) (selection : list string) : list string * bool :=
  if negb (includes selection (Some name)) then (selection ++ [name], true)
  else (selection, false).

End Filters.

(** ** js/sankey.js *)

Module SankeyChart.

(** A node as handed to the layout: the node with its new index. *)
Record placed_node := Placed { placed : API.node; index : nat }.

Record graph := Graph {
  filteredNodes : list placed_node;
  filteredLinks : list API.link
}.

(** [sankeyData.links.sort((a, b) => b.value - a.value).slice(0, maxLinks)]. *)
Definition topLinks (maxLinks : nat) (sankeyData : API.sankey) : list API.link :=
  Js.slice0 maxLinks
    (Js.sort (fun a b => API.value b - API.value a) (API.links sankeyData)).

Definition usedNodeIndices (top : list API.link) : gset (option nat) :=
  fold_left (fun used link => used ∪ {[API.source link]} ∪ {[API.target link]})
            top ∅.

(** One round of [sankeyData.nodes.forEach((node, oldIndex) => ...)]. *)
Definition keep_node (used : gset (option nat))
  (st : gmap nat nat * list placed_node) (entry : nat * API.node)
  : gmap nat nat * list placed_node :=
  let '(nodeMap, filteredNodes) := st in
  let '(oldIndex, node) := entry in
  if bool_decide (Some oldIndex ∈ used) then
    (<[oldIndex := length filteredNodes]> nodeMap,
     filteredNodes ++ [Placed node (length filteredNodes)])
  else st.

(** Lines 77-105 of [render]: the links kept and the nodes they use,
    renumbered. *)
Definition window (maxLinks : nat) (sankeyData : API.sankey) : graph :=
  let topLinks := topLinks maxLinks sankeyData in
  let used := usedNodeIndices topLinks in
  let '(nodeMap, filteredNodes) :=
    fold_left (keep_node used)
              (combine (seq 0 (length (API.nodes sankeyData))) (API.nodes sankeyData))
              (∅, []) in
  let filteredLinks :=
    List.filter
      (fun link => match API.source link, API.target link with
                   | Some _, Some _ => true
                   | _, _ => false
                   end)
      (map (fun link =>
              API.Link (API.source link ≫= (nodeMap !!.))
                       (API.target link ≫= (nodeMap !!.))
                       (API.value link) (API.link_count link)
                       (API.link_vendor link) (API.link_agency link)
                       (API.link_contracts link))
           topLinks) in
  Graph filteredNodes filteredLinks.

(** What [render] hands to the layout; [None] is the empty state. *)
Definition render `{Locale} (data : list record) (sortBy : string) : option graph :=
  if (length data =? 0)%nat then None
  else
    let sankeyData := API.aggregateForSankey data sortBy in
    if (length (API.nodes sankeyData) =? 0)%nat
       || (length (API.links sankeyData) =? 0)%nat
    then None
    else
      let maxLinks := 100%nat in
      let g := window maxLinks sankeyData in
      if (length (filteredNodes g) =? 0)%nat || (length (filteredLinks g) =? 0)%nat
      then None
      else Some g.

(** The state that [handleNodeClick(d)] leaves, and whether it calls
    [App.applyClientFilters]. *)
Definition handleNodeClick (d : API.node) (st : Filters.state)
  : Filters.state * bool :=
  match API.type d with
  | API.vendor_node =>
      let '(selection, pushed) :=
        Filters.select (API.name d) (Filters.selectedVendors st) in
      (Filters.State (Filters.startDate st) (Filters.endDate st)
                     (Filters.searchQuery st) (Filters.minAmount st)
                     selection (Filters.selectedAgencies st)
                     (Filters.sortBy st) (Filters.activePreset st),
       pushed)
  | API.agency_node =>
      let '(selection, pushed) :=
        Filters.select (API.name d) (Filters.selectedAgencies st) in
      (Filters.State (Filters.startDate st) (Filters.endDate st)
                     (Filters.searchQuery st) (Filters.minAmount st)
                     (Filters.selectedVendors st) selection
                     (Filters.sortBy st) (Filters.activePreset st),
       pushed)
  end.

(** The sample contract of [showLinkTooltip] and the text it shows. *)
Definition sampleContract (d : API.link) : option record :=
  head (API.link_contracts d).

Definition additionalInfo (d : API.link) : option string :=
  match sampleContract d with
  | Some c => additional_info c
  | None => Some ""
  end.

End SankeyChart.

(** ** js/matrix.js *)

Module MatrixChart.

Record header := Header {
  name : string;
  total : option Js.number;
  index : nat
}.

(** What the table shows: the row and column headers with their totals,
    the cells, and the grand total ([None] is NaN). *)
Record table := Table {
  vendorOrder : list header;
  agencyOrder : list header;
  cells : list (list (option API.cell));
  grandTotal : option Js.number
}.

(** [names.slice(0, max).map((n, i) => ({ name: n, total: totals[i],
    index: i }))]. *)
Definition order (max : nat) (names : list string)
  (totals : list (option Js.number)) : list header :=
  imap (fun i n => Header n (mjoin (totals !! i)) i) (Js.slice0 max names).

(** [sum + v.total], where the total may be undefined. *)
Definition add_total (sum : option Js.number) (v : header) : option Js.number :=
  match sum, total v with
  | Some s, Some x => Some (s + x)
  | _, _ => None
  end.

Definition layout (maxVendors maxAgencies : nat) (matrixData : API.matrix_data)
  : table :=
  let vendorOrder :=
    order maxVendors (API.vendors matrixData) (API.vendorTotals matrixData) in
  let agencyOrder :=
    order maxAgencies (API.agencies matrixData) (API.agencyTotals matrixData) in
  let cells :=
    map (fun v =>
           map (fun a => API.matrix matrixData !! index v ≫= (.!! index a))
               agencyOrder)
        vendorOrder in
  let grandTotal := fold_left add_total vendorOrder (Some 0) in
  Table vendorOrder agencyOrder cells grandTotal.

(** What [render] shows; [None] is the empty state. *)
Definition render `{Locale} (data : list record) (sortBy : string) : option table :=
  if (length data =? 0)%nat then None
  else
    let matrixData := API.aggregateForMatrix data sortBy in
    if (length (API.vendors matrixData) =? 0)%nat
       || (length (API.agencies matrixData) =? 0)%nat
    then None
    else
      let maxVendors := 50%nat in
      let maxAgencies := 30%nat in
      Some (layout maxVendors maxAgencies matrixData).

(** The loop of [render] that finds [maxAmount] for the colour scale;
    [None] is the TypeError of reading a cell outside the matrix. *)
Definition maxAmount (t : table) : option Js.number :=
  fold_left (fun acc cell =>
               match acc, cell with
               | Some maxAmount, Some c =>
                   Some (if Js.gt (API.cell_amount c) maxAmount
                         then API.cell_amount c else maxAmount)
               | _, _ => None
               end)
            (concat (cells t)) (Some 0).


End MatrixChart.

(** ** js/app.js *)

Module App.

Inductive tab := sankey_tab | matrix_tab.

Inductive view :=
| SankeyView (g : option SankeyChart.graph)
| MatrixView (t : option MatrixChart.table).

(** What one pass of [applyClientFilters] leaves: the filtered array,
    the two header statistics and the view drawn. *)
Record pass := Pass {
  filteredData : Store.loc;
  total_contracts : nat;
  total_amount : Js.number;
  rendered : view
}.

(** [filteredData.reduce((sum, r) => sum + (r.contract_amount || 0), 0)]. *)
Definition totalAmount (filteredData : list record) : Js.number :=
  fold_left (fun sum r => sum + Js.or_number (contract_amount r) 0) filteredData 0.

Definition renderActiveView `{Locale} (activeTab : tab) (sortBy : string)
  (filteredData : list record) : view :=
  match activeTab with
  | sankey_tab => SankeyView (SankeyChart.render filteredData sortBy)
  | matrix_tab => MatrixView (MatrixChart.render filteredData sortBy)
  end.

Definition applyClientFilters `{Locale} (st : Filters.state) (activeTab : tab)
  (rawData : Store.loc) : Store.M pass :=
  filtered <- Filters.applyFilters st rawData ;;
  rows <- Store.read filtered ;;
  Store.ret (Pass filtered (length rows) (totalAmount rows)
                  (renderActiveView activeTab (Filters.sortBy st) rows)).

End App.

(** * The vocabulary of the properties *)

(** ** The store *)

(** [c], run in [h], returns [x] and leaves [h'] with [Q x h']. *)
Definition returns {A} (c : Store.M A) (h : Store.t) (Q : A -> Store.t -> Prop)
  : Prop :=
  exists x h', c h = Some (x, h') /\ Q x h'.

(** [h'] has every array of [h], unchanged. *)
Definition preserves (h h' : Store.t) : Prop :=
  forall a l, h !! a = Some l -> h' !! a = Some l.

(** The result of a step that leaves the arrays of [h0] alone and returns
    a new array holding [content]. *)
Definition new_array (h0 : Store.t) (content : list record)
  (out : Store.loc) (h' : Store.t) : Prop :=
  h0 !! out = None /\ h' !! out = Some content /\ preserves h0 h'.

(** ** The filter evaluator *)

(** The rows that [sortData] returns. *)
Definition sorted_rows `{Locale} (st : Filters.state) (l : list record)
  : list record :=
  Js.sort (Filters.compare st) l.

(** The rows that each of the three filters of [applyFilters] keeps. *)
Definition search_rows (st : Filters.state) (l : list record) : list record :=
  if Js.truthy (Some (Filters.searchQuery st))
  then List.filter
         (Filters.search_callback (Js.toLowerCase (Filters.searchQuery st))) l
  else l.

Definition vendor_rows (st : Filters.state) (l : list record) : list record :=
  if (0 <? length (Filters.selectedVendors st))%nat
  then List.filter
         (fun r => Filters.includes (Filters.selectedVendors st) (vendor_name r)) l
  else l.

Definition agency_rows (st : Filters.state) (l : list record) : list record :=
  if (0 <? length (Filters.selectedAgencies st))%nat
  then List.filter
         (fun r => Filters.includes (Filters.selectedAgencies st) (agency_name r)) l
  else l.

(** [field] holds a string of which [query] is a substring, case apart. *)
Definition field_contains (field : option string) (query : string) : Prop :=
  exists f pre post,
    field = Some f /\ Js.toLowerCase f = pre +:+ Js.toLowerCase query +:+ post.

(** The four text fields that the search looks at. *)
Definition search_fields (r : record) : list (option string) :=
  [vendor_name r; agency_name r; short_title r; additional_info r].

(** One of the four text fields of [r] contains [query]. *)
Definition matches_query (query : string) (r : record) : Prop :=
  exists field, In field (search_fields r) /\ field_contains field query.

(** [x] passes a selection: nothing is selected, or the name is. *)
Definition selected (selection : list string) (x : option string) : Prop :=
  selection = [] \/ exists v, x = Some v /\ In v selection.

(** ** The grouping pass *)

(** The map that [m.set(k, (m.get(k) || 0) + x)] builds over the records. *)
Definition tally (key : record -> string) (val : record -> Js.number)
  (data : list record) (m : JsMap.t Js.number) : JsMap.t Js.number :=
  fold_left (fun m r => API.accumulate (key r) (val r) m) data m.

(** The keys in the order in which the records bring them. *)
Definition first_seen (key : record -> string) (data : list record)
  (seen : list string) : list string :=
  fold_left (fun ks r => if existsb (String.eqb (key r)) ks then ks
                         else ks ++ [key r])
            data seen.

(** The key of the bucket of a record. *)
Definition key_of (r : record) : string :=
  API.pair_key (API.vendor_of r) (API.agency_of r).

(** What one record does to [linkMap]. *)
Definition bucket_step (linkMap : JsMap.t API.bucket) (r : record)
  : JsMap.t API.bucket :=
  let key := API.pair_key (API.vendor_of r) (API.agency_of r) in
  JsMap.alter
    (fun link => API.Bucket (API.vendor link) (API.agency link)
                            (API.amount link + API.amount_of r)
                            (API.count link + 1)
                            (API.contracts link ++ [r]))
    key
    (if negb (JsMap.has key linkMap)
     then JsMap.set key (API.Bucket (API.vendor_of r) (API.agency_of r) 0 0 [])
                    linkMap
     else linkMap).

(** [linkMap] after the grouping pass. *)
Definition buckets (data : list record) : JsMap.t API.bucket :=
  fold_left bucket_step data [].

(** The bucket with one more record, and the bucket that a new key gets. *)
Definition add_record (r : record) (link : API.bucket) : API.bucket :=
  API.Bucket (API.vendor link) (API.agency link)
             (API.amount link + API.amount_of r) (API.count link + 1)
             (API.contracts link ++ [r]).

Definition new_bucket (r : record) : API.bucket :=
  API.Bucket (API.vendor_of r) (API.agency_of r) 0 0 [].

(** What one record does to [matrixMap]. *)
Definition cell_step (matrixMap : JsMap.t API.cell) (r : record)
  : JsMap.t API.cell :=
  let key := API.pair_key (API.vendor_of r) (API.agency_of r) in
  JsMap.alter
    (fun c => API.Cell (API.cell_amount c + API.amount_of r) (API.cell_count c + 1))
    key
    (if negb (JsMap.has key matrixMap)
     then JsMap.set key (API.Cell 0 0) matrixMap
     else matrixMap).

(** The cell that a bucket gives, and a map with its values changed. *)
Definition cell_of (b : API.bucket) : API.cell :=
  API.Cell (API.amount b) (API.count b).

Definition map_values {V W} (f : V -> W) (m : JsMap.t V) : JsMap.t W :=
  map (fun kv => (fst kv, f (snd kv))) m.

(** What every record adds to a count. *)
Definition one (r : record) : Js.number := 1.

(** The order of the entities under a sort key, from the totals and the
    counts. *)
Definition ranked `{Locale} (sortBy : string) (totals counts : JsMap.t Js.number)
  : list string :=
  let field := API.sort_field sortBy in
  let multiplier := API.multiplier sortBy in
  if String.eqb field "amount" then API.sort_by_number multiplier totals
  else if String.eqb field "count" then API.sort_by_number multiplier counts
  else API.sort_by_name multiplier totals.

Definition vendors_of `{Locale} (data : list record) (sortBy : string) : list string :=
  ranked sortBy (tally API.vendor_of API.amount_of data [])
         (tally API.vendor_of one data []).

Definition agencies_of `{Locale} (data : list record) (sortBy : string) : list string :=
  ranked sortBy (tally API.agency_of API.amount_of data [])
         (tally API.agency_of one data []).

(** The nodes that one [forEach] pushes. *)
Definition nodes_for (ty : API.node_type) (prefix : string)
  (totals : JsMap.t Js.number) (names : list string) : list API.node :=
  map (fun n => API.Node n ty (prefix +:+ n) (JsMap.get n totals)) names.

(** The node index that one [forEach] builds, the first name being given
    position [start]. *)
Fixpoint index_for (prefix : string) (start : nat) (names : list string)
  (nodeIndex : JsMap.t nat) : JsMap.t nat :=
  match names with
  | [] => nodeIndex
  | n :: names =>
      index_for prefix (S start) names (JsMap.set (prefix +:+ n) start nodeIndex)
  end.

(** No vendor and agency of the input, paired, give the key of a record
    of another vendor or agency. *)
Definition collision_free (data : list record) : Prop :=
  forall r1 r2 r,
    In r1 data -> In r2 data -> In r data ->
    API.pair_key (API.vendor_of r1) (API.agency_of r2) = key_of r ->
    API.vendor_of r1 = API.vendor_of r /\ API.agency_of r2 = API.agency_of r.

(** ** Sums *)

(** [xs.reduce((sum, x) => sum + x, 0)]. *)
Definition sum (xs : list Js.number) : Js.number := fold_left Qplus xs 0.

(** What the records under the key [k] add up to. *)
Definition total_where (key : record -> string) (val : record -> Js.number)
  (k : string) (data : list record) : Js.number :=
  sum (map val (List.filter (fun r => String.eqb (key r) k) data)).


(** ** The projections and their windows *)

Definition is_type (ty : API.node_type) (n : API.node) : bool :=
  match ty, API.type n with
  | API.vendor_node, API.vendor_node => true
  | API.agency_node, API.agency_node => true
  | _, _ => false
  end.

(** The names, and the totals, of the nodes of one side of the graph, in
    the order of the graph. *)
Definition names_of (ty : API.node_type) (nodes : list API.node) : list string :=
  map API.name (List.filter (is_type ty) nodes).

Definition totals_of (ty : API.node_type) (nodes : list API.node)
  : list (option Js.number) :=
  map API.total (List.filter (is_type ty) nodes).

(** The edges in the order in which [render] cuts them. *)
Definition by_value (links : list API.link) : list API.link :=
  Js.sort (fun a b => API.value b - API.value a) links.

(** What the renumbering loop has built once it has gone through the
    entries [es]. *)
Record renumbered (used : gset (option nat)) (es : list (nat * API.node))
  (nodeMap : gmap nat nat) (kept : list SankeyChart.placed_node) : Prop := {
  renumbered_map : forall old new,
    nodeMap !! old = Some new ->
    Some old ∈ used /\ In old (map fst es)
    /\ exists node, kept !! new = Some (SankeyChart.Placed node new);
  renumbered_used : forall old,
    In old (map fst es) -> Some old ∈ used -> is_Some (nodeMap !! old);
  renumbered_kept : forall p,
    In p kept -> exists old, nodeMap !! old = Some (SankeyChart.index p)
}.

(** ** Inputs of the examples *)

(** A collation to run examples with: code units compared in order. *)
Definition ordinal_compare (a b : string) : Js.number :=
  match String.compare a b with
  | Lt => -(1)
  | Eq => 0
  | Gt => 1
  end.

Definition ordinal_locale : Locale := {| localeCompare := ordinal_compare |}.

(** A record with a vendor, an agency and an amount, and nothing else. *)
Definition contract (v a : string) (x : Z) : record :=
  {| vendor_name := Some v; agency_name := Some a;
     contract_amount := Some (inject_Z x);
     short_title := None; additional_info := Some "";
     start_date := None; end_date := None;
     start_date_parsed := None; end_date_parsed := None;
     other_info_1 := None; other_info_2 := None; other_info_3 := None;
     extra := [] |}.

(** The three records of the scenario of the specification. *)
Definition scenario : list record :=
  [contract "A" "X" 100; contract "A" "Y" 50; contract "B" "X" 25].

(** Two records whose vendor and agency differ and whose keys are the
    same string. *)
Definition colliding : list record :=
  [contract "A|||B" "C" 1; contract "A" "B|||C" 2].

(** Fifty-one vendors of one agency, the vendor of rank [n] with the
    amount [n + 1]. *)
Definition numbered (n : nat) : record :=
  contract (String (ascii_of_nat (33 + n)) "") "X" (Z.of_nat n + 1).

Definition fifty_one : list record := map numbered (seq 0 51).

(** A data source that always has a full page to give. *)
Definition blank_row : raw_row :=
  RawRow (Some "ACME") (Some "Parks") (Some "1") None None None None None None [].

Definition full_pages (offset : Z) : API.response :=
  API.Rows (repeat blank_row (Z.to_nat API.PAGE_SIZE)).

(** A row with a negative amount. *)
Definition negative_row : raw_row :=
  RawRow (Some "ACME") (Some "Parks") (Some "-5") None None None None None None [].

(** A filter state that searches for "b" and selects nothing, and the
    default filter state: no query, nothing selected. *)
Definition searching_b : Filters.state :=
  Filters.State (Some "2026-01-01") None "b" 0 [] [] "amount-desc" None.

Definition no_filters : Filters.state :=
  Filters.State (Some "2026-01-01") None "" 0 [] [] "amount-desc" None.

(** ** The vocabulary of the further properties *)

(** The records of the input that fall under the key [k]. *)
Definition records_of (k : string) (data : list record) : list record :=
  List.filter (fun r => String.eqb (key_of r) k) data.

(** A number of records, as the code counts them. *)
Definition number_of {A} (l : list A) : Js.number := inject_Z (Z.of_nat (length l)).

(** [names] come in ascending order of [metric]. *)
Definition ordered_by (metric : string -> Js.number) (names : list string) : Prop :=
  forall i j v w,
    (i < j)%nat -> names !! i = Some v -> names !! j = Some w ->
    metric v <= metric w.

(** The total amount and the number of the records of an entity. *)
Definition amount_of_entity (key : record -> string) (data : list record)
  (name : string) : Js.number :=
  total_where key API.amount_of name data.

Definition count_of_entity (key : record -> string) (data : list record)
  (name : string) : Js.number :=
  number_of (List.filter (fun r => String.eqb (key r) name) data).

(** The side of the graph a node is on, as a function on records. *)
Definition side (ty : API.node_type) : record -> string :=
  match ty with
  | API.vendor_node => API.vendor_of
  | API.agency_node => API.agency_of
  end.

(** The two orders that the entities can be ranked by, with the sign of the
    direction. *)
Definition by_amount (key : record -> string) (data : list record)
  (sortBy : string) (name : string) : Js.number :=
  API.multiplier sortBy * amount_of_entity key data name.

Definition by_count (key : record -> string) (data : list record)
  (sortBy : string) (name : string) : Js.number :=
  API.multiplier sortBy * count_of_entity key data name.

(** The cell of the matrix that the records under the key of [vendor] and
    [agency] give. *)
Definition cell_at (data : list record) (vendor agency : string) : API.cell :=
  match JsMap.get (API.pair_key vendor agency) (fold_left cell_step data []) with
  | Some c => API.Cell (API.cell_amount c) (API.cell_count c)
  | None => API.Cell 0 0
  end.

(** [rows] come in ascending order of [metric]. *)
Definition rows_ordered_by (metric : record -> Js.number) (rows : list record) : Prop :=
  forall i j a b,
    (i < j)%nat -> rows !! i = Some a -> rows !! j = Some b -> metric a <= metric b.

(** The amount that [sortData] compares, with the sign of the direction. *)
Definition signed_amount (st : Filters.state) (r : record) : Js.number :=
  API.multiplier (Filters.sortBy st) * Js.or_number (contract_amount r) 0.

(** A store with one array, at location 1. *)
Definition store_of (l : list record) : Store.t := {[1%nat := l]}.

(** [l] is in strictly ascending order of the code units: sorted, and
    without duplicates. *)
Definition strictly_ascending (l : list string) : Prop :=
  StronglySorted (fun a b => String.compare a b = Lt) l.

(** The names that a drop-down offers: the names that are not empty of
    the records, under the projection [proj]. *)
Definition offered (proj : record -> option string) (data : list record)
  (name : string) : Prop :=
  name <> "" /\ exists r, In r data /\ proj r = Some name.

(** The field, the selection, the tag type and the substitute name that go
    with the side of a node. *)
Definition field_of (ty : API.node_type) : record -> option string :=
  match ty with
  | API.vendor_node => vendor_name
  | API.agency_node => agency_name
  end.

Definition selection (ty : API.node_type) (st : Filters.state) : list string :=
  match ty with
  | API.vendor_node => Filters.selectedVendors st
  | API.agency_node => Filters.selectedAgencies st
  end.

Definition tag_of (ty : API.node_type) : string :=
  match ty with
  | API.vendor_node => "vendor"
  | API.agency_node => "agency"
  end.

Definition unknown (ty : API.node_type) : string :=
  match ty with
  | API.vendor_node => "Unknown Vendor"
  | API.agency_node => "Unknown Agency"
  end.

(** A record without a vendor name, and the filter state with one vendor
    selected. *)
Definition unnamed_contract (a : string) (x : Z) : record :=
  {| vendor_name := None; agency_name := Some a;
     contract_amount := Some (inject_Z x);
     short_title := None; additional_info := Some "";
     start_date := None; end_date := None;
     start_date_parsed := None; end_date_parsed := None;
     other_info_1 := None; other_info_2 := None; other_info_3 := None;
     extra := [] |}.

Definition only_vendor (v : string) : Filters.state :=
  Filters.State (Some "2026-01-01") None "" 0 [v] [] "amount-desc" None.

(** A record without a vendor name beside a record with one, and the node
    that stands for the first in the graph. *)
Definition with_unnamed : list record :=
  [unnamed_contract "X" 5; contract "A" "X" 100].

Definition unknown_vendor_node : API.node :=
  API.Node "Unknown Vendor" API.vendor_node "vendor:Unknown Vendor" (Some (0 + 5)).

(** A row whose second [other_info] field says how the contract was
    awarded. *)
Definition sole_source_row : raw_row :=
  RawRow (Some "ACME") (Some "Parks") (Some "1") None None None
         None (Some "Sole Source") None [].

(** A data source with one full page and one row more, and a data source
    that fails at the first request. *)
Definition full_page : list raw_row := repeat blank_row (Z.to_nat API.PAGE_SIZE).

Definition one_more_row (offset : Z) : API.response :=
  if (offset =? 0)%Z then API.Rows full_page else API.Rows [blank_row].

Definition unavailable (offset : Z) : API.response := API.HttpError 503.


(** * Properties *)

(** ** The scenario of the specification *)

(** C9: on the three records A->X 100, A->Y 50, B->X 25 sorted by
    "amount-desc", the vendors come out as A (150), B (25), the agencies as
    X (125), Y (50), the cells are (A,X)=100, (A,Y)=50, (B,X)=25 and a
    zero/zero cell for (B,Y), and the grand total is 175; the graph has the
    same nodes in the same order. *)
Theorem scenario_amount_desc (L : Locale) :
  let m := API.aggregateForMatrix scenario "amount-desc" in
  let s := API.aggregateForSankey scenario "amount-desc" in
  API.vendors m = ["A"; "B"]
  /\ API.vendorTotals m = [Some 150; Some 25]
  /\ API.agencies m = ["X"; "Y"]
  /\ API.agencyTotals m = [Some 125; Some 50]
  /\ API.matrix m = [[API.Cell 100 1; API.Cell 50 1]; [API.Cell 25 1; API.Cell 0 0]]
  /\ map (fun n => (API.name n, API.type n, API.total n)) (API.nodes s)
     = [("A", API.vendor_node, Some 150); ("B", API.vendor_node, Some 25);
        ("X", API.agency_node, Some 125); ("Y", API.agency_node, Some 50)]
  /\ MatrixChart.grandTotal <$> MatrixChart.render scenario "amount-desc"
     = Some (Some 175)
  /\ App.totalAmount scenario = 175.
Proof. vm_compute. repeat split; reflexivity. Qed.

(** ** Pagination *)

Section Pagination.

Variable fetchPage : Z -> API.response.

Lemma fetchAll_loop_total (fuel : nat) :
  forall allData offset,
    (100000 - offset < Z.of_nat fuel * 10000)%Z ->
    (0 < fuel)%nat ->
    exists r, API.fetchAll_loop fetchPage fuel allData offset = Some r.
Proof.
  induction fuel as [|fuel IH]; intros allData offset Hm Hf; [lia|].
  simpl. destruct (fetchPage offset) as [page|status]; [|eexists; reflexivity].
  destruct (length page =? 0)%nat; [eexists; reflexivity|].
  unfold API.PAGE_SIZE.
  destruct (Z.gtb_spec (offset + 10000) 100000);
    destruct (Z.of_nat (length page) <? 10000)%Z; try (eexists; reflexivity).
  apply IH; lia.
Qed.

(** More fuel than needed does not change the result. *)
Lemma fetchAll_loop_fuel (fuel : nat) :
  forall fuel' allData offset r,
    API.fetchAll_loop fetchPage fuel allData offset = Some r ->
    (fuel <= fuel')%nat ->
    API.fetchAll_loop fetchPage fuel' allData offset = Some r.
Proof.
  induction fuel as [|fuel IH]; intros fuel' allData offset r Hr Hle;
    [discriminate|].
  destruct fuel' as [|fuel']; [lia|].
  simpl in *. destruct (fetchPage offset) as [page|status]; [|exact Hr].
  destruct (length page =? 0)%nat; [exact Hr|].
  destruct (_ >? _)%Z; destruct (_ <? _)%Z; try exact Hr.
  apply IH; [exact Hr|lia].
Qed.

(** X1: whatever the data source answers, [fetchAll] comes to an end: the
    loop makes at most eleven rounds, so that eleven units of fuel give its
    result, and more fuel gives the same result. *)
Lemma fetchAll_terminates :
  exists r, API.fetchAll fetchPage 11 = Some r
            /\ forall fuel, (11 <= fuel)%nat -> API.fetchAll fetchPage fuel = Some r.
Proof.
  destruct (fetchAll_loop_total 11 [] 0%Z) as [r Hr]; [lia|lia|].
  assert (Hall : forall fuel, (11 <= fuel)%nat ->
                   API.fetchAll_loop fetchPage fuel [] 0%Z = Some r)
    by (intros; eapply fetchAll_loop_fuel; eauto).
  unfold API.fetchAll.
  exists (match r with
          | API.Returned allData => API.Returned (API.processData allData)
          | API.Thrown status => API.Thrown status
          end).
  split; [|intros fuel Hf; rewrite (Hall fuel Hf)]; [rewrite Hr|];
    destruct r; reflexivity.
Qed.



End Pagination.

Lemma full_pages_loop (fuel : nat) :
  forall (k : Z) allData,
    (0 <= k <= 10)%Z ->
    (11 - k <= Z.of_nat fuel)%Z ->
    exists data,
      API.fetchAll_loop full_pages fuel allData (10000 * k)%Z
      = Some (API.Returned data)
      /\ (Z.of_nat (length data)
          = Z.of_nat (length allData) + 10000 * (11 - k))%Z.
Proof.
  induction fuel as [|fuel IH]; intros k allData Hk Hf; [lia|].
  cbn [API.fetchAll_loop]. unfold full_pages at 1.
  set (page := repeat blank_row (Z.to_nat API.PAGE_SIZE)).
  assert (Hlen : Z.of_nat (length page) = 10000%Z)
    by (subst page; rewrite repeat_length; unfold API.PAGE_SIZE; lia).
  destruct (Nat.eqb_spec (length page) 0); [lia|].
  unfold API.PAGE_SIZE. rewrite Hlen. change (10000 <? 10000)%Z with false.
  destruct (Z.gtb_spec (10000 * k + 10000) 100000).
  - eexists. split; [reflexivity|]. rewrite length_app. lia.
  - replace (10000 * k + 10000)%Z with (10000 * (k + 1))%Z by lia.
    destruct (IH (k + 1)%Z (allData ++ page)) as (data & Hd & Hl); [lia|lia|].
    exists data. split; [exact Hd|]. rewrite length_app in Hl. lia.
Qed.

(** C5: against a data source that answers every request with a full page of
    10,000 rows, [fetchAll] returns after eleven requests, with 110,000 rows:
    the page at offset 100,000 is still asked for and kept. *)
Theorem fetchAll_keeps_eleventh_page :
  exists data, API.fetchAll full_pages 11 = Some (API.Returned data)
               /\ Z.of_nat (length data) = 110000%Z.
Proof.
  unfold API.fetchAll.
  destruct (full_pages_loop 11 0 []) as (allData & Hd & Hl); [lia|lia|].
  change (10000 * 0)%Z with 0%Z in Hd. rewrite Hd.
  eexists. split; [reflexivity|].
  unfold API.processData. rewrite length_map, Hl. reflexivity.
Qed.

(** ** Strings *)

Lemma append_cons (c : ascii) (s t : string) :
  String c s +:+ t = String c (s +:+ t).
Proof. reflexivity. Qed.

Lemma prefix_spec (q s : string) :
  String.prefix q s = true <-> exists post, s = q +:+ post.
Proof.
  revert s. induction q as [|c q IH]; intros s.
  - split; [intros _; exists s; reflexivity|intros _; destruct s; reflexivity].
  - destruct s as [|d s]; simpl.
    + split; [discriminate|intros [post Hp]; discriminate].
    + destruct (Ascii.ascii_dec c d) as [->|Hne].
      * rewrite IH. split; intros [post Hp]; exists post;
          rewrite append_cons in *; congruence.
      * split; [discriminate|intros [post Hp]].
        rewrite append_cons in Hp. congruence.
Qed.

(** [includes] is the substring test. *)
Lemma includes_spec (s q : string) :
  Js.includes s q = true <-> exists pre post, s = pre +:+ q +:+ post.
Proof.
  induction s as [|c s IH].
  - cbn [Js.includes]. rewrite orb_false_r, prefix_spec. split.
    + intros [post Hp]. exists "", post. exact Hp.
    + intros (pre & post & Hp). destruct pre; [eauto|discriminate].
  - cbn [Js.includes]. rewrite orb_true_iff, prefix_spec, IH. split.
    + intros [[post Hp]|(pre & post & Hp)].
      * exists "", post. exact Hp.
      * exists (String c pre), post. rewrite append_cons. congruence.
    + intros (pre & post & Hp). destruct pre as [|d pre].
      * left. exists post. exact Hp.
      * right. exists pre, post. rewrite append_cons in Hp. congruence.
Qed.

Lemma toLowerCase_nonempty (q : string) : q <> "" -> Js.toLowerCase q <> "".
Proof. destruct q; [congruence|discriminate]. Qed.

(** ** The store *)

Lemma preserves_refl h : preserves h h.
Proof. intros a l Hl. exact Hl. Qed.

Lemma preserves_trans h1 h2 h3 :
  preserves h1 h2 -> preserves h2 h3 -> preserves h1 h3.
Proof. intros H12 H23 a l Hl. apply H23, H12, Hl. Qed.

Lemma preserves_alloc (h : Store.t) (a : nat) l :
  h !! a = None -> preserves h (<[a := l]> h).
Proof.
  intros Hnone b x Hb. rewrite lookup_insert_ne; [exact Hb|]. congruence.
Qed.

Lemma returns_bind {A B} (c : Store.M A) (k : A -> Store.M B) h Q :
  returns c h (fun x h' => returns (k x) h' Q) -> returns (x <- c ;; k x) h Q.
Proof.
  intros (x & h' & Hc & y & h'' & Hk & HQ). exists y, h''.
  unfold Store.bind. rewrite Hc. auto.
Qed.

Lemma returns_alloc (h : Store.t) l :
  returns (Store.alloc l) h
          (fun a h' => h !! a = None /\ h' = <[a := l]> h).
Proof.
  exists (fresh (dom h)), (<[fresh (dom h) := l]> h).
  split; [reflexivity|]. split; [|reflexivity].
  apply not_elem_of_dom, is_fresh.
Qed.

Lemma returns_spread (h0 h : Store.t) a l :
  preserves h0 h -> h !! a = Some l ->
  returns (JsArray.spread a) h (new_array h0 l).
Proof.
  intros Hp Ha. apply returns_bind. exists l, h. split.
  - unfold Store.read. rewrite Ha. reflexivity.
  - destruct (returns_alloc h l) as (out & h' & Hrun & Hnone & ->).
    exists out, (<[out := l]> h). split; [exact Hrun|]. split; [|split].
    + destruct (h0 !! out) eqn:E; [|reflexivity]. apply Hp in E. congruence.
    + apply lookup_insert_eq.
    + eapply preserves_trans; [exact Hp|]. apply preserves_alloc, Hnone.
Qed.

Lemma returns_filter (h0 h : Store.t) p a l :
  preserves h0 h -> h !! a = Some l ->
  returns (JsArray.filter p a) h (new_array h0 (List.filter p l)).
Proof.
  intros Hp Ha. apply returns_bind. exists l, h. split.
  - unfold Store.read. rewrite Ha. reflexivity.
  - destruct (returns_alloc h (List.filter p l)) as (out & h' & Hrun & Hnone & ->).
    exists out, (<[out := List.filter p l]> h). split; [exact Hrun|].
    split; [|split].
    + destruct (h0 !! out) eqn:E; [|reflexivity]. apply Hp in E. congruence.
    + apply lookup_insert_eq.
    + eapply preserves_trans; [exact Hp|]. apply preserves_alloc, Hnone.
Qed.

(** Sorting an array that [h0] does not have leaves the arrays of [h0]
    alone. *)
Lemma returns_sort (h0 h : Store.t) cmp a l :
  new_array h0 l a h ->
  returns (JsArray.sort cmp a) h (new_array h0 (Js.sort cmp l)).
Proof.
  intros (Hnone & Ha & Hp). exists a, (<[a := Js.sort cmp l]> h). split.
  - unfold JsArray.sort, Store.bind, Store.read, Store.write, Store.ret.
    rewrite Ha. cbn. rewrite Ha. reflexivity.
  - split; [exact Hnone|]. split; [apply lookup_insert_eq|].
    intros b x Hb. rewrite lookup_insert_ne; [apply Hp, Hb|]. congruence.
Qed.

(** A filter that runs only under a condition. *)
Lemma returns_filter_if (h0 h : Store.t) (b : bool) p a l :
  new_array h0 l a h ->
  returns (if b then JsArray.filter p a else Store.ret a) h
          (new_array h0 (if b then List.filter p l else l)).
Proof.
  intros Hn. destruct b.
  - destruct Hn as (_ & Ha & Hp). eapply returns_filter; eauto.
  - exists a, h. split; [reflexivity|exact Hn].
Qed.

Section FilterEvaluator.

Context `{Locale}.
Variable st : Filters.state.

Lemma sortData_returns (h0 h : Store.t) data l :
  preserves h0 h -> h !! data = Some l ->
  returns (Filters.sortData st data) h (new_array h0 (sorted_rows st l)).
Proof.
  intros Hp Hd. apply returns_bind.
  destruct (returns_spread h0 h data l Hp Hd) as (copy & h1 & Hrun & Hn).
  exists copy, h1. split; [exact Hrun|]. apply returns_sort, Hn.
Qed.

Lemma applyFilters_returns (h : Store.t) data l :
  h !! data = Some l ->
  returns (Filters.applyFilters st data) h
          (new_array h
             (sorted_rows st (agency_rows st (vendor_rows st (search_rows st l))))).
Proof.
  intros Hd. unfold Filters.applyFilters.
  apply returns_bind.
  destruct (returns_spread h h data l (preserves_refl h) Hd) as (a1 & h1 & R1 & N1).
  exists a1, h1. split; [exact R1|].
  apply returns_bind.
  destruct (returns_filter_if h h1 (Js.truthy (Some (Filters.searchQuery st)))
              (Filters.search_callback (Js.toLowerCase (Filters.searchQuery st)))
              a1 l N1) as (a2 & h2 & R2 & N2).
  exists a2, h2. split; [exact R2|].
  apply returns_bind.
  destruct (returns_filter_if h h2 (0 <? length (Filters.selectedVendors st))%nat
              (fun r => Filters.includes (Filters.selectedVendors st) (vendor_name r))
              a2 _ N2) as (a3 & h3 & R3 & N3).
  exists a3, h3. split; [exact R3|].
  apply returns_bind.
  destruct (returns_filter_if h h3 (0 <? length (Filters.selectedAgencies st))%nat
              (fun r => Filters.includes (Filters.selectedAgencies st) (agency_name r))
              a3 _ N3) as (a4 & h4 & R4 & N4).
  exists a4, h4. split; [exact R4|].
  destruct N4 as (_ & Ha4 & Hp4).
  apply sortData_returns; assumption.
Qed.

End FilterEvaluator.

(** ** Sorting *)

Lemma sort_insert_perm {A} (cmp : A -> A -> Js.number) x l :
  Permutation (Js.sort_insert cmp x l) (x :: l).
Proof.
  induction l as [|y l IH]; simpl; [reflexivity|].
  destruct (Js.is_positive (cmp x y)); [|reflexivity].
  rewrite IH. apply perm_swap.
Qed.

Lemma sort_perm {A} (cmp : A -> A -> Js.number) l :
  Permutation (Js.sort cmp l) l.
Proof.
  induction l as [|x l IH]; simpl; [reflexivity|].
  rewrite sort_insert_perm. apply perm_skip, IH.
Qed.

Lemma sort_In {A} (cmp : A -> A -> Js.number) l x :
  In x (Js.sort cmp l) <-> In x l.
Proof.
  split; apply Permutation_in; [|symmetry]; apply sort_perm.
Qed.

Lemma In_firstn {A} (n : nat) (l : list A) (x : A) :
  In x (firstn n l) -> In x l.
Proof.
  intros Hx. rewrite <- (firstn_skipn n l). apply in_or_app. auto.
Qed.

Lemma sort_length {A} (cmp : A -> A -> Js.number) l :
  length (Js.sort cmp l) = length l.
Proof. apply Permutation_length, sort_perm. Qed.

(** ** The filter evaluator *)

Lemma empty_field_never_matches (query : string) :
  query <> "" -> ~ field_contains None query /\ ~ field_contains (Some "") query.
Proof.
  intros Hq. split; intros (f & pre & post & Hf & Hsub); [discriminate|].
  injection Hf as <-. simpl in Hsub.
  destruct pre; [|discriminate].
  destruct query; [congruence|discriminate].
Qed.

Lemma search_callback_spec (query : string) (r : record) :
  query <> "" ->
  Filters.search_callback (Js.toLowerCase query) r = true <-> matches_query query r.
Proof.
  intros Hq. unfold Filters.search_callback, matches_query.
  fold (search_fields r). rewrite existsb_exists.
  split; intros (field & Hin & Hf); exists field; (split; [exact Hin|]).
  - destruct field as [f|]; [|discriminate].
    apply andb_true_iff in Hf as [_ Hinc].
    apply includes_spec in Hinc as (pre & post & Hsub).
    exists f, pre, post. auto.
  - destruct Hf as (f & pre & post & -> & Hsub).
    apply andb_true_iff. split.
    + destruct f; [|reflexivity].
      destruct (empty_field_never_matches query Hq) as [_ Hno].
      exfalso. apply Hno. exists "", pre, post. auto.
    + apply includes_spec. eauto.
Qed.

Lemma includes_selected (selection : list string) (x : option string) :
  Filters.includes selection x = true <-> exists v, x = Some v /\ In v selection.
Proof.
  unfold Filters.includes. destruct x as [s|].
  - rewrite existsb_exists. split.
    + intros (v & Hin & Heq). apply String.eqb_eq in Heq as ->. eauto.
    + intros (v & [= ->] & Hin). exists v. split; [exact Hin|apply String.eqb_refl].
  - split; [discriminate|intros (v & Hv & _); discriminate].
Qed.

Lemma filter_selected_In (selection : list string) (proj : record -> option string)
  (l : list record) (r : record) :
  In r (if (0 <? length selection)%nat
        then List.filter (fun r => Filters.includes selection (proj r)) l
        else l)
  <-> In r l /\ selected selection (proj r).
Proof.
  unfold selected. destruct selection as [|v0 selection]; simpl.
  - tauto.
  - rewrite filter_In, includes_selected. simpl.
    split; intros [Hin Hs]; (split; [exact Hin|]).
    + right. exact Hs.
    + destruct Hs as [Hs|Hs]; [discriminate|exact Hs].
Qed.

Section FilterEvaluatorFacts.

Context `{Locale}.
Variable st : Filters.state.

Lemma search_rows_empty_query (l : list record) :
  Filters.searchQuery st = "" -> search_rows st l = l.
Proof. unfold search_rows. intros ->. reflexivity. Qed.

Lemma search_rows_In (l : list record) (r : record) :
  Filters.searchQuery st <> "" ->
  In r (search_rows st l) <-> In r l /\ matches_query (Filters.searchQuery st) r.
Proof.
  intros Hq. unfold search_rows.
  destruct (Filters.searchQuery st) as [|c q] eqn:E; [congruence|].
  cbn [Js.truthy]. rewrite filter_In, search_callback_spec by discriminate.
  reflexivity.
Qed.

Lemma filtered_rows_In (l : list record) (r : record) :
  In r (sorted_rows st (agency_rows st (vendor_rows st l)))
  <-> In r l /\ selected (Filters.selectedVendors st) (vendor_name r)
      /\ selected (Filters.selectedAgencies st) (agency_name r).
Proof.
  unfold sorted_rows, agency_rows, vendor_rows.
  rewrite sort_In, filter_selected_In, filter_selected_In. tauto.
Qed.

End FilterEvaluatorFacts.

(** C7: [applyFilters] returns; with the empty query the search leaves the
    rows alone, so that the result is the input put through the vendor and
    agency filters and the sort, that is, the rows that these two filters
    keep, in sorted order; with a query that is not empty a record is
    in the result exactly when it is in the input, one of its four text
    fields contains the query, case apart, and it passes the vendor and
    agency filters; a query that no record matches gives the empty result;
    and a field that is missing or empty contains no such query. *)
Theorem search_filter_spec `{Locale} (st : Filters.state)
  (h : gmap nat (list record)) (data : nat) (l : list record) :
  h !! data = Some l ->
  exists out h' res,
    Filters.applyFilters st data h = Some (out, h')
    /\ h' !! out = Some res
    /\ (Filters.searchQuery st = "" ->
        res = sorted_rows st (agency_rows st (vendor_rows st l))
        /\ Permutation res (agency_rows st (vendor_rows st l))
        /\ forall r, In r res <->
             In r l /\ selected (Filters.selectedVendors st) (vendor_name r)
             /\ selected (Filters.selectedAgencies st) (agency_name r))
    /\ (Filters.searchQuery st <> "" ->
        (forall r, In r res <->
           In r l /\ matches_query (Filters.searchQuery st) r
           /\ selected (Filters.selectedVendors st) (vendor_name r)
           /\ selected (Filters.selectedAgencies st) (agency_name r))
        /\ ((forall r, In r l -> ~ matches_query (Filters.searchQuery st) r) ->
            res = [])
        /\ ~ field_contains None (Filters.searchQuery st)
        /\ ~ field_contains (Some "") (Filters.searchQuery st)).
Proof.
  intros Hd.
  destruct (applyFilters_returns st h data l Hd) as (out & h' & Hrun & _ & Hout & _).
  exists out, h', (sorted_rows st (agency_rows st (vendor_rows st (search_rows st l)))).
  split; [exact Hrun|]. split; [exact Hout|]. split.
  - intros Hq. rewrite search_rows_empty_query by exact Hq.
    split; [reflexivity|]. split; [apply sort_perm|].
    intros r. apply filtered_rows_In.
  - intros Hq.
    assert (Hin : forall r,
               In r (sorted_rows st (agency_rows st (vendor_rows st (search_rows st l))))
               <-> In r l /\ matches_query (Filters.searchQuery st) r
                   /\ selected (Filters.selectedVendors st) (vendor_name r)
                   /\ selected (Filters.selectedAgencies st) (agency_name r)).
    { intros r. rewrite filtered_rows_In, search_rows_In by exact Hq. tauto. }
    split; [exact Hin|]. split; [|apply empty_field_never_matches, Hq].
    intros Hnone.
    destruct (sorted_rows st (agency_rows st (vendor_rows st (search_rows st l))))
      as [|r res]; [reflexivity|].
    exfalso. destruct (proj1 (Hin r) (or_introl eq_refl)) as (Hr & Hm & _).
    exact (Hnone r Hr Hm).
Qed.

(** The search for "b" on the three records of the scenario. *)
Lemma search_filter_spec_witness :
  ({[1%nat := scenario]} : gmap nat (list record)) !! 1%nat = Some scenario
  /\ exists out h' res,
       @Filters.applyFilters ordinal_locale searching_b 1%nat {[1%nat := scenario]}
       = Some (out, h')
       /\ h' !! out = Some res
       /\ forall r, In r res <->
            In r scenario /\ matches_query "b" r
            /\ selected [] (vendor_name r) /\ selected [] (agency_name r).
Proof.
  split; [reflexivity|].
  destruct (@search_filter_spec ordinal_locale searching_b
              {[1%nat := scenario]} 1%nat scenario)
    as (out & h' & res & Hrun & Hres & _ & Hq); [reflexivity|].
  exists out, h', res. split; [exact Hrun|]. split; [exact Hres|].
  apply Hq. discriminate.
Defined.

(** C10: [applyFilters] and [sortData] return a new array and leave every
    array of the store as it was, the one they are given included. *)
Theorem filters_leave_input_unchanged `{Locale} (st : Filters.state)
  (h : gmap nat (list record)) (data : nat) (l : list record) :
  h !! data = Some l ->
  (exists out h',
      Filters.applyFilters st data h = Some (out, h')
      /\ h' !! data = Some l /\ out <> data /\ preserves h h')
  /\ (exists out h',
         Filters.sortData st data h = Some (out, h')
         /\ h' !! data = Some l /\ out <> data /\ preserves h h').
Proof.
  intros Hd. split.
  - destruct (applyFilters_returns st h data l Hd)
      as (out & h' & Hrun & Hnone & _ & Hp).
    exists out, h'. repeat split; [exact Hrun|apply Hp, Hd| |exact Hp].
    intros ->. congruence.
  - destruct (sortData_returns st h h data l (preserves_refl h) Hd)
      as (out & h' & Hrun & Hnone & _ & Hp).
    exists out, h'. repeat split; [exact Hrun|apply Hp, Hd| |exact Hp].
    intros ->. congruence.
Qed.

(** The two functions run on a store that holds the scenario at location 1. *)
Lemma filters_leave_input_unchanged_witness :
  ({[1%nat := scenario]} : gmap nat (list record)) !! 1%nat = Some scenario
  /\ (exists out h',
        @Filters.applyFilters ordinal_locale searching_b 1%nat {[1%nat := scenario]}
        = Some (out, h')
        /\ h' !! 1%nat = Some scenario /\ out <> 1%nat
        /\ preserves {[1%nat := scenario]} h')
  /\ (exists out h',
        @Filters.sortData ordinal_locale searching_b 1%nat {[1%nat := scenario]}
        = Some (out, h')
        /\ h' !! 1%nat = Some scenario /\ out <> 1%nat
        /\ preserves {[1%nat := scenario]} h').
Proof.
  split; [reflexivity|].
  apply (@filters_leave_input_unchanged ordinal_locale searching_b
           {[1%nat := scenario]} 1%nat scenario).
  reflexivity.
Defined.

(** ** Maps in insertion order: facts *)

Section JsMapFacts.

Context {V : Type}.
Implicit Types (m : JsMap.t V) (k : string) (v : V).

Lemma get_set_eq m k v : JsMap.get k (JsMap.set k v m) = Some v.
Proof.
  induction m as [|[k' v'] m IH]; simpl.
  - rewrite String.eqb_refl. reflexivity.
  - destruct (String.eqb_spec k k') as [->|Hne]; simpl.
    + rewrite String.eqb_refl. reflexivity.
    + destruct (String.eqb_spec k k'); [contradiction|exact IH].
Qed.

Lemma get_set_ne m k k' v :
  k <> k' -> JsMap.get k' (JsMap.set k v m) = JsMap.get k' m.
Proof.
  intros Hne. induction m as [|[k0 v0] m IH]; simpl.
  - destruct (String.eqb_spec k' k); [congruence|reflexivity].
  - destruct (String.eqb_spec k k0) as [->|Hk]; simpl.
    + destruct (String.eqb_spec k' k0); [congruence|reflexivity].
    + destruct (String.eqb_spec k' k0); [reflexivity|exact IH].
Qed.

Lemma get_alter_eq m k (f : V -> V) :
  JsMap.get k (JsMap.alter f k m) = f <$> JsMap.get k m.
Proof.
  induction m as [|[k' v'] m IH]; simpl; [reflexivity|].
  destruct (String.eqb_spec k k') as [->|Hne]; simpl.
  - rewrite String.eqb_refl. reflexivity.
  - destruct (String.eqb_spec k k'); [contradiction|exact IH].
Qed.

Lemma get_alter_ne m k k' (f : V -> V) :
  k <> k' -> JsMap.get k' (JsMap.alter f k m) = JsMap.get k' m.
Proof.
  intros Hne. induction m as [|[k0 v0] m IH]; simpl; [reflexivity|].
  destruct (String.eqb_spec k k0) as [->|Hk]; simpl.
  - destruct (String.eqb_spec k' k0); [congruence|reflexivity].
  - destruct (String.eqb_spec k' k0); [reflexivity|exact IH].
Qed.

Lemma keys_alter m k (f : V -> V) :
  JsMap.keys (JsMap.alter f k m) = JsMap.keys m.
Proof.
  induction m as [|[k' v'] m IH]; simpl; [reflexivity|].
  destruct (String.eqb k k'); simpl; [reflexivity|].
  f_equal. exact IH.
Qed.

Lemma get_None_keys m k : JsMap.get k m = None <-> ~ In k (JsMap.keys m).
Proof.
  induction m as [|[k' v'] m IH]; simpl; [tauto|].
  destruct (String.eqb_spec k k') as [->|Hne].
  - split; [discriminate|]. intros Hn. exfalso. apply Hn. left. reflexivity.
  - rewrite IH. unfold JsMap.keys. intuition congruence.
Qed.

Lemma get_Some_keys m k v : JsMap.get k m = Some v -> In k (JsMap.keys m).
Proof.
  intros Hg. destruct (in_dec string_dec k (JsMap.keys m)) as [Hin|Hn];
    [exact Hin|].
  apply get_None_keys in Hn. congruence.
Qed.

Lemma get_Some_In m k v : JsMap.get k m = Some v -> In (k, v) m.
Proof.
  induction m as [|[k' v'] m IH]; simpl; [discriminate|].
  destruct (String.eqb_spec k k') as [->|Hne].
  - intros [= ->]. left. reflexivity.
  - intros Hg. right. apply IH, Hg.
Qed.

Lemma In_get_Some m k v :
  List.NoDup (JsMap.keys m) -> In (k, v) m -> JsMap.get k m = Some v.
Proof.
  induction m as [|[k' v'] m IH]; simpl; [tauto|].
  intros Hnd [Heq|Hin].
  - injection Heq as -> ->. rewrite String.eqb_refl. reflexivity.
  - apply List.NoDup_cons_iff in Hnd as [Hk Hnd].
    destruct (String.eqb_spec k k') as [->|Hne].
    + exfalso. apply Hk. change (In (fst (k', v)) (map fst m)).
      apply in_map, Hin.
    + apply IH; assumption.
Qed.

Lemma keys_set m k v :
  JsMap.keys (JsMap.set k v m)
  = if JsMap.has k m then JsMap.keys m else JsMap.keys m ++ [k].
Proof.
  unfold JsMap.has. induction m as [|[k' v'] m IH]; simpl; [reflexivity|].
  destruct (String.eqb_spec k k') as [->|Hne]; simpl; [reflexivity|].
  change (map fst (JsMap.set k v m)) with (JsMap.keys (JsMap.set k v m)).
  rewrite IH. destruct (JsMap.get k m); reflexivity.
Qed.

Lemma has_true m k : JsMap.has k m = true <-> In k (JsMap.keys m).
Proof.
  unfold JsMap.has. destruct (JsMap.get k m) as [v|] eqn:Hg.
  - split; [intros _; eapply get_Some_keys, Hg|reflexivity].
  - apply get_None_keys in Hg. split; [discriminate|contradiction].
Qed.

Lemma NoDup_keys_set m k v :
  List.NoDup (JsMap.keys m) -> List.NoDup (JsMap.keys (JsMap.set k v m)).
Proof.
  intros Hnd. rewrite keys_set. destruct (JsMap.has k m) eqn:Hh; [exact Hnd|].
  apply NoDup_ListNoDup, NoDup_app. apply NoDup_ListNoDup in Hnd.
  split; [exact Hnd|]. split; [|apply NoDup_singleton].
  intros x Hx. rewrite list_elem_of_singleton. intros ->.
  apply list_elem_of_In, has_true in Hx. congruence.
Qed.

End JsMapFacts.

(** ** The grouping pass *)

Lemma sankey_fold `{Locale} (data : list record) :
  forall linkMap vendorTotals agencyTotals,
    fold_left API.sankey_step data (linkMap, vendorTotals, agencyTotals)
    = (fold_left bucket_step data linkMap,
       tally API.vendor_of API.amount_of data vendorTotals,
       tally API.agency_of API.amount_of data agencyTotals).
Proof.
  induction data as [|r data IH]; intros; [reflexivity|].
  cbn [fold_left]. unfold tally. cbn [fold_left].
  unfold API.sankey_step at 2. rewrite IH. reflexivity.
Qed.

Lemma count_fold `{Locale} (data : list record) :
  forall vendorCounts agencyCounts,
    fold_left API.count_step data (vendorCounts, agencyCounts)
    = (tally API.vendor_of one data vendorCounts,
       tally API.agency_of one data agencyCounts).
Proof.
  induction data as [|r data IH]; intros; [reflexivity|].
  cbn [fold_left]. unfold tally. cbn [fold_left].
  unfold API.count_step at 2. rewrite IH. reflexivity.
Qed.

Lemma matrix_fold `{Locale} (data : list record) :
  forall vt at_ vc ac matrixMap,
    fold_left API.matrix_step data (vt, at_, vc, ac, matrixMap)
    = (tally API.vendor_of API.amount_of data vt,
       tally API.agency_of API.amount_of data at_,
       tally API.vendor_of one data vc,
       tally API.agency_of one data ac,
       fold_left cell_step data matrixMap).
Proof.
  induction data as [|r data IH]; intros; [reflexivity|].
  cbn [fold_left]. unfold tally. cbn [fold_left].
  unfold API.matrix_step at 2. rewrite IH. reflexivity.
Qed.

Lemma push_node_fold `{Locale} ty prefix totals (names : list string) :
  forall nodes nodeIndex,
    fold_left (API.push_node ty prefix totals) names (nodes, nodeIndex)
    = (nodes ++ nodes_for ty prefix totals names,
       index_for prefix (length nodes) names nodeIndex).
Proof.
  induction names as [|n names IH]; intros nodes nodeIndex.
  - simpl. rewrite app_nil_r. reflexivity.
  - cbn [fold_left]. unfold API.push_node at 2. rewrite IH.
    unfold nodes_for. cbn [map index_for].
    rewrite <- app_assoc, length_app, Nat.add_1_r. reflexivity.
Qed.

(** [aggregateForSankey], with the grouping pass and the two [forEach]
    loops spelled out. *)
Lemma aggregateForSankey_eq `{Locale} (data : list record) (sortBy : string) :
  API.aggregateForSankey data sortBy
  = let vendorTotals := tally API.vendor_of API.amount_of data [] in
    let agencyTotals := tally API.agency_of API.amount_of data [] in
    let sortedVendors := vendors_of data sortBy in
    let sortedAgencies := agencies_of data sortBy in
    let nodeIndex :=
      index_for "agency:" (length sortedVendors) sortedAgencies
                (index_for "vendor:" 0 sortedVendors []) in
    API.Sankey
      (nodes_for API.vendor_node "vendor:" vendorTotals sortedVendors
       ++ nodes_for API.agency_node "agency:" agencyTotals sortedAgencies)
      (map (fun b : API.bucket =>
              API.Link (JsMap.get ("vendor:" +:+ API.vendor b) nodeIndex)
                       (JsMap.get ("agency:" +:+ API.agency b) nodeIndex)
                       (API.amount b) (API.count b) (API.vendor b) (API.agency b)
                       (API.contracts b))
           (JsMap.values (fold_left bucket_step data []))).
Proof.
  unfold API.aggregateForSankey, vendors_of, agencies_of, ranked, JsMap.empty.
  rewrite sankey_fold, count_fold.
  destruct (String.eqb (API.sort_field sortBy) "amount");
    [|destruct (String.eqb (API.sort_field sortBy) "count")];
    rewrite !push_node_fold; cbn [app length];
    unfold nodes_for; rewrite length_map; reflexivity.
Qed.

(** [aggregateForMatrix], with the grouping pass spelled out. *)
Lemma aggregateForMatrix_eq `{Locale} (data : list record) (sortBy : string) :
  API.aggregateForMatrix data sortBy
  = let vendorTotalsMap := tally API.vendor_of API.amount_of data [] in
    let agencyTotalsMap := tally API.agency_of API.amount_of data [] in
    let matrixMap := fold_left cell_step data [] in
    let vendors := vendors_of data sortBy in
    let agencies := agencies_of data sortBy in
    API.MatrixData
      vendors agencies
      (map (fun vendor =>
              map (fun agency =>
                     match JsMap.get (API.pair_key vendor agency) matrixMap with
                     | Some c => API.Cell (API.cell_amount c) (API.cell_count c)
                     | None => API.Cell 0 0
                     end)
                  agencies)
           vendors)
      (map (fun vendor => JsMap.get vendor vendorTotalsMap) vendors)
      (map (fun agency => JsMap.get agency agencyTotalsMap) agencies).
Proof.
  unfold API.aggregateForMatrix, vendors_of, agencies_of, ranked, JsMap.empty.
  rewrite matrix_fold.
  destruct (String.eqb (API.sort_field sortBy) "amount");
    [|destruct (String.eqb (API.sort_field sortBy) "count")]; reflexivity.
Qed.

(** *** The totals and the counts *)

Lemma existsb_eqb_In (k : string) (ks : list string) :
  existsb (String.eqb k) ks = true <-> In k ks.
Proof.
  rewrite existsb_exists. split.
  - intros (x & Hin & Heq). apply String.eqb_eq in Heq as ->. exact Hin.
  - intros Hin. exists k. split; [exact Hin|apply String.eqb_refl].
Qed.

Lemma has_existsb {V} (m : JsMap.t V) (k : string) :
  JsMap.has k m = existsb (String.eqb k) (JsMap.keys m).
Proof.
  apply eq_true_iff_eq. rewrite has_true, existsb_eqb_In. reflexivity.
Qed.

Section Tally.

Variable key : record -> string.
Variable val : record -> Js.number.

Lemma tally_snoc data r m :
  tally key val (data ++ [r]) m
  = API.accumulate (key r) (val r) (tally key val data m).
Proof. unfold tally. rewrite fold_left_app. reflexivity. Qed.

Lemma first_seen_snoc data r seen :
  first_seen key (data ++ [r]) seen
  = let ks := first_seen key data seen in
    if existsb (String.eqb (key r)) ks then ks else ks ++ [key r].
Proof. unfold first_seen. rewrite fold_left_app. reflexivity. Qed.

Lemma keys_tally data m :
  JsMap.keys (tally key val data m) = first_seen key data (JsMap.keys m).
Proof.
  induction data as [|r data IH] using rev_ind; [reflexivity|].
  rewrite tally_snoc, first_seen_snoc. unfold API.accumulate.
  rewrite keys_set, has_existsb, IH. reflexivity.
Qed.

Lemma first_seen_In data seen k :
  In k (first_seen key data seen) <-> In k seen \/ exists r, In r data /\ key r = k.
Proof.
  revert k. induction data as [|r data IH] using rev_ind; intros k.
  - simpl. split; [auto|]. intros [Hin|(r & [] & _)]. exact Hin.
  - rewrite first_seen_snoc. cbv zeta.
    destruct (existsb (String.eqb (key r)) (first_seen key data seen)) eqn:E.
    + rewrite IH. apply existsb_eqb_In, IH in E.
      split.
      * intros [Hin|(r' & Hr' & Hk)]; [auto|].
        right. exists r'. split; [apply in_or_app; auto|exact Hk].
      * intros [Hin|(r' & Hr' & Hk)]; [auto|].
        apply in_app_or in Hr' as [Hr'|[<-|[]]]; [eauto|].
        rewrite <- Hk. exact E.
    + rewrite in_app_iff, IH. simpl. split.
      * intros [[Hin|(r' & Hr' & Hk)]|[<-|[]]]; [auto| |].
        -- right. exists r'. split; [apply in_or_app; auto|exact Hk].
        -- right. exists r. split; [apply in_or_app; simpl; auto|reflexivity].
      * intros [Hin|(r' & Hr' & Hk)]; [auto|].
        apply in_app_or in Hr' as [Hr'|[<-|[]]]; [eauto|auto].
Qed.

Lemma first_seen_NoDup data seen :
  List.NoDup seen -> List.NoDup (first_seen key data seen).
Proof.
  intros Hnd. induction data as [|r data IH] using rev_ind; [exact Hnd|].
  rewrite first_seen_snoc. cbv zeta.
  destruct (existsb (String.eqb (key r)) (first_seen key data seen)) eqn:E;
    [exact IH|].
  apply NoDup_ListNoDup, NoDup_app. apply NoDup_ListNoDup in IH.
  split; [exact IH|]. split; [|apply NoDup_singleton].
  intros x Hx. rewrite list_elem_of_singleton. intros ->.
  apply list_elem_of_In, existsb_eqb_In in Hx. congruence.
Qed.

End Tally.

(** The keys do not depend on what is added up. *)
Lemma keys_tally_indep key val val' data :
  JsMap.keys (tally key val data []) = JsMap.keys (tally key val' data []).
Proof. rewrite !keys_tally. reflexivity. Qed.

(** *** The order of the entities *)

Lemma sort_by_number_perm mult (m : JsMap.t Js.number) :
  Permutation (API.sort_by_number mult m) (JsMap.keys m).
Proof.
  unfold API.sort_by_number, JsMap.keys, JsMap.entries.
  apply Permutation_map, sort_perm.
Qed.

Lemma ranked_perm `{Locale} sortBy (totals counts : JsMap.t Js.number) :
  JsMap.keys counts = JsMap.keys totals ->
  Permutation (ranked sortBy totals counts) (JsMap.keys totals).
Proof.
  intros Hk. unfold ranked.
  destruct (String.eqb (API.sort_field sortBy) "amount");
    [apply sort_by_number_perm|].
  destruct (String.eqb (API.sort_field sortBy) "count").
  - rewrite <- Hk. apply sort_by_number_perm.
  - apply sort_perm.
Qed.

Lemma vendors_of_perm `{Locale} data sortBy :
  Permutation (vendors_of data sortBy) (first_seen API.vendor_of data []).
Proof.
  unfold vendors_of. rewrite ranked_perm by apply keys_tally_indep.
  rewrite keys_tally. reflexivity.
Qed.

Lemma agencies_of_perm `{Locale} data sortBy :
  Permutation (agencies_of data sortBy) (first_seen API.agency_of data []).
Proof.
  unfold agencies_of. rewrite ranked_perm by apply keys_tally_indep.
  rewrite keys_tally. reflexivity.
Qed.

Lemma perm_In {A} (l l' : list A) (x : A) :
  Permutation l l' -> In x l <-> In x l'.
Proof. intros Hp. split; apply Permutation_in; [|symmetry]; exact Hp. Qed.

Lemma vendors_of_In `{Locale} data sortBy v :
  In v (vendors_of data sortBy) <-> exists r, In r data /\ API.vendor_of r = v.
Proof.
  rewrite (perm_In _ _ v (vendors_of_perm data sortBy)), first_seen_In.
  simpl. tauto.
Qed.

Lemma agencies_of_In `{Locale} data sortBy a :
  In a (agencies_of data sortBy) <-> exists r, In r data /\ API.agency_of r = a.
Proof.
  rewrite (perm_In _ _ a (agencies_of_perm data sortBy)), first_seen_In.
  simpl. tauto.
Qed.

Lemma vendors_of_NoDup `{Locale} data sortBy : List.NoDup (vendors_of data sortBy).
Proof.
  eapply Permutation_NoDup; [symmetry; apply vendors_of_perm|].
  apply first_seen_NoDup, List.NoDup_nil.
Qed.

Lemma agencies_of_NoDup `{Locale} data sortBy : List.NoDup (agencies_of data sortBy).
Proof.
  eapply Permutation_NoDup; [symmetry; apply agencies_of_perm|].
  apply first_seen_NoDup, List.NoDup_nil.
Qed.

(** *** Sums *)

Lemma fold_left_Qplus (xs : list Q) (a : Q) :
  fold_left Qplus xs a == a + sum xs.
Proof.
  unfold sum. revert a. induction xs as [|x xs IH]; intros a; simpl.
  - ring.
  - rewrite (IH (a + x)), (IH (0 + x)). ring.
Qed.

Lemma sum_cons (x : Q) (xs : list Q) : sum (x :: xs) == x + sum xs.
Proof. unfold sum at 1. simpl. rewrite fold_left_Qplus. ring. Qed.

Lemma sum_app (xs ys : list Q) : sum (xs ++ ys) == sum xs + sum ys.
Proof.
  unfold sum at 1. rewrite fold_left_app, fold_left_Qplus. reflexivity.
Qed.

Lemma sum_snoc (xs : list Q) (x : Q) : sum (xs ++ [x]) == sum xs + x.
Proof. rewrite sum_app, sum_cons. unfold sum at 2. simpl. ring. Qed.

Lemma or_number_Some (q : Q) : Js.or_number (Some q) 0 == q.
Proof.
  unfold Js.or_number. destruct (Qeq_bool q 0) eqn:E; [|reflexivity].
  apply Qeq_bool_eq in E. symmetry. exact E.
Qed.

Lemma get_accumulate (m : JsMap.t Js.number) (k k' : string) (x : Js.number) :
  JsMap.get k' (API.accumulate k x m)
  = if String.eqb k k' then Some (Js.or_number (JsMap.get k m) 0 + x)
    else JsMap.get k' m.
Proof.
  unfold API.accumulate. destruct (String.eqb_spec k k') as [->|Hne].
  - apply get_set_eq.
  - apply get_set_ne, Hne.
Qed.

(** The total kept under a key is the sum over the records of that key. *)
Lemma tally_total key val (data : list record) (k : string) :
  Js.or_number (JsMap.get k (tally key val data [])) 0
  == total_where key val k data.
Proof.
  induction data as [|r data IH] using rev_ind; [reflexivity|].
  rewrite tally_snoc, get_accumulate. unfold total_where in *.
  rewrite List.filter_app, map_app. cbn [List.filter].
  destruct (String.eqb_spec (key r) k) as [->|Hne].
  - cbn [map]. rewrite sum_snoc, or_number_Some, IH. reflexivity.
  - cbn [map]. rewrite app_nil_r. exact IH.
Qed.

Lemma tally_get key val (data : list record) (k : string) (t : Js.number) :
  JsMap.get k (tally key val data []) = Some t ->
  t == total_where key val k data.
Proof.
  intros Hg. rewrite <- tally_total, Hg, or_number_Some. reflexivity.
Qed.

Lemma tally_get_In key val (data : list record) (r : record) :
  In r data -> exists t, JsMap.get (key r) (tally key val data []) = Some t.
Proof.
  intros Hr. destruct (JsMap.get (key r) (tally key val data [])) eqn:E; [eauto|].
  exfalso. apply get_None_keys in E. apply E.
  rewrite keys_tally, first_seen_In. right. eauto.
Qed.

(** *** The buckets *)

Lemma bucket_step_get (linkMap : JsMap.t API.bucket) (r : record) (k : string) :
  JsMap.get k (bucket_step linkMap r)
  = if String.eqb (key_of r) k
    then Some (add_record r (default (new_bucket r) (JsMap.get (key_of r) linkMap)))
    else JsMap.get k linkMap.
Proof.
  unfold bucket_step. fold (key_of r). fold (new_bucket r).
  change (fun link : API.bucket => _) with (add_record r).
  unfold JsMap.has.
  destruct (String.eqb_spec (key_of r) k) as [<-|Hne].
  - rewrite get_alter_eq.
    destruct (JsMap.get (key_of r) linkMap) as [b|] eqn:E; cbn [negb].
    + rewrite E. reflexivity.
    + rewrite get_set_eq. reflexivity.
  - rewrite get_alter_ne by exact Hne.
    destruct (JsMap.get (key_of r) linkMap) as [b|] eqn:E; cbn [negb].
    + reflexivity.
    + apply get_set_ne, Hne.
Qed.

Lemma bucket_step_keys (linkMap : JsMap.t API.bucket) (r : record) :
  JsMap.keys (bucket_step linkMap r)
  = if JsMap.has (key_of r) linkMap then JsMap.keys linkMap
    else JsMap.keys linkMap ++ [key_of r].
Proof.
  unfold bucket_step. fold (key_of r). rewrite keys_alter.
  destruct (JsMap.has (key_of r) linkMap) eqn:E; cbn [negb]; [reflexivity|].
  rewrite keys_set, E. reflexivity.
Qed.

Lemma buckets_snoc data r : buckets (data ++ [r]) = bucket_step (buckets data) r.
Proof. unfold buckets. rewrite fold_left_app. reflexivity. Qed.

Lemma buckets_NoDup data : List.NoDup (JsMap.keys (buckets data)).
Proof.
  induction data as [|r data IH] using rev_ind; [apply List.NoDup_nil|].
  rewrite buckets_snoc, bucket_step_keys.
  destruct (JsMap.has (key_of r) (buckets data)) eqn:E; [exact IH|].
  apply NoDup_ListNoDup, NoDup_app. apply NoDup_ListNoDup in IH.
  split; [exact IH|]. split; [|apply NoDup_singleton].
  intros x Hx. rewrite list_elem_of_singleton. intros ->.
  apply list_elem_of_In, has_true in Hx. congruence.
Qed.

(** A bucket sits under the key of its own vendor and agency, which are
    those of a record of the input, and it holds records of that key. *)
Lemma buckets_inv data k b :
  JsMap.get k (buckets data) = Some b ->
  k = API.pair_key (API.vendor b) (API.agency b)
  /\ (exists r, In r data /\ API.vendor_of r = API.vendor b
                /\ API.agency_of r = API.agency b)
  /\ (forall r, In r (API.contracts b) -> In r data /\ key_of r = k).
Proof.
  revert k b. induction data as [|r data IH] using rev_ind; intros k b;
    [discriminate|].
  rewrite buckets_snoc, bucket_step_get.
  destruct (String.eqb_spec (key_of r) k) as [<-|Hne].
  - intros [= <-].
    destruct (JsMap.get (key_of r) (buckets data)) as [b0|] eqn:E; cbn.
    + destruct (IH _ _ E) as (Hk & (r0 & Hr0 & Hv & Ha) & Hc).
      split; [exact Hk|]. split.
      * exists r0. split; [apply in_or_app; auto|auto].
      * intros r' Hr'. apply in_app_or in Hr' as [Hr'|[<-|[]]].
        -- destruct (Hc r' Hr') as [Hin Hkey].
           split; [apply in_or_app; auto|exact Hkey].
        -- split; [apply in_or_app; simpl; auto|reflexivity].
    + split; [reflexivity|]. split.
      * exists r. split; [apply in_or_app; simpl; auto|auto].
      * intros r' [<-|[]]. split; [apply in_or_app; simpl; auto|reflexivity].
  - intros Hg. destruct (IH _ _ Hg) as (Hk & (r0 & Hr0 & Hv & Ha) & Hc).
    split; [exact Hk|]. split.
    + exists r0. split; [apply in_or_app; auto|auto].
    + intros r' Hr'. destruct (Hc r' Hr') as [Hin Hkey].
      split; [apply in_or_app; auto|exact Hkey].
Qed.

(** Every record is in the bucket of its key. *)
Lemma buckets_has data r :
  In r data ->
  exists b, JsMap.get (key_of r) (buckets data) = Some b /\ In r (API.contracts b).
Proof.
  induction data as [|r' data IH] using rev_ind; [intros []|].
  intros Hin. rewrite buckets_snoc, bucket_step_get.
  destruct (String.eqb_spec (key_of r') (key_of r)) as [Heq|Hne].
  - eexists. split; [reflexivity|]. cbn.
    apply in_app_or in Hin as [Hin|[->|[]]].
    + destruct (IH Hin) as (b & Hb & Hc). rewrite Heq, Hb. cbn.
      apply in_or_app. auto.
    + apply in_or_app. simpl. auto.
  - apply in_app_or in Hin as [Hin|[->|[]]]; [|congruence].
    apply IH, Hin.
Qed.

Lemma values_In {V} (m : JsMap.t V) (v : V) :
  List.NoDup (JsMap.keys m) ->
  In v (JsMap.values m) <-> exists k, JsMap.get k m = Some v.
Proof.
  intros Hnd. unfold JsMap.values. rewrite in_map_iff. split.
  - intros ([k v'] & Hv & Hin). simpl in Hv. subst v'.
    exists k. apply In_get_Some; assumption.
  - intros (k & Hg). exists (k, v). split; [reflexivity|apply get_Some_In, Hg].
Qed.

(** *** The cells are the buckets *)

Section MapValues.

Context {V W : Type} (f : V -> W).

Lemma map_values_get (m : JsMap.t V) k :
  JsMap.get k (map_values f m) = f <$> JsMap.get k m.
Proof.
  induction m as [|[k' v] m IH]; simpl; [reflexivity|].
  destruct (String.eqb k k'); [reflexivity|exact IH].
Qed.

Lemma map_values_has (m : JsMap.t V) k :
  JsMap.has k (map_values f m) = JsMap.has k m.
Proof.
  unfold JsMap.has. rewrite map_values_get. destruct (JsMap.get k m); reflexivity.
Qed.

Lemma map_values_set (m : JsMap.t V) k v :
  map_values f (JsMap.set k v m) = JsMap.set k (f v) (map_values f m).
Proof.
  induction m as [|[k' v'] m IH]; simpl; [reflexivity|].
  destruct (String.eqb k k'); simpl; [reflexivity|].
  f_equal. exact IH.
Qed.

Lemma map_values_alter (m : JsMap.t V) k (g : V -> V) (g' : W -> W) :
  (forall v, f (g v) = g' (f v)) ->
  map_values f (JsMap.alter g k m) = JsMap.alter g' k (map_values f m).
Proof.
  intros Hg. induction m as [|[k' v'] m IH]; simpl; [reflexivity|].
  destruct (String.eqb k k'); simpl.
  - rewrite Hg. reflexivity.
  - f_equal. exact IH.
Qed.

End MapValues.

Lemma cell_step_buckets (linkMap : JsMap.t API.bucket) (r : record) :
  cell_step (map_values cell_of linkMap) r
  = map_values cell_of (bucket_step linkMap r).
Proof.
  unfold cell_step, bucket_step. rewrite map_values_has.
  symmetry. rewrite map_values_alter with (g' := fun c =>
    API.Cell (API.cell_amount c + API.amount_of r) (API.cell_count c + 1))
    by reflexivity.
  f_equal. destruct (JsMap.has _ linkMap); cbn [negb]; [reflexivity|].
  rewrite map_values_set. reflexivity.
Qed.

(** [matrixMap] holds, key by key, the amount and the count of [linkMap]. *)
Lemma cells_buckets (data : list record) :
  fold_left cell_step data [] = map_values cell_of (buckets data).
Proof.
  induction data as [|r data IH] using rev_ind; [reflexivity|].
  rewrite fold_left_app, buckets_snoc. cbn [fold_left].
  rewrite IH. apply cell_step_buckets.
Qed.

(** *** The node index *)

Lemma append_inj (p a b : string) : p +:+ a = p +:+ b -> a = b.
Proof.
  induction p as [|c p IH]; [auto|].
  rewrite !append_cons. intros [= Hp]. apply IH, Hp.
Qed.

Lemma index_for_other prefix (names : list string) :
  forall start nodeIndex k,
    (forall n, In n names -> prefix +:+ n <> k) ->
    JsMap.get k (index_for prefix start names nodeIndex) = JsMap.get k nodeIndex.
Proof.
  induction names as [|n names IH]; intros start nodeIndex k Hk; [reflexivity|].
  cbn [index_for]. rewrite IH by (intros n' Hn'; apply Hk; right; exact Hn').
  apply get_set_ne, Hk. left. reflexivity.
Qed.

Lemma index_for_get prefix (names : list string) :
  forall start nodeIndex (i : nat) n,
    List.NoDup names ->
    names !! i = Some n ->
    JsMap.get (prefix +:+ n) (index_for prefix start names nodeIndex)
    = Some (start + i)%nat.
Proof.
  induction names as [|n0 names IH]; intros start nodeIndex i n Hnd Hi;
    [discriminate|].
  apply List.NoDup_cons_iff in Hnd as [Hn0 Hnd]. cbn [index_for].
  destruct i as [|i]; simpl in Hi.
  - injection Hi as ->. rewrite index_for_other.
    + rewrite get_set_eq, Nat.add_0_r. reflexivity.
    + intros n' Hn' Heq. apply append_inj in Heq as ->. contradiction.
  - rewrite (IH (S start) _ i n Hnd Hi). f_equal. lia.
Qed.

Lemma In_lookup {A} (l : list A) (x : A) :
  In x l -> exists i, l !! i = Some x.
Proof. intros Hx. apply list_elem_of_lookup, list_elem_of_In, Hx. Qed.

Lemma vendor_key_ne_agency_key (v a : string) : "agency:" +:+ a <> "vendor:" +:+ v.
Proof. discriminate. Qed.

(** The graph that [aggregateForSankey] returns: every edge runs from the
    node of its vendor to the node of its agency. *)
Lemma sankey_endpoints `{Locale} (data : list record) (sortBy : string) (l : API.link) :
  In l (API.links (API.aggregateForSankey data sortBy)) ->
  exists b i j,
    JsMap.get (API.pair_key (API.link_vendor l) (API.link_agency l)) (buckets data)
    = Some b
    /\ API.vendor b = API.link_vendor l /\ API.agency b = API.link_agency l
    /\ API.value l = API.amount b /\ API.link_count l = API.count b
    /\ API.link_contracts l = API.contracts b
    /\ vendors_of data sortBy !! i = Some (API.link_vendor l)
    /\ agencies_of data sortBy !! j = Some (API.link_agency l)
    /\ API.source l = Some i
    /\ API.target l = Some (length (vendors_of data sortBy) + j)%nat.
Proof.
  rewrite aggregateForSankey_eq. cbn [API.links].
  rewrite in_map_iff. intros (b & <- & Hb). cbn.
  apply values_In in Hb as (k & Hk); [|apply buckets_NoDup].
  destruct (buckets_inv data k b Hk) as (-> & (r & Hr & Hv & Ha) & _).
  assert (Hvi : exists i, vendors_of data sortBy !! i = Some (API.vendor b))
    by (apply In_lookup, vendors_of_In; eauto).
  assert (Haj : exists j, agencies_of data sortBy !! j = Some (API.agency b))
    by (apply In_lookup, agencies_of_In; eauto).
  destruct Hvi as [i Hi], Haj as [j Hj].
  exists b, i, j. repeat split; try assumption.
  - rewrite index_for_other by (intros; apply vendor_key_ne_agency_key).
    apply (index_for_get "vendor:" _ 0%nat); [apply vendors_of_NoDup|exact Hi].
  - apply index_for_get; [apply agencies_of_NoDup|exact Hj].
Qed.

(** ** The two projections *)

Lemma filter_nodes_for ty ty' prefix totals names :
  List.filter (is_type ty) (nodes_for ty' prefix totals names)
  = if is_type ty (API.Node "" ty' "" None)
    then nodes_for ty' prefix totals names else [].
Proof.
  induction names as [|n names IH]; [destruct ty, ty'; reflexivity|].
  unfold nodes_for in *. cbn [map List.filter]. rewrite IH.
  destruct ty, ty'; reflexivity.
Qed.

Lemma lookup_map {A B} (f : A -> B) (l : list A) (i : nat) :
  map f l !! i = f <$> l !! i.
Proof.
  revert i. induction l as [|x l IH]; intros [|i]; simpl; auto.
Qed.

(** What the two projections have in common, whatever the input and the
    sort key: the vendors and the agencies in the same order with the same
    totals, and for every edge of the graph the cell of the matrix at the
    row of its vendor and the column of its agency, which holds the amount
    and the count of the edge. *)
Lemma projections_agree `{Locale} (data : list record) (sortBy : string) :
  let s := API.aggregateForSankey data sortBy in
  let m := API.aggregateForMatrix data sortBy in
  names_of API.vendor_node (API.nodes s) = API.vendors m
  /\ names_of API.agency_node (API.nodes s) = API.agencies m
  /\ totals_of API.vendor_node (API.nodes s) = API.vendorTotals m
  /\ totals_of API.agency_node (API.nodes s) = API.agencyTotals m
  /\ forall l, In l (API.links s) ->
       exists i j,
         API.source l = Some i
         /\ API.target l = Some (length (API.vendors m) + j)%nat
         /\ API.vendors m !! i = Some (API.link_vendor l)
         /\ API.agencies m !! j = Some (API.link_agency l)
         /\ API.matrix m !! i ≫= (.!! j)
            = Some (API.Cell (API.value l) (API.link_count l)).
Proof.
  intros s m.
  assert (Hs : API.nodes s
               = nodes_for API.vendor_node "vendor:"
                   (tally API.vendor_of API.amount_of data []) (vendors_of data sortBy)
                 ++ nodes_for API.agency_node "agency:"
                      (tally API.agency_of API.amount_of data [])
                      (agencies_of data sortBy))
    by (subst s; rewrite aggregateForSankey_eq; reflexivity).
  subst m. rewrite aggregateForMatrix_eq. cbn zeta.
  cbn [API.vendors API.agencies API.vendorTotals API.agencyTotals API.matrix].
  unfold names_of, totals_of. rewrite Hs, !List.filter_app, !filter_nodes_for.
  cbn [is_type API.type app]. rewrite !app_nil_r. unfold nodes_for.
  rewrite !map_map. cbn [API.name API.total].
  repeat split; try (rewrite map_id; reflexivity).
  intros l Hl. apply sankey_endpoints in Hl
    as (b & i & j & Hb & Hv & Ha & Hval & Hcnt & _ & Hi & Hj & Hsrc & Htgt).
  exists i, j. repeat split; try assumption.
  rewrite lookup_map, Hi. cbn. rewrite lookup_map, Hj. cbn.
  rewrite cells_buckets, map_values_get, Hb. cbn.
  rewrite Hval, Hcnt. reflexivity.
Qed.

(** *** The sum over the edges *)







(** ** Keys that do not collide *)

(** X26: without colliding keys, a pair of a vendor and an agency that has
    no edge in the graph has the zero/zero cell in the matrix. *)
Lemma missing_pair_zero_cell `{Locale} (data : list record) (sortBy : string) :
  collision_free data ->
  let s := API.aggregateForSankey data sortBy in
  let m := API.aggregateForMatrix data sortBy in
  forall i j v a,
    API.vendors m !! i = Some v -> API.agencies m !! j = Some a ->
    (forall l, In l (API.links s) ->
               ~ (API.link_vendor l = v /\ API.link_agency l = a)) ->
    API.matrix m !! i ≫= (.!! j) = Some (API.Cell 0 0).
Proof.
  intros Hfree s m i j v a. subst s m.
  rewrite aggregateForMatrix_eq, aggregateForSankey_eq. cbn zeta.
  cbn [API.vendors API.agencies API.matrix API.links].
  intros Hi Hj Hno. rewrite lookup_map, Hi. cbn. rewrite lookup_map, Hj. cbn.
  rewrite cells_buckets, map_values_get.
  destruct (JsMap.get (API.pair_key v a) (buckets data)) as [b|] eqn:Hb;
    [|reflexivity].
  exfalso.
  destruct (buckets_inv data _ b Hb) as (Hk & (r & Hr & Hv & Ha) & _).
  assert (Hvin : In v (vendors_of data sortBy))
    by (apply list_elem_of_In, list_elem_of_lookup; eauto).
  assert (Hain : In a (agencies_of data sortBy))
    by (apply list_elem_of_In, list_elem_of_lookup; eauto).
  apply vendors_of_In in Hvin as (r1 & Hr1 & <-).
  apply agencies_of_In in Hain as (r2 & Hr2 & <-).
  destruct (Hfree r1 r2 r Hr1 Hr2 Hr) as [Ev Ea].
  { unfold key_of. rewrite Hv, Ha. exact Hk. }
  eapply Hno.
  - apply in_map_iff. exists b. split; [reflexivity|].
    apply values_In; [apply buckets_NoDup|eauto].
  - cbn. split; congruence.
Qed.

(** *** The sum over the cells *)










(** C1: on two records, one of vendor "A|||B" and agency "C", one of vendor
    "A" and agency "B|||C", both fall into the one bucket "A|||B|||C": the
    graph has a single edge, from "A|||B" to "C", with amount 3 and count
    2, and no edge from "A" to "B|||C", while the matrix shows amount 3 and
    count 2 in the cell of "A" and "B|||C" as well as in the cell of
    "A|||B" and "C": a pair without an edge has a cell that is not zero. *)
Theorem colliding_keys_disagree (L : Locale) :
  let s := API.aggregateForSankey colliding "amount-desc" in
  let m := API.aggregateForMatrix colliding "amount-desc" in
  map (fun l => (API.link_vendor l, API.link_agency l, API.value l, API.link_count l))
      (API.links s)
  = [("A|||B", "C", 3, 2)]
  /\ API.vendors m = ["A"; "A|||B"]
  /\ API.agencies m = ["B|||C"; "C"]
  /\ API.matrix m = [[API.Cell 3 2; API.Cell 0 0]; [API.Cell 0 0; API.Cell 3 2]].
Proof. vm_compute. repeat split; reflexivity. Qed.

(** C2: on the same two records the edges of the graph add up to 3, which
    is the total of the records, and the cells of the matrix add up to 6. *)
Theorem colliding_keys_cell_sum (L : Locale) :
  let s := API.aggregateForSankey colliding "amount-desc" in
  let m := API.aggregateForMatrix colliding "amount-desc" in
  sum (map API.value (API.links s)) = 3
  /\ App.totalAmount colliding = 3
  /\ sum (map API.cell_amount (concat (API.matrix m))) = 6.
Proof. vm_compute. repeat split; reflexivity. Qed.

(** ** The window of the flow diagram *)

Lemma usedNodeIndices_spec (top : list API.link) (x : option nat) :
  x ∈ SankeyChart.usedNodeIndices top
  <-> exists l, In l top /\ (API.source l = x \/ API.target l = x).
Proof.
  unfold SankeyChart.usedNodeIndices.
  assert (Hgen : forall (acc : gset (option nat)),
             x ∈ fold_left (fun used link =>
                              used ∪ {[API.source link]} ∪ {[API.target link]})
                           top acc
             <-> x ∈ acc \/ exists l, In l top /\ (API.source l = x \/ API.target l = x)).
  { induction top as [|l top IH]; intros acc; simpl.
    - split; [auto|]. intros [Hx|(l & [] & _)]. exact Hx.
    - rewrite IH. rewrite !elem_of_union, !elem_of_singleton. split.
      + intros [[[Hx|Hx]|Hx]|(l' & Hl' & Hx)]; eauto 6.
      + intros [Hx|(l' & [<-|Hl'] & [Hx|Hx])]; eauto 6. }
  rewrite Hgen. split; [|auto]. intros [Hx|Hx]; [|exact Hx].
  apply not_elem_of_empty in Hx. contradiction.
Qed.

Lemma keep_node_renumbered (used : gset (option nat)) (es : list (nat * API.node)) :
  List.NoDup (map fst es) ->
  renumbered used es
    (fst (fold_left (SankeyChart.keep_node used) es (∅, [])))
    (snd (fold_left (SankeyChart.keep_node used) es (∅, []))).
Proof.
  induction es as [|[o x] es IH] using rev_ind; intros Hnd.
  - simpl. split.
    + intros old new Hl. rewrite lookup_empty in Hl. discriminate.
    + intros old [].
    + intros p [].
  - rewrite map_app in Hnd. cbn [map fst] in Hnd.
    apply NoDup_ListNoDup, NoDup_app in Hnd as (Hnd & Hfresh & _).
    apply NoDup_ListNoDup in Hnd. specialize (IH Hnd).
    assert (Ho : ~ In o (map fst es)).
    { intros Hin. apply list_elem_of_In in Hin. apply (Hfresh o Hin).
      apply list_elem_of_singleton. reflexivity. }
    rewrite fold_left_app. cbn [fold_left].
    destruct (fold_left (SankeyChart.keep_node used) es (∅, [])) as [nm kept].
    cbn [fst snd] in IH. destruct IH as [Hmap Hused Hkept].
    unfold SankeyChart.keep_node.
    destruct (bool_decide (Some o ∈ used)) eqn:E.
    + apply bool_decide_eq_true in E. cbn [fst snd].
      assert (Hnone : nm !! o = None).
      { destruct (nm !! o) eqn:Hl; [|reflexivity].
        apply Hmap in Hl as (_ & Hin & _). contradiction. }
      split.
      * intros old new Hl. destruct (decide (o = old)) as [<-|Hne].
        -- rewrite lookup_insert_eq in Hl. injection Hl as <-.
           split; [exact E|]. split; [rewrite map_app; apply in_or_app; simpl; auto|].
           exists x. apply list_lookup_middle. reflexivity.
        -- rewrite lookup_insert_ne in Hl by exact Hne.
           apply Hmap in Hl as (Hu & Hin & node & Hk).
           split; [exact Hu|]. split; [rewrite map_app; apply in_or_app; auto|].
           exists node. apply lookup_app_l_Some. exact Hk.
      * intros old Hin Hu. destruct (decide (o = old)) as [<-|Hne].
        -- rewrite lookup_insert_eq. eauto.
        -- rewrite lookup_insert_ne by exact Hne. apply Hused; [|exact Hu].
           rewrite map_app in Hin.
           apply in_app_or in Hin as [Hin|[Heq|[]]]; [exact Hin|].
           simpl in Heq. congruence.
      * intros p Hp. apply in_app_or in Hp as [Hp|[<-|[]]].
        -- destruct (Hkept p Hp) as [old Hold]. exists old.
           rewrite lookup_insert_ne; [exact Hold|]. congruence.
        -- exists o. cbn. apply lookup_insert_eq.
    + apply bool_decide_eq_false in E. cbn [fst snd]. split.
      * intros old new Hl. apply Hmap in Hl as (Hu & Hin & Hk).
        split; [exact Hu|]. split; [rewrite map_app; apply in_or_app; auto|exact Hk].
      * intros old Hin Hu. apply Hused; [|exact Hu]. rewrite map_app in Hin.
        apply in_app_or in Hin as [Hin|[Heq|[]]]; [exact Hin|].
        simpl in Heq. subst old. contradiction.
      * exact Hkept.
Qed.

Lemma entries_fst {A} (l : list A) (start : nat) :
  map fst (combine (seq start (length l)) l) = seq start (length l).
Proof.
  revert start. induction l as [|x l IH]; intros start; [reflexivity|].
  simpl. rewrite IH. reflexivity.
Qed.

(** The window keeps at most [maxLinks] edges. *)
Lemma window_links_length (maxLinks : nat) (s : API.sankey) :
  (length (SankeyChart.filteredLinks (SankeyChart.window maxLinks s)) <= maxLinks)%nat.
Proof.
  unfold SankeyChart.window.
  destruct (fold_left _ _ _) as [nodeMap kept]. cbn [SankeyChart.filteredLinks].
  etransitivity; [apply List.filter_length_le|].
  rewrite length_map. unfold SankeyChart.topLinks, Js.slice0.
  apply firstn_le_length.
Qed.

(** When every edge of the graph has its two ends among the nodes, every
    node that the window keeps is an end of an edge that the window
    keeps. *)
Lemma window_nodes_used (maxLinks : nat) (s : API.sankey) :
  (forall l, In l (API.links s) ->
             exists i j, API.source l = Some i /\ API.target l = Some j
                         /\ (i < length (API.nodes s))%nat
                         /\ (j < length (API.nodes s))%nat) ->
  forall p, In p (SankeyChart.filteredNodes (SankeyChart.window maxLinks s)) ->
    exists l, In l (SankeyChart.filteredLinks (SankeyChart.window maxLinks s))
              /\ (API.source l = Some (SankeyChart.index p)
                  \/ API.target l = Some (SankeyChart.index p)).
Proof.
  intros Hends p. unfold SankeyChart.window.
  set (top := SankeyChart.topLinks maxLinks s).
  set (used := SankeyChart.usedNodeIndices top).
  set (es := combine (seq 0 (length (API.nodes s))) (API.nodes s)).
  assert (Hnd : List.NoDup (map fst es))
    by (subst es; rewrite entries_fst; apply List.seq_NoDup).
  pose proof (keep_node_renumbered used es Hnd) as Hren.
  destruct (fold_left (SankeyChart.keep_node used) es (∅, [])) as [nodeMap kept].
  cbn [fst snd] in Hren. destruct Hren as [Hmap Hused Hkept].
  cbn [SankeyChart.filteredNodes SankeyChart.filteredLinks].
  intros Hp. destruct (Hkept p Hp) as [old Hold].
  destruct (Hmap old _ Hold) as (Hu & _ & _).
  apply usedNodeIndices_spec in Hu as (l & Hl & Hend).
  assert (Hls : In l (API.links s)).
  { subst top. unfold SankeyChart.topLinks, Js.slice0 in Hl.
    apply In_firstn in Hl. apply sort_In in Hl. exact Hl. }
  destruct (Hends l Hls) as (i & j & Hi & Hj & Hil & Hjl).
  assert (Hin_es : forall k, (k < length (API.nodes s))%nat -> In k (map fst es))
    by (intros k Hk; subst es; rewrite entries_fst; apply in_seq; lia).
  assert (Hmi : is_Some (nodeMap !! i)).
  { apply Hused; [apply Hin_es, Hil|]. apply usedNodeIndices_spec.
    exists l. auto. }
  assert (Hmj : is_Some (nodeMap !! j)).
  { apply Hused; [apply Hin_es, Hjl|]. apply usedNodeIndices_spec.
    exists l. auto. }
  destruct Hmi as [i' Hi'], Hmj as [j' Hj'].
  exists (API.Link (Some i') (Some j') (API.value l) (API.link_count l)
                   (API.link_vendor l) (API.link_agency l) (API.link_contracts l)).
  split.
  - apply filter_In. split; [|reflexivity]. apply in_map_iff.
    exists l. split; [|exact Hl]. rewrite Hi, Hj. cbn. rewrite Hi', Hj'.
    reflexivity.
  - cbn. destruct Hend as [Hend|Hend]; rewrite Hend in *.
    + left. injection Hi as <-. congruence.
    + right. injection Hj as <-. congruence.
Qed.

Lemma lookup_length {A} (l : list A) (i : nat) (x : A) :
  l !! i = Some x -> (i < length l)%nat.
Proof. apply lookup_lt_Some. Qed.

Lemma sankey_nodes_length `{Locale} (data : list record) (sortBy : string) :
  length (API.nodes (API.aggregateForSankey data sortBy))
  = (length (vendors_of data sortBy) + length (agencies_of data sortBy))%nat.
Proof.
  rewrite aggregateForSankey_eq. cbn [API.nodes]. unfold nodes_for.
  rewrite length_app, !length_map. reflexivity.
Qed.

(** C6: whatever the records and the sort key, the graph that [render]
    hands to the layout has at most 100 edges, and each of its nodes is
    the source or the target of one of these edges. *)
Theorem graph_window `{Locale} (data : list record) (sortBy : string) :
  let g := SankeyChart.window 100 (API.aggregateForSankey data sortBy) in
  (SankeyChart.render data sortBy = None \/ SankeyChart.render data sortBy = Some g)
  /\ (length (SankeyChart.filteredLinks g) <= 100)%nat
  /\ forall p, In p (SankeyChart.filteredNodes g) ->
       exists l, In l (SankeyChart.filteredLinks g)
                 /\ (API.source l = Some (SankeyChart.index p)
                     \/ API.target l = Some (SankeyChart.index p)).
Proof.
  intros g. split; [|split].
  - unfold SankeyChart.render. fold g.
    destruct (length data =? 0)%nat; [auto|].
    destruct (_ || _); [auto|]. destruct (_ || _); auto.
  - apply window_links_length.
  - apply window_nodes_used. intros l Hl.
    apply sankey_endpoints in Hl
      as (b & i & j & _ & _ & _ & _ & _ & _ & Hi & Hj & Hsrc & Htgt).
    apply lookup_length in Hi, Hj. rewrite sankey_nodes_length.
    exists i, (length (vendors_of data sortBy) + j)%nat.
    repeat split; [exact Hsrc|exact Htgt|lia|lia].
Qed.

(** ** Sorting puts in order *)

Lemma is_positive_spec (q : Q) : Js.is_positive q = true <-> 0 < q.
Proof.
  unfold Js.is_positive, Qlt. simpl. rewrite Z.ltb_lt. lia.
Qed.

Lemma is_positive_false (q : Q) : Js.is_positive q = false <-> q <= 0.
Proof.
  unfold Js.is_positive, Qle. simpl. rewrite Z.ltb_ge. lia.
Qed.

Section SortSorted.

Context {A : Type} (cmp : A -> A -> Js.number) (le : A -> A -> Prop).
Hypothesis le_trans : forall x y z, le x y -> le y z -> le x z.
Hypothesis cmp_le : forall x y, Js.is_positive (cmp x y) = false -> le x y.
Hypothesis cmp_ge : forall x y, Js.is_positive (cmp x y) = true -> le y x.

Lemma sort_insert_sorted (x : A) (l : list A) :
  StronglySorted le l -> StronglySorted le (Js.sort_insert cmp x l).
Proof.
  induction 1 as [|y l Hs IH Hall]; simpl.
  - constructor; [constructor|constructor].
  - destruct (Js.is_positive (cmp x y)) eqn:E.
    + constructor; [exact IH|].
      eapply Permutation_Forall; [symmetry; apply sort_insert_perm|].
      constructor; [apply cmp_ge, E|exact Hall].
    + constructor; [constructor; assumption|].
      constructor; [apply cmp_le, E|].
      eapply List.Forall_impl; [|exact Hall]. intros z Hz.
      eapply le_trans; [apply cmp_le, E|exact Hz].
Qed.

Lemma sort_sorted (l : list A) : StronglySorted le (Js.sort cmp l).
Proof.
  induction l as [|x l IH]; simpl; [constructor|].
  apply sort_insert_sorted, IH.
Qed.

End SortSorted.

Lemma sorted_lookup {A} (le : A -> A -> Prop) (l : list A) :
  StronglySorted le l ->
  forall i j x y, (i < j)%nat -> l !! i = Some x -> l !! j = Some y -> le x y.
Proof.
  induction 1 as [|z l Hs IH Hall]; intros i j x y Hij Hi Hj; [discriminate|].
  destruct j as [|j]; [lia|]. simpl in Hj.
  destruct i as [|i]; simpl in Hi.
  - injection Hi as <-. rewrite List.Forall_forall in Hall. apply Hall.
    apply list_elem_of_In, list_elem_of_lookup. eauto.
  - apply (IH i j); [lia|assumption|assumption].
Qed.

Lemma sorted_take_drop {A} (le : A -> A -> Prop) (l : list A) (n : nat) x y :
  StronglySorted le l -> In x (firstn n l) -> In y (skipn n l) -> le x y.
Proof.
  intros Hs Hx Hy.
  apply list_elem_of_In, list_elem_of_lookup in Hx as [i Hi].
  apply list_elem_of_In, list_elem_of_lookup in Hy as [j Hj].
  rewrite lookup_drop in Hj.
  assert (Hin : (i < n)%nat).
  { apply lookup_lt_Some in Hi. rewrite length_take in Hi. lia. }
  rewrite lookup_take_lt in Hi by exact Hin.
  apply (sorted_lookup le l Hs i (n + j)); [lia|assumption|assumption].
Qed.

(** ** The windows *)

Lemma by_value_sorted (links : list API.link) :
  StronglySorted (fun a b => API.value b <= API.value a) (by_value links).
Proof.
  apply sort_sorted.
  - intros x y z Hxy Hyz. lra.
  - intros x y Hp. apply is_positive_false in Hp. lra.
  - intros x y Hp. apply is_positive_spec in Hp. lra.
Qed.

Lemma descending_sorted (m : JsMap.t Js.number) :
  StronglySorted (fun a b : string * Js.number => snd b <= snd a)
                 (Js.sort (fun a b => -(1) * (snd a - snd b)) (JsMap.entries m)).
Proof.
  apply sort_sorted.
  - intros x y z Hxy Hyz. lra.
  - intros x y Hp. apply is_positive_false in Hp. lra.
  - intros x y Hp. apply is_positive_spec in Hp. lra.
Qed.

(** Under "amount-desc" the totals come in descending order. *)
Lemma totals_descending key (data : list record) (i j : nat) (ti tj : Js.number) :
  let totals := tally key API.amount_of data [] in
  let names := API.sort_by_number (-(1)) totals in
  (i < j)%nat ->
  map (fun n => JsMap.get n totals) names !! i = Some (Some ti) ->
  map (fun n => JsMap.get n totals) names !! j = Some (Some tj) ->
  tj <= ti.
Proof.
  intros totals names Hij. subst names. unfold API.sort_by_number.
  rewrite map_map.
  set (sorted := Js.sort (fun a b => -(1) * (snd a - snd b)) (JsMap.entries totals)).
  assert (Hget : forall e, In e sorted -> JsMap.get (fst e) totals = Some (snd e)).
  { intros [k t] He. apply sort_In in He. apply In_get_Some; [|exact He].
    subst totals. rewrite keys_tally. apply first_seen_NoDup, List.NoDup_nil. }
  rewrite !lookup_map. intros Hi Hj.
  destruct (sorted !! i) as [ei|] eqn:Ei; [|discriminate].
  destruct (sorted !! j) as [ej|] eqn:Ej; [|discriminate].
  cbn in Hi, Hj.
  rewrite Hget in Hi by (apply list_elem_of_In, list_elem_of_lookup; eauto).
  rewrite Hget in Hj by (apply list_elem_of_In, list_elem_of_lookup; eauto).
  injection Hi as <-. injection Hj as <-.
  apply (sorted_lookup _ sorted (descending_sorted totals) i j ei ej Hij Ei Ej).
Qed.

Lemma order_names (max : nat) (names : list string) (totals : list (option Js.number)) :
  map MatrixChart.name (MatrixChart.order max names totals) = firstn max names.
Proof.
  unfold MatrixChart.order, Js.slice0.
  generalize (firstn max names). intros l.
  assert (Hgen : forall (f : nat -> string -> MatrixChart.header),
             (forall i n, MatrixChart.name (f i n) = n) ->
             map MatrixChart.name (imap f l) = l).
  { induction l as [|n l IH]; intros f Hf; [reflexivity|].
    cbn [imap map]. rewrite Hf, IH; [reflexivity|].
    intros i n'. apply Hf. }
  apply Hgen. reflexivity.
Qed.

Lemma render_layout `{Locale} (data : list record) (sortBy : string) :
  MatrixChart.render data sortBy = None
  \/ MatrixChart.render data sortBy
     = Some (MatrixChart.layout 50 30 (API.aggregateForMatrix data sortBy)).
Proof.
  unfold MatrixChart.render. destruct (length data =? 0)%nat; [auto|].
  destruct (_ || _); auto.
Qed.

(** C3, as stated, fails: under "amount-asc" the matrix keeps the fifty
    vendors of lowest total; the vendor "!" of total 1 is kept and the
    vendor "S" of total 51, the highest, is dropped. *)
Lemma matrix_window_keeps_lowest :
  let m := @API.aggregateForMatrix ordinal_locale fifty_one "amount-asc" in
  exists t,
    @MatrixChart.render ordinal_locale fifty_one "amount-asc" = Some t
    /\ In (MatrixChart.Header "!" (Some 1) 0) (MatrixChart.vendorOrder t)
    /\ API.vendors m !! 50%nat = Some "S"
    /\ API.vendorTotals m !! 50%nat = Some (Some 51)
    /\ ~ In "S" (map MatrixChart.name (MatrixChart.vendorOrder t)).
Proof.
  eexists. split; [vm_compute; reflexivity|].
  split; [left; reflexivity|]. split; [vm_compute; reflexivity|].
  split; [vm_compute; reflexivity|].
  rewrite <- existsb_eqb_In. vm_compute. discriminate.
Qed.

(** C3, amended: the graph keeps at most 100 edges, the first of the edges
    in descending order of amount, so that no edge dropped has a greater
    amount than an edge kept, whatever the sort key; the matrix keeps the
    first 50 vendors and the first 30 agencies in the order of the sort
    key, and under "amount-desc" no vendor or agency dropped has a greater
    total than one kept. *)
Theorem windows_follow_order `{Locale} (data : list record) (sortBy : string) :
  let s := API.aggregateForSankey data sortBy in
  let m := API.aggregateForMatrix data sortBy in
  let t := MatrixChart.layout 50 30 m in
  SankeyChart.topLinks 100 s = firstn 100 (by_value (API.links s))
  /\ Permutation (by_value (API.links s)) (API.links s)
  /\ (length (SankeyChart.topLinks 100 s) <= 100)%nat
  /\ (forall k d, In k (SankeyChart.topLinks 100 s) ->
                  In d (skipn 100 (by_value (API.links s))) ->
                  API.value d <= API.value k)
  /\ map MatrixChart.name (MatrixChart.vendorOrder t) = firstn 50 (API.vendors m)
  /\ map MatrixChart.name (MatrixChart.agencyOrder t) = firstn 30 (API.agencies m)
  /\ (sortBy = "amount-desc" ->
      (forall i j ti tj, (i < 50)%nat -> (50 <= j)%nat ->
         API.vendorTotals m !! i = Some (Some ti) ->
         API.vendorTotals m !! j = Some (Some tj) -> tj <= ti)
      /\ (forall i j ti tj, (i < 30)%nat -> (30 <= j)%nat ->
            API.agencyTotals m !! i = Some (Some ti) ->
            API.agencyTotals m !! j = Some (Some tj) -> tj <= ti)).
Proof.
  intros s m t. split; [reflexivity|]. split; [apply sort_perm|].
  split; [apply firstn_le_length|]. split.
  { intros k d Hk Hd.
    apply (sorted_take_drop _ _ _ k d (by_value_sorted (API.links s)) Hk Hd). }
  split; [apply order_names|]. split; [apply order_names|].
  intros ->. subst m. rewrite aggregateForMatrix_eq. cbn zeta.
  cbn [API.vendorTotals API.agencyTotals]. unfold vendors_of, agencies_of, ranked.
  change (API.sort_field "amount-desc" =? "amount")%string with true.
  change (API.multiplier "amount-desc") with (-(1)). cbn iota.
  split; intros i j ti tj Hi Hj; apply totals_descending; lia.
Qed.

(** ** Totals and windows *)


Lemma order_In (max : nat) (names : list string) (f : string -> option Js.number)
  (hd : MatrixChart.header) :
  In hd (MatrixChart.order max names (map f names)) ->
  In (MatrixChart.name hd) (firstn max names)
  /\ MatrixChart.total hd = f (MatrixChart.name hd).
Proof.
  unfold MatrixChart.order, Js.slice0. intros Hin.
  apply list_elem_of_In, elem_of_lookup_imap in Hin as (i & n & -> & Hi).
  cbn. split; [apply list_elem_of_In, list_elem_of_lookup; eauto|].
  apply lookup_take_Some in Hi as [Hi _].
  rewrite lookup_map, Hi. reflexivity.
Qed.

(** X27: the total of a row or of a column of the table is the total of
    all the records of the vendor or of the agency, whatever the two
    caps. *)
Lemma row_and_column_totals `{Locale} (maxVendors maxAgencies : nat)
  (data : list record) (sortBy : string) :
  let t := MatrixChart.layout maxVendors maxAgencies
             (API.aggregateForMatrix data sortBy) in
  (forall hd, In hd (MatrixChart.vendorOrder t) ->
     exists x, MatrixChart.total hd = Some x
               /\ x == total_where API.vendor_of API.amount_of
                                   (MatrixChart.name hd) data)
  /\ (forall hd, In hd (MatrixChart.agencyOrder t) ->
        exists x, MatrixChart.total hd = Some x
                  /\ x == total_where API.agency_of API.amount_of
                                      (MatrixChart.name hd) data).
Proof.
  rewrite aggregateForMatrix_eq. cbn zeta. unfold MatrixChart.layout.
  cbn [API.vendors API.agencies API.vendorTotals API.agencyTotals
       MatrixChart.vendorOrder MatrixChart.agencyOrder].
  split; intros hd Hin; apply order_In in Hin as [Hname ->];
    apply In_firstn in Hname.
  - apply vendors_of_In in Hname as (r & Hr & Hv).
    destruct (tally_get_In API.vendor_of API.amount_of data r Hr) as [x Hx].
    rewrite Hv in Hx. exists x. split; [exact Hx|]. apply tally_get, Hx.
  - apply agencies_of_In in Hname as (r & Hr & Hv).
    destruct (tally_get_In API.agency_of API.amount_of data r Hr) as [x Hx].
    rewrite Hv in Hx. exists x. split; [exact Hx|]. apply tally_get, Hx.
Qed.

(** *** The grand total without the window *)









(** C4: on fifty-one records of fifty-one vendors with the amounts 1 to 51
    and no filter, a pass of [applyClientFilters] with the matrix tab
    reports 51 contracts and the total amount 1326 in the header, and the
    matrix, which shows fifty vendors, reports the grand total 1325: the
    grand total adds up the rows that the window keeps. *)
Theorem grand_total_is_windowed (L : Locale) :
  exists p h t,
    App.applyClientFilters no_filters App.matrix_tab 1%nat {[1%nat := fifty_one]}
    = Some (p, h)
    /\ App.total_contracts p = 51%nat
    /\ App.total_amount p = 1326
    /\ App.rendered p = App.MatrixView (Some t)
    /\ length (MatrixChart.vendorOrder t) = 50%nat
    /\ MatrixChart.grandTotal t = Some 1325.
Proof.
  eexists _, _, _. split; [vm_compute; reflexivity|].
  repeat split; reflexivity.
Qed.

(** ** Normalization *)

(** C8, as stated, fails: a row whose amount reads "-5" is normalized to the
    amount -5. *)
Lemma negative_amount_is_kept :
  map contract_amount (API.processData [negative_row]) = [Some (-5 # 1)]
  /\ (-5 # 1) < 0.
Proof. split; reflexivity. Qed.

Lemma or_number_parse (x : option Js.number) :
  match x with
  | None => Js.or_number x 0 = 0
  | Some q => Js.or_number x 0 == q
  end.
Proof. destruct x as [q|]; [apply or_number_Some|reflexivity]. Qed.

Lemma or_string_falsy (x : option string) (d : string) :
  Js.truthy x = false -> Js.or_string x d = d.
Proof. destruct x as [[|c s]|]; [reflexivity|discriminate|reflexivity]. Qed.

(** C8, amended: normalization is total; an amount that is missing or that
    [parseFloat] cannot read becomes 0, and an amount that it reads is kept
    with its value, whatever its sign; the names are left as they are, and
    in the aggregation a record without a vendor name counts as "Unknown
    Vendor" and one without an agency name as "Unknown Agency": it is in
    the bucket of that key, and the totals of both projections under that
    label are the sum over all the records of that label. *)
Theorem normalization_defaults `{Locale} :
  (forall rows : list raw_row,
      length (API.processData rows) = length rows
      /\ forall i row, rows !! i = Some row ->
           exists r, API.processData rows !! i = Some r
             /\ vendor_name r = raw_vendor_name row
             /\ agency_name r = raw_agency_name row
             /\ match Js.parseFloat (raw_contract_amount row) with
                | None => contract_amount r = Some 0
                | Some q => exists q', contract_amount r = Some q' /\ q' == q
                end)
  /\ Js.parseFloat None = None
  /\ (forall r, (Js.truthy (vendor_name r) = false ->
                 API.vendor_of r = "Unknown Vendor")
                /\ (Js.truthy (agency_name r) = false ->
                    API.agency_of r = "Unknown Agency"))
  /\ forall (data : list record) (sortBy : string) (r : record),
       In r data ->
       let s := API.aggregateForSankey data sortBy in
       let m := API.aggregateForMatrix data sortBy in
       (exists l, In l (API.links s) /\ In r (API.link_contracts l)
                  /\ API.pair_key (API.link_vendor l) (API.link_agency l)
                     = API.pair_key (API.vendor_of r) (API.agency_of r))
       /\ (exists i x, API.vendors m !! i = Some (API.vendor_of r)
                       /\ API.vendorTotals m !! i = Some (Some x)
                       /\ x == total_where API.vendor_of API.amount_of
                                           (API.vendor_of r) data)
       /\ (exists j x, API.agencies m !! j = Some (API.agency_of r)
                       /\ API.agencyTotals m !! j = Some (Some x)
                       /\ x == total_where API.agency_of API.amount_of
                                           (API.agency_of r) data)
       /\ names_of API.vendor_node (API.nodes s) = API.vendors m
       /\ totals_of API.vendor_node (API.nodes s) = API.vendorTotals m
       /\ names_of API.agency_node (API.nodes s) = API.agencies m
       /\ totals_of API.agency_node (API.nodes s) = API.agencyTotals m.
Proof.
  split; [|split; [reflexivity|split]].
  - intros rows. unfold API.processData. split; [apply length_map|].
    intros i row Hi. rewrite lookup_map, Hi. eexists. split; [reflexivity|].
    cbn. split; [reflexivity|]. split; [reflexivity|].
    pose proof (or_number_parse (Js.parseFloat (raw_contract_amount row))) as Hp.
    destruct (Js.parseFloat (raw_contract_amount row)) as [q|].
    + eexists. split; [reflexivity|exact Hp].
    + rewrite Hp. reflexivity.
  - intros r. split; apply or_string_falsy.
  - intros data sortBy r Hr s m.
    destruct (projections_agree data sortBy) as (Hv & Ha & Hvt & Hat & _).
    fold s m in Hv, Ha, Hvt, Hat.
    split; [|split; [|split; [|repeat split; assumption]]].
    + destruct (buckets_has data r Hr) as (b & Hb & Hc).
      destruct (buckets_inv data _ b Hb) as (Hk & _ & _).
      exists (API.Link
                (JsMap.get ("vendor:" +:+ API.vendor b)
                   (index_for "agency:" (length (vendors_of data sortBy))
                      (agencies_of data sortBy)
                      (index_for "vendor:" 0 (vendors_of data sortBy) [])))
                (JsMap.get ("agency:" +:+ API.agency b)
                   (index_for "agency:" (length (vendors_of data sortBy))
                      (agencies_of data sortBy)
                      (index_for "vendor:" 0 (vendors_of data sortBy) [])))
                (API.amount b) (API.count b) (API.vendor b) (API.agency b)
                (API.contracts b)).
      split; [|split; [exact Hc|symmetry; exact Hk]].
      subst s. rewrite aggregateForSankey_eq. cbn [API.links].
      apply in_map_iff. exists b. split; [reflexivity|].
      apply values_In; [apply buckets_NoDup|eauto].
    + subst m. rewrite aggregateForMatrix_eq. cbn zeta.
      cbn [API.vendors API.vendorTotals].
      assert (Hin : In (API.vendor_of r) (vendors_of data sortBy))
        by (apply vendors_of_In; eauto).
      apply In_lookup in Hin as [i Hi].
      destruct (tally_get_In API.vendor_of API.amount_of data r Hr) as [x Hx].
      exists i, x. split; [exact Hi|]. rewrite lookup_map, Hi. cbn.
      split; [rewrite Hx; reflexivity|apply tally_get, Hx].
    + subst m. rewrite aggregateForMatrix_eq. cbn zeta.
      cbn [API.agencies API.agencyTotals].
      assert (Hin : In (API.agency_of r) (agencies_of data sortBy))
        by (apply agencies_of_In; eauto).
      apply In_lookup in Hin as [j Hj].
      destruct (tally_get_In API.agency_of API.amount_of data r Hr) as [x Hx].
      exists j, x. split; [exact Hj|]. rewrite lookup_map, Hj. cbn.
      split; [rewrite Hx; reflexivity|apply tally_get, Hx].
Qed.

(** * Further properties *)

(** ** Pagination: what [fetchAll] returns *)

Section PaginationResults.

Variable fetchPage : Z -> API.response.

(** Full pages, answered one after the other from round [k] on, are all
    kept and the loop goes on behind them. *)
Lemma fetchAll_loop_full_pages (pages : list (list raw_row)) :
  forall (fuel : nat) (k : Z) (allData : list raw_row),
    (0 <= k)%Z ->
    (k + Z.of_nat (length pages) <= 10)%Z ->
    (forall i p, pages !! i = Some p ->
                 fetchPage (10000 * (k + Z.of_nat i))%Z = API.Rows p
                 /\ Z.of_nat (length p) = 10000%Z) ->
    API.fetchAll_loop fetchPage (length pages + fuel) allData (10000 * k)%Z
    = API.fetchAll_loop fetchPage fuel (allData ++ concat pages)
        (10000 * (k + Z.of_nat (length pages)))%Z.
Proof.
  induction pages as [|p pages IH]; intros fuel k allData Hk Hlen Hpages.
  - cbn [length concat]. rewrite app_nil_r, Z.add_0_r. reflexivity.
  - destruct (Hpages 0%nat p eq_refl) as [Hp Hl].
    rewrite Z.add_0_r in Hp. cbn [length] in *.
    change (S (length pages) + fuel)%nat with (S (length pages + fuel)).
    cbn [API.fetchAll_loop]. rewrite Hp.
    destruct (Nat.eqb_spec (length p) 0); [lia|].
    unfold API.PAGE_SIZE. rewrite Hl. change (10000 <? 10000)%Z with false.
    destruct (Z.gtb_spec (10000 * k + 10000) 100000); [lia|].
    replace (10000 * k + 10000)%Z with (10000 * (k + 1))%Z by lia.
    rewrite IH; [|lia|lia|].
    + cbn [concat]. rewrite <- app_assoc. f_equal. lia.
    + intros i q Hq. specialize (Hpages (S i) q Hq).
      replace (k + 1 + Z.of_nat i)%Z with (k + Z.of_nat (S i))%Z by lia.
      exact Hpages.
Qed.

(** X3: when the data source answers with at most ten full pages of 10,000
    rows and then with a shorter page (an empty one included), [fetchAll]
    returns the rows of all these pages, normalized, in the order of the
    pages, none lost and none twice. *)
Theorem fetchAll_concatenates (pages : list (list raw_row)) (last : list raw_row)
  (fuel : nat) :
  (Z.of_nat (length pages) <= 10)%Z ->
  (forall i p, pages !! i = Some p ->
               fetchPage (10000 * Z.of_nat i)%Z = API.Rows p
               /\ Z.of_nat (length p) = 10000%Z) ->
  fetchPage (10000 * Z.of_nat (length pages))%Z = API.Rows last ->
  (Z.of_nat (length last) < 10000)%Z ->
  (11 <= fuel)%nat ->
  API.fetchAll fetchPage fuel
  = Some (API.Returned (API.processData (concat pages ++ last))).
Proof.
  intros Hlen Hpages Hlast Hshort Hfuel. unfold API.fetchAll.
  replace fuel with (length pages + S (fuel - length pages - 1))%nat by lia.
  change 0%Z with (10000 * 0)%Z.
  rewrite fetchAll_loop_full_pages; [|lia|lia|exact Hpages].
  cbn [API.fetchAll_loop app]. rewrite Z.add_0_l, Hlast.
  destruct (Nat.eqb_spec (length last) 0) as [Hz|Hnz].
  - destruct last; [|discriminate]. rewrite app_nil_r. reflexivity.
  - unfold API.PAGE_SIZE.
    destruct (Z.ltb_spec (Z.of_nat (length last)) 10000); [|lia].
    repeat match goal with
           | |- context [Z.gtb ?a ?b] => destruct (Z.gtb a b)
           end; reflexivity.
Qed.

(** X4: when a request fails, after any number of full pages, [fetchAll]
    fails with the status of that request and returns none of the rows it
    had fetched. *)
Theorem fetchAll_keeps_nothing_on_error (pages : list (list raw_row)) (status : Z)
  (fuel : nat) :
  (Z.of_nat (length pages) <= 10)%Z ->
  (forall i p, pages !! i = Some p ->
               fetchPage (10000 * Z.of_nat i)%Z = API.Rows p
               /\ Z.of_nat (length p) = 10000%Z) ->
  fetchPage (10000 * Z.of_nat (length pages))%Z = API.HttpError status ->
  (11 <= fuel)%nat ->
  API.fetchAll fetchPage fuel = Some (API.Thrown status).
Proof.
  intros Hlen Hpages Hlast Hfuel. unfold API.fetchAll.
  replace fuel with (length pages + S (fuel - length pages - 1))%nat by lia.
  change 0%Z with (10000 * 0)%Z.
  rewrite fetchAll_loop_full_pages; [|lia|lia|exact Hpages].
  cbn [API.fetchAll_loop app]. rewrite Z.add_0_l, Hlast. reflexivity.
Qed.

End PaginationResults.

(** ** The graph and the matrix *)

(** What a bucket holds: the records of its key in the order of the input,
    their number and the sum of their amounts; its vendor and agency are
    those of the first of these records. *)
Lemma buckets_contents (data : list record) (k : string) (b : API.bucket) :
  JsMap.get k (buckets data) = Some b ->
  API.contracts b = records_of k data
  /\ API.count b == number_of (API.contracts b)
  /\ API.amount b == sum (map API.amount_of (API.contracts b))
  /\ exists c, head (API.contracts b) = Some c
               /\ API.vendor_of c = API.vendor b
               /\ API.agency_of c = API.agency b.
Proof.
  revert b. induction data as [|r data IH] using rev_ind; intros b; [discriminate|].
  rewrite buckets_snoc, bucket_step_get. unfold records_of in *.
  rewrite List.filter_app. cbn [List.filter].
  destruct (String.eqb_spec (key_of r) k) as [<-|Hne].
  - intros [= <-].
    destruct (JsMap.get (key_of r) (buckets data)) as [b0|] eqn:E; cbn [default].
    + destruct (IH b0 eq_refl) as (Hc & Hn & Ha & c & Hhd & Hv & Hag).
      cbn [API.contracts API.count API.amount API.vendor API.agency add_record].
      rewrite <- Hc. split; [reflexivity|]. split; [|split].
      * rewrite Hn. unfold number_of. rewrite length_app, Nat.add_1_r.
        rewrite Nat2Z.inj_succ, <- Z.add_1_r, inject_Z_plus. reflexivity.
      * rewrite map_app. cbn [map]. rewrite sum_snoc, Ha. reflexivity.
      * exists c. unfold id. destruct (API.contracts b0); [discriminate|]. auto.
    + assert (Hnone : List.filter (fun r0 => String.eqb (key_of r0) (key_of r)) data = []).
      { destruct (List.filter _ data) as [|r' l'] eqn:F; [reflexivity|].
        assert (Hin : In r' (List.filter (fun r0 => String.eqb (key_of r0) (key_of r)) data))
          by (rewrite F; left; reflexivity).
        apply filter_In in Hin as [Hin Hk]. apply String.eqb_eq in Hk.
        destruct (buckets_has data r' Hin) as (b' & Hb' & _).
        rewrite Hk in Hb'. congruence. }
      rewrite Hnone.
      cbn [API.contracts API.count API.amount API.vendor API.agency add_record new_bucket app].
      split; [reflexivity|]. split; [unfold number_of; cbn; ring|].
      split; [unfold sum; cbn; ring|]. exists r. auto.
  - rewrite app_nil_r. apply IH.
Qed.

(** X5: every edge of the graph holds exactly the records of its key, in
    the order of the input; its count is their number and its value the sum
    of their amounts; and the sample contract of the link tooltip exists: it
    is the first record of the input under that key, and the vendor and the
    agency of the edge are its own. *)
Theorem edge_is_its_records `{Locale} (data : list record) (sortBy : string) :
  Forall (fun l =>
            API.link_contracts l
            = records_of (API.pair_key (API.link_vendor l) (API.link_agency l)) data
            /\ API.link_count l == number_of (API.link_contracts l)
            /\ API.value l == sum (map API.amount_of (API.link_contracts l))
            /\ exists c, SankeyChart.sampleContract l = Some c
                         /\ API.vendor_of c = API.link_vendor l
                         /\ API.agency_of c = API.link_agency l)
         (API.links (API.aggregateForSankey data sortBy)).
Proof.
  apply List.Forall_forall. intros l Hl.
  apply sankey_endpoints in Hl
    as (b & i & j & Hb & Hv & Ha & Hval & Hcnt & Hcon & _).
  destruct (buckets_contents data _ b Hb) as (Hc & Hn & Hs & c & Hhd & Hcv & Hca).
  unfold SankeyChart.sampleContract. rewrite Hcon, Hval, Hcnt, <- Hv, <- Ha.
  repeat split; try assumption.
  - rewrite Hv, Ha. exact Hc.
  - exists c. auto.
Qed.

(** X6: the nodes of the graph are the vendors followed by the agencies;
    on each side no name comes twice, and the names are those that the
    records have on that side, "Unknown Vendor" or "Unknown Agency" standing
    for a missing name; the total of a node is the sum of the amounts of the
    records of its name. *)
Theorem nodes_are_the_entities `{Locale} (data : list record) (sortBy : string) :
  let s := API.aggregateForSankey data sortBy in
  map API.type (API.nodes s)
  = repeat API.vendor_node (length (names_of API.vendor_node (API.nodes s)))
    ++ repeat API.agency_node (length (names_of API.agency_node (API.nodes s)))
  /\ (forall ty,
         List.NoDup (names_of ty (API.nodes s))
         /\ forall n, In n (names_of ty (API.nodes s))
                      <-> exists r, In r data /\ side ty r = n)
  /\ Forall (fun n => exists x, API.total n = Some x
                                /\ x == amount_of_entity (side (API.type n)) data
                                                         (API.name n))
            (API.nodes s).
Proof.
  intros s. subst s. rewrite aggregateForSankey_eq. cbn zeta. cbn [API.nodes].
  assert (Hn : forall ty, names_of ty
                 (nodes_for API.vendor_node "vendor:"
                    (tally API.vendor_of API.amount_of data []) (vendors_of data sortBy)
                  ++ nodes_for API.agency_node "agency:"
                       (tally API.agency_of API.amount_of data [])
                       (agencies_of data sortBy))
               = match ty with
                 | API.vendor_node => vendors_of data sortBy
                 | API.agency_node => agencies_of data sortBy
                 end).
  { intros ty. unfold names_of. rewrite List.filter_app, !filter_nodes_for.
    destruct ty; cbn [is_type API.type app]; rewrite ?app_nil_r;
      unfold nodes_for; rewrite map_map; apply map_id. }
  split; [|split].
  - rewrite !Hn, map_app. unfold nodes_for. rewrite !map_map. cbn [API.type].
    f_equal.
    + generalize (vendors_of data sortBy). intros l.
      induction l as [|x l IH]; [reflexivity|]. cbn. rewrite IH. reflexivity.
    + generalize (agencies_of data sortBy). intros l.
      induction l as [|x l IH]; [reflexivity|]. cbn. rewrite IH. reflexivity.
  - intros ty. rewrite Hn. destruct ty; cbn [side].
    + split; [apply vendors_of_NoDup|intros n; apply vendors_of_In].
    + split; [apply agencies_of_NoDup|intros n; apply agencies_of_In].
  - apply List.Forall_app. unfold nodes_for.
    split; apply List.Forall_forall; intros n Hin;
      apply in_map_iff in Hin as (v & <- & Hv); cbn [API.total API.type API.name side].
    + apply vendors_of_In in Hv as (r & Hr & <-).
      destruct (tally_get_In API.vendor_of API.amount_of data r Hr) as [x Hx].
      exists x. split; [exact Hx|]. apply tally_get, Hx.
    + apply agencies_of_In in Hv as (r & Hr & <-).
      destruct (tally_get_In API.agency_of API.amount_of data r Hr) as [x Hx].
      exists x. split; [exact Hx|]. apply tally_get, Hx.
Qed.

(** X7: whatever the records and the sort key, the graph and the matrix have
    the same vendors and the same agencies in the same order, with the same
    totals, and every edge of the graph runs from the node of its vendor to
    the node of its agency and has its amount and its count in the cell of
    the matrix at the row of its vendor and the column of its agency. *)
Theorem graph_and_matrix_agree `{Locale} (data : list record) (sortBy : string) :
  let s := API.aggregateForSankey data sortBy in
  let m := API.aggregateForMatrix data sortBy in
  names_of API.vendor_node (API.nodes s) = API.vendors m
  /\ names_of API.agency_node (API.nodes s) = API.agencies m
  /\ totals_of API.vendor_node (API.nodes s) = API.vendorTotals m
  /\ totals_of API.agency_node (API.nodes s) = API.agencyTotals m
  /\ Forall (fun l =>
               exists i j,
                 API.source l = Some i
                 /\ API.target l = Some (length (API.vendors m) + j)%nat
                 /\ API.vendors m !! i = Some (API.link_vendor l)
                 /\ API.agencies m !! j = Some (API.link_agency l)
                 /\ API.matrix m !! i ≫= (.!! j)
                    = Some (API.Cell (API.value l) (API.link_count l)))
            (API.links s).
Proof.
  intros s m. destruct (projections_agree data sortBy) as (Hv & Ha & Hvt & Hat & Hl).
  repeat split; try assumption. apply List.Forall_forall. exact Hl.
Qed.

(** ** The graph handed to the layout *)

Lemma In_entries {A} (l : list A) (start k : nat) (x : A) :
  In (k, x) (combine (seq start (length l)) l) ->
  (start <= k)%nat /\ l !! (k - start)%nat = Some x.
Proof.
  revert start. induction l as [|y l IH]; intros start; [intros []|].
  simpl. intros [[= <- <-]|Hin].
  - split; [lia|]. rewrite Nat.sub_diag. reflexivity.
  - apply IH in Hin as [Hle Hl]. split; [lia|].
    replace (k - start)%nat with (S (k - S start)) by lia. exact Hl.
Qed.

Lemma filter_all {A} (f : A -> bool) (l : list A) :
  (forall x, In x l -> f x = true) -> List.filter f l = l.
Proof.
  induction l as [|x l IH]; intros Hall; [reflexivity|]. cbn [List.filter].
  rewrite (Hall x) by (left; reflexivity). f_equal.
  apply IH. intros y Hy. apply Hall. right. exact Hy.
Qed.

(** Where [forEach] puts the nodes it keeps: the node with old index [old]
    is at the position that [nodeMap] gives to [old], and every kept node
    carries its position as its index. *)
Lemma keep_node_positions (used : gset (option nat)) (es : list (nat * API.node)) :
  List.NoDup (map fst es) ->
  let st := fold_left (SankeyChart.keep_node used) es (∅, []) in
  (forall old new, fst st !! old = Some new ->
     In old (map fst es)
     /\ exists node, In (old, node) es
                     /\ snd st !! new = Some (SankeyChart.Placed node new))
  /\ (forall new p, snd st !! new = Some p ->
        SankeyChart.index p = new
        /\ exists old, In (old, SankeyChart.placed p) es).
Proof.
  induction es as [|[o x] es IH] using rev_ind; intros Hnd; cbn zeta.
  - simpl. split.
    + intros old new Hl. rewrite lookup_empty in Hl. discriminate.
    + intros new p Hl. discriminate.
  - rewrite map_app in Hnd. cbn [map fst] in Hnd.
    apply NoDup_ListNoDup, NoDup_app in Hnd as (Hnd & Hfresh & _).
    apply NoDup_ListNoDup in Hnd. specialize (IH Hnd). cbn zeta in IH.
    assert (Ho : ~ In o (map fst es)).
    { intros Hin. apply list_elem_of_In in Hin. apply (Hfresh o Hin).
      apply list_elem_of_singleton. reflexivity. }
    rewrite fold_left_app. cbn [fold_left].
    destruct (fold_left (SankeyChart.keep_node used) es (∅, [])) as [nm kept].
    cbn [fst snd] in IH. destruct IH as [Hmap Hkept].
    unfold SankeyChart.keep_node.
    destruct (bool_decide (Some o ∈ used)); cbn [fst snd].
    + split.
      * intros old new Hl. destruct (decide (o = old)) as [<-|Hne].
        -- rewrite lookup_insert_eq in Hl. injection Hl as <-.
           split; [rewrite map_app; apply in_or_app; simpl; auto|].
           exists x. split; [apply in_or_app; simpl; auto|].
           apply list_lookup_middle. reflexivity.
        -- rewrite lookup_insert_ne in Hl by exact Hne.
           apply Hmap in Hl as (Hin & node & Hn & Hk).
           split; [rewrite map_app; apply in_or_app; auto|].
           exists node. split; [apply in_or_app; auto|].
           apply lookup_app_l_Some. exact Hk.
      * intros new p Hl. apply lookup_app_Some in Hl as [Hl|[Hge Hl]].
        -- apply Hkept in Hl as (Hi & old & Hin).
           split; [exact Hi|]. exists old. apply in_or_app. auto.
        -- destruct (new - length kept)%nat as [|d] eqn:Hd; [|destruct d; discriminate].
           injection Hl as <-. cbn. split; [lia|].
           exists o. apply in_or_app. simpl. auto.
    + split.
      * intros old new Hl. apply Hmap in Hl as (Hin & node & Hn & Hk).
        split; [rewrite map_app; apply in_or_app; auto|].
        exists node. split; [apply in_or_app; auto|exact Hk].
      * intros new p Hl. apply Hkept in Hl as (Hi & old & Hin).
        split; [exact Hi|]. exists old. apply in_or_app. auto.
Qed.

(** When every edge has its two ends among the nodes, the window loses no
    edge by renumbering, every node it keeps carries its position as its
    index, and every edge it keeps points at the positions of the nodes it
    joined before. *)
Lemma window_well_formed (maxLinks : nat) (s : API.sankey) :
  (forall l, In l (API.links s) ->
             exists i j, API.source l = Some i /\ API.target l = Some j
                         /\ (i < length (API.nodes s))%nat
                         /\ (j < length (API.nodes s))%nat) ->
  let g := SankeyChart.window maxLinks s in
  (forall new p, SankeyChart.filteredNodes g !! new = Some p ->
     SankeyChart.index p = new /\ In (SankeyChart.placed p) (API.nodes s))
  /\ map API.value (SankeyChart.filteredLinks g)
     = map API.value (SankeyChart.topLinks maxLinks s)
  /\ (forall l', In l' (SankeyChart.filteredLinks g) ->
        exists l i j i' j' n m,
          In l (API.links s)
          /\ API.source l = Some i /\ API.target l = Some j
          /\ API.nodes s !! i = Some n /\ API.nodes s !! j = Some m
          /\ API.source l' = Some i' /\ API.target l' = Some j'
          /\ SankeyChart.filteredNodes g !! i' = Some (SankeyChart.Placed n i')
          /\ SankeyChart.filteredNodes g !! j' = Some (SankeyChart.Placed m j')
          /\ API.value l' = API.value l
          /\ API.link_count l' = API.link_count l
          /\ API.link_vendor l' = API.link_vendor l
          /\ API.link_agency l' = API.link_agency l
          /\ API.link_contracts l' = API.link_contracts l).
Proof.
  intros Hends. cbn zeta. unfold SankeyChart.window.
  set (top := SankeyChart.topLinks maxLinks s).
  set (used := SankeyChart.usedNodeIndices top).
  set (es := combine (seq 0 (length (API.nodes s))) (API.nodes s)).
  assert (Hnd : List.NoDup (map fst es))
    by (subst es; rewrite entries_fst; apply List.seq_NoDup).
  pose proof (keep_node_renumbered used es Hnd) as Hren.
  pose proof (keep_node_positions used es Hnd) as Hpos. cbn zeta in Hpos.
  destruct (fold_left (SankeyChart.keep_node used) es (∅, [])) as [nodeMap kept].
  cbn [fst snd] in Hren, Hpos. destruct Hren as [_ Hused _].
  destruct Hpos as [Hmap Hkept].
  cbn [SankeyChart.filteredNodes SankeyChart.filteredLinks].
  assert (Hes : forall k x, In (k, x) es -> API.nodes s !! k = Some x).
  { intros k x Hin. subst es. apply In_entries in Hin as [_ Hl].
    rewrite Nat.sub_0_r in Hl. exact Hl. }
  assert (Htop : forall l, In l top -> In l (API.links s)).
  { intros l Hl. subst top. unfold SankeyChart.topLinks, Js.slice0 in Hl.
    apply In_firstn in Hl. apply sort_In in Hl. exact Hl. }
  assert (Hin_es : forall k, (k < length (API.nodes s))%nat -> In k (map fst es))
    by (intros k Hk; subst es; rewrite entries_fst; apply in_seq; lia).
  assert (Hboth : forall l, In l top ->
            exists i j i' j', API.source l = Some i /\ API.target l = Some j
                              /\ nodeMap !! i = Some i' /\ nodeMap !! j = Some j').
  { intros l Hl. destruct (Hends l (Htop l Hl)) as (i & j & Hi & Hj & Hil & Hjl).
    assert (Hmi : is_Some (nodeMap !! i)).
    { apply Hused; [apply Hin_es, Hil|]. apply usedNodeIndices_spec.
      exists l. auto. }
    assert (Hmj : is_Some (nodeMap !! j)).
    { apply Hused; [apply Hin_es, Hjl|]. apply usedNodeIndices_spec.
      exists l. auto. }
    destruct Hmi as [i' Hi'], Hmj as [j' Hj']. exists i, j, i', j'. auto. }
  split; [|split].
  - intros new p Hl. apply Hkept in Hl as (Hi & old & Hin).
    split; [exact Hi|]. apply Hes in Hin.
    apply list_elem_of_In, list_elem_of_lookup. eauto.
  - rewrite filter_all; [rewrite map_map; reflexivity|]. intros l' Hl'.
    apply in_map_iff in Hl' as (l & <- & Hl).
    destruct (Hboth l Hl) as (i & j & i' & j' & Hi & Hj & Hi' & Hj').
    cbn. rewrite Hi, Hj. cbn. rewrite Hi', Hj'. reflexivity.
  - intros l' Hl'. apply filter_In in Hl' as [Hl' _].
    apply in_map_iff in Hl' as (l & <- & Hl).
    destruct (Hboth l Hl) as (i & j & i' & j' & Hi & Hj & Hi' & Hj').
    destruct (Hmap i i' Hi') as (_ & n & Hn & Hkn).
    destruct (Hmap j j' Hj') as (_ & m & Hm & Hkm).
    exists l, i, j, i', j', n, m. cbn. rewrite Hi, Hj. cbn.
    repeat split; auto.
Qed.

Lemma sankey_ends_in_range `{Locale} (data : list record) (sortBy : string) :
  let s := API.aggregateForSankey data sortBy in
  forall l, In l (API.links s) ->
            exists i j, API.source l = Some i /\ API.target l = Some j
                        /\ (i < length (API.nodes s))%nat
                        /\ (j < length (API.nodes s))%nat.
Proof.
  intros s l Hl. subst s.
  apply sankey_endpoints in Hl
    as (b & i & j & _ & _ & _ & _ & _ & _ & Hi & Hj & Hsrc & Htgt).
  apply lookup_length in Hi, Hj. rewrite sankey_nodes_length.
  exists i, (length (vendors_of data sortBy) + j)%nat.
  repeat split; [exact Hsrc|exact Htgt|lia|lia].
Qed.

(** X8: whatever the records and the sort key, the graph that [render]
    builds for the layout is well formed: every node carries its position
    in the node list as its index and is a node of the aggregated graph;
    renumbering drops none of the at most 100 edges of highest value; and
    the source of every edge is the position of the vendor node of the
    vendor of the edge, its target the position of the agency node of its
    agency. *)
Theorem layout_graph_well_formed `{Locale} (data : list record) (sortBy : string) :
  let s := API.aggregateForSankey data sortBy in
  let g := SankeyChart.window 100 s in
  (forall i p, SankeyChart.filteredNodes g !! i = Some p ->
     SankeyChart.index p = i /\ In (SankeyChart.placed p) (API.nodes s))
  /\ map API.value (SankeyChart.filteredLinks g)
     = map API.value (SankeyChart.topLinks 100 s)
  /\ Forall (fun l =>
               exists i j n m,
                 API.source l = Some i /\ API.target l = Some j
                 /\ SankeyChart.filteredNodes g !! i = Some (SankeyChart.Placed n i)
                 /\ SankeyChart.filteredNodes g !! j = Some (SankeyChart.Placed m j)
                 /\ API.type n = API.vendor_node /\ API.name n = API.link_vendor l
                 /\ API.type m = API.agency_node /\ API.name m = API.link_agency l)
            (SankeyChart.filteredLinks g).
Proof.
  intros s g.
  destruct (window_well_formed 100 s (sankey_ends_in_range data sortBy))
    as (Hnodes & Hvalues & Hlinks).
  split; [exact Hnodes|]. split; [exact Hvalues|].
  apply List.Forall_forall. intros l' Hl'.
  destruct (Hlinks l' Hl')
    as (l & i & j & i' & j' & n & m & Hl & Hi & Hj & Hn & Hm & Hi' & Hj' & Hpn & Hpm
        & _ & _ & Hv & Ha & _).
  exists i', j', n, m. fold g. repeat split; try assumption.
  all: apply sankey_endpoints in Hl
      as (b & vi & aj & _ & _ & _ & _ & _ & _ & Hvi & Haj & Hsrc & Htgt).
  all: rewrite Hsrc in Hi; rewrite Htgt in Hj; injection Hi as <-; injection Hj as <-.
  all: subst s; rewrite aggregateForSankey_eq in Hn, Hm; cbn zeta in Hn, Hm;
    cbn [API.nodes] in Hn, Hm; unfold nodes_for in Hn, Hm.
  all: rewrite lookup_app_l in Hn by (rewrite length_map; eapply lookup_length, Hvi).
  all: rewrite lookup_app_r in Hm by (rewrite length_map; lia).
  all: rewrite length_map in Hm.
  all: replace (length (vendors_of data sortBy) + aj - length (vendors_of data sortBy))%nat
         with aj in Hm by lia.
  all: rewrite lookup_map, Hvi in Hn; rewrite lookup_map, Haj in Hm.
  all: injection Hn as <-; injection Hm as <-; cbn; congruence.
Qed.

Lemma buckets_nonempty (data : list record) :
  data <> [] -> JsMap.values (buckets data) <> [].
Proof.
  destruct data as [|r data]; [congruence|]. intros _ Hnil.
  destruct (buckets_has (r :: data) r (or_introl eq_refl)) as (b & Hb & _).
  assert (Hin : In b (JsMap.values (buckets (r :: data))))
    by (apply values_In; [apply buckets_NoDup|eauto]).
  rewrite Hnil in Hin. destruct Hin.
Qed.

(** X9: the two views show the empty state exactly when there are no
    records: for any non-empty array of records, [SankeyChart.render] hands
    a graph with at least one edge and one node to the layout, and
    [MatrixChart.render] builds a table with at least one row and one
    column. *)
Theorem empty_state_only_without_records `{Locale} (data : list record)
  (sortBy : string) :
  (SankeyChart.render data sortBy = None <-> data = [])
  /\ (MatrixChart.render data sortBy = None <-> data = []).
Proof.
  split; (split; [|intros ->; reflexivity]).
  - destruct data as [|r data]; [reflexivity|]. intros Hnone. exfalso.
    assert (Hne : r :: data <> []) by discriminate.
    set (s := API.aggregateForSankey (r :: data) sortBy) in *.
    destruct (window_well_formed 100 s (sankey_ends_in_range (r :: data) sortBy))
      as (_ & Hvalues & Hlinks).
    assert (Hls : API.links s <> []).
    { subst s. rewrite aggregateForSankey_eq. cbn [API.links].
      intros Hnil. apply map_eq_nil in Hnil.
      exact (buckets_nonempty (r :: data) Hne Hnil). }
    assert (Hfl : SankeyChart.filteredLinks (SankeyChart.window 100 s) <> []).
    { intros Hnil. rewrite Hnil in Hvalues. symmetry in Hvalues.
      apply map_eq_nil in Hvalues. unfold SankeyChart.topLinks, Js.slice0 in Hvalues.
      apply (f_equal (@length _)) in Hvalues. rewrite length_take, sort_length in Hvalues.
      destruct (API.links s); [congruence|]. simpl in Hvalues. lia. }
    assert (Hfn : SankeyChart.filteredNodes (SankeyChart.window 100 s) <> []).
    { destruct (SankeyChart.filteredLinks (SankeyChart.window 100 s)) as [|l' ls] eqn:E;
        [congruence|].
      destruct (Hlinks l' (or_introl eq_refl))
        as (l & i & j & i' & j' & n & m & _ & _ & _ & _ & _ & _ & _ & Hpn & _).
      intros Hnil. rewrite Hnil in Hpn. discriminate. }
    assert (Hns : API.nodes s <> []).
    { destruct (API.links s) as [|l ls] eqn:E; [congruence|].
      destruct (sankey_ends_in_range (r :: data) sortBy l) as (i & j & _ & _ & Hi & _).
      - fold s. rewrite E. left. reflexivity.
      - fold s in Hi. destruct (API.nodes s); [simpl in Hi; lia|discriminate]. }
    unfold SankeyChart.render in Hnone. fold s in Hnone. cbn [length Nat.eqb] in Hnone.
    destruct (API.nodes s); [congruence|]. destruct (API.links s); [congruence|].
    cbn [length Nat.eqb orb] in Hnone.
    destruct (SankeyChart.filteredNodes (SankeyChart.window 100 s)); [congruence|].
    destruct (SankeyChart.filteredLinks (SankeyChart.window 100 s)); [congruence|].
    discriminate.
  - destruct data as [|r data]; [reflexivity|]. intros Hnone. exfalso.
    unfold MatrixChart.render in Hnone. cbn [length Nat.eqb] in Hnone.
    rewrite aggregateForMatrix_eq in Hnone. cbn zeta in Hnone.
    cbn [API.vendors API.agencies] in Hnone.
    assert (Hv : In (API.vendor_of r) (vendors_of (r :: data) sortBy))
      by (apply vendors_of_In; exists r; split; [left|]; reflexivity).
    assert (Ha : In (API.agency_of r) (agencies_of (r :: data) sortBy))
      by (apply agencies_of_In; exists r; split; [left|]; reflexivity).
    destruct (vendors_of (r :: data) sortBy); [destruct Hv|].
    destruct (agencies_of (r :: data) sortBy); [destruct Ha|].
    discriminate.
Qed.

(** ** The order of the entities *)

Lemma sum_ones (l : list record) : sum (map one l) == number_of l.
Proof.
  induction l as [|r l IH] using rev_ind; [reflexivity|].
  rewrite map_app. cbn [map]. rewrite sum_snoc, IH. unfold number_of, one.
  rewrite length_app, Nat.add_1_r, Nat2Z.inj_succ, <- Z.add_1_r, inject_Z_plus.
  reflexivity.
Qed.

Lemma sort_by_number_ordered key val (data : list record) (mult : Js.number) :
  ordered_by (fun n => mult * total_where key val n data)
             (API.sort_by_number mult (tally key val data [])).
Proof.
  set (totals := tally key val data []).
  unfold ordered_by, API.sort_by_number. intros i j v w Hij.
  set (sorted := Js.sort (fun a b => mult * (snd a - snd b)) (JsMap.entries totals)).
  assert (Hs : StronglySorted
                 (fun a b : string * Js.number => mult * snd a <= mult * snd b) sorted).
  { apply sort_sorted.
    - intros x y z Hxy Hyz. lra.
    - intros x y Hp. apply is_positive_false in Hp. lra.
    - intros x y Hp. apply is_positive_spec in Hp. lra. }
  assert (Hget : forall e, In e sorted -> snd e == total_where key val (fst e) data).
  { intros [k t] He. apply sort_In in He. cbn. apply tally_get.
    apply In_get_Some; [|exact He].
    subst totals. rewrite keys_tally. apply first_seen_NoDup, List.NoDup_nil. }
  rewrite !lookup_map. intros Hi Hj.
  destruct (sorted !! i) as [ei|] eqn:Ei; [|discriminate].
  destruct (sorted !! j) as [ej|] eqn:Ej; [|discriminate].
  injection Hi as <-. injection Hj as <-.
  rewrite <- (Hget ei), <- (Hget ej)
    by (apply list_elem_of_In, list_elem_of_lookup; eauto).
  exact (sorted_lookup _ sorted Hs i j ei ej Hij Ei Ej).
Qed.

Lemma ranked_ordered `{Locale} key (data : list record) (sortBy : string) :
  let names := ranked sortBy (tally key API.amount_of data []) (tally key one data []) in
  (API.sort_field sortBy = "amount" -> ordered_by (by_amount key data sortBy) names)
  /\ (API.sort_field sortBy = "count" -> ordered_by (by_count key data sortBy) names).
Proof.
  cbn zeta. unfold ranked. split; intros ->; cbn [String.eqb Ascii.eqb Bool.eqb].
  - apply sort_by_number_ordered.
  - intros i j v w Hij Hi Hj. unfold by_count, count_of_entity.
    rewrite <- !sum_ones.
    exact (sort_by_number_ordered key one data (API.multiplier sortBy) i j v w Hij Hi Hj).
Qed.

(** X10: under a sort key whose field is "amount", the vendors and the
    agencies that the two aggregations return come in the order of the total
    amount of their records, ascending, or descending when the direction is
    "desc"; under a sort key whose field is "count", in the order of the
    number of their records. *)
Theorem entities_ordered_by_metric `{Locale} (data : list record) (sortBy : string) :
  let m := API.aggregateForMatrix data sortBy in
  let s := API.aggregateForSankey data sortBy in
  names_of API.vendor_node (API.nodes s) = API.vendors m
  /\ names_of API.agency_node (API.nodes s) = API.agencies m
  /\ (API.multiplier sortBy = -(1) \/ API.multiplier sortBy = 1)
  /\ (API.sort_field sortBy = "amount" ->
      ordered_by (by_amount API.vendor_of data sortBy) (API.vendors m)
      /\ ordered_by (by_amount API.agency_of data sortBy) (API.agencies m))
  /\ (API.sort_field sortBy = "count" ->
      ordered_by (by_count API.vendor_of data sortBy) (API.vendors m)
      /\ ordered_by (by_count API.agency_of data sortBy) (API.agencies m)).
Proof.
  intros m s.
  destruct (projections_agree data sortBy) as (Hv & Ha & _).
  split; [exact Hv|]. split; [exact Ha|]. subst m s.
  rewrite aggregateForMatrix_eq. cbn zeta. cbn [API.vendors API.agencies].
  split; [|split].
  - unfold API.multiplier. destruct (API.sort_direction sortBy) as [d|]; [|auto].
    destruct (String.eqb d "desc"); auto.
  - intros Hf. split; apply ranked_ordered, Hf.
  - intros Hf. split; apply ranked_ordered, Hf.
Qed.

(** Under "amount-desc", the default, the vendors come in descending order
    of their totals. *)
Lemma entities_ordered_by_metric_witness :
  ordered_by (by_amount API.vendor_of scenario "amount-desc")
             (API.vendors (@API.aggregateForMatrix ordinal_locale scenario "amount-desc")).
Proof.
  apply (@entities_ordered_by_metric ordinal_locale scenario "amount-desc").
  reflexivity.
Defined.

(** ** The table of the matrix view *)

Lemma order_index (max : nat) (names : list string) (totals : list (option Js.number))
  (i : nat) (hd : MatrixChart.header) :
  MatrixChart.order max names totals !! i = Some hd ->
  MatrixChart.index hd = i /\ names !! i = Some (MatrixChart.name hd) /\ (i < max)%nat.
Proof.
  unfold MatrixChart.order, Js.slice0. rewrite list_lookup_imap.
  destruct (firstn max names !! i) as [n|] eqn:Hi; [|discriminate].
  intros [= <-]. cbn. apply lookup_take_Some in Hi as [Hi Hlt]. auto.
Qed.

Lemma cell_at_records (data : list record) (vendor agency : string) :
  API.cell_amount (cell_at data vendor agency)
  == sum (map API.amount_of (records_of (API.pair_key vendor agency) data))
  /\ API.cell_count (cell_at data vendor agency)
     == number_of (records_of (API.pair_key vendor agency) data).
Proof.
  unfold cell_at. rewrite cells_buckets, map_values_get.
  destruct (JsMap.get (API.pair_key vendor agency) (buckets data)) as [b|] eqn:E.
  - destruct (buckets_contents data _ b E) as (Hc & Hn & Hs & _).
    cbn. rewrite <- Hc. auto.
  - assert (Hnone : records_of (API.pair_key vendor agency) data = []).
    { unfold records_of.
      destruct (List.filter _ data) as [|r' l'] eqn:F; [reflexivity|].
      assert (Hin : In r' (List.filter
                             (fun r => String.eqb (key_of r) (API.pair_key vendor agency))
                             data))
        by (rewrite F; left; reflexivity).
      apply filter_In in Hin as [Hin Hk]. apply String.eqb_eq in Hk.
      destruct (buckets_has data r' Hin) as (b' & Hb' & _).
      rewrite Hk in Hb'. congruence. }
    rewrite Hnone. cbn. split; reflexivity.
Qed.

Lemma layout_cells `{Locale} (maxVendors maxAgencies : nat) (data : list record)
  (sortBy : string) :
  let t := MatrixChart.layout maxVendors maxAgencies
             (API.aggregateForMatrix data sortBy) in
  MatrixChart.cells t
  = map (fun v =>
           map (fun a => Some (cell_at data (MatrixChart.name v) (MatrixChart.name a)))
               (MatrixChart.agencyOrder t))
        (MatrixChart.vendorOrder t).
Proof.
  cbn zeta. rewrite aggregateForMatrix_eq. cbn zeta. unfold MatrixChart.layout.
  cbn [API.vendors API.agencies API.vendorTotals API.agencyTotals API.matrix
       MatrixChart.cells MatrixChart.vendorOrder MatrixChart.agencyOrder].
  apply map_ext_in. intros hv Hv. apply map_ext_in. intros ha Ha.
  apply In_lookup in Hv as [i Hi]. apply In_lookup in Ha as [j Hj].
  apply order_index in Hi as (-> & Hi & _). apply order_index in Hj as (-> & Hj & _).
  rewrite lookup_map, Hi. cbn. rewrite lookup_map, Hj. reflexivity.
Qed.

(** X11: in the table of the matrix view, whatever the two caps, the rows
    are the first vendors and the columns the first agencies of the
    aggregation, in its order; no cell is missing; and the cell of a row
    and a column holds the sum of the amounts and the number of the
    records whose key is that of the vendor of the row and the agency of
    the column. *)
Theorem table_cells `{Locale} (maxVendors maxAgencies : nat) (data : list record)
  (sortBy : string) :
  let m := API.aggregateForMatrix data sortBy in
  let t := MatrixChart.layout maxVendors maxAgencies m in
  map MatrixChart.name (MatrixChart.vendorOrder t) = firstn maxVendors (API.vendors m)
  /\ map MatrixChart.name (MatrixChart.agencyOrder t)
     = firstn maxAgencies (API.agencies m)
  /\ forall i j v a,
       MatrixChart.vendorOrder t !! i = Some v ->
       MatrixChart.agencyOrder t !! j = Some a ->
       exists c,
         MatrixChart.cells t !! i ≫= (.!! j) = Some (Some c)
         /\ API.cell_amount c
            == sum (map API.amount_of
                        (records_of (API.pair_key (MatrixChart.name v)
                                                  (MatrixChart.name a)) data))
         /\ API.cell_count c
            == number_of (records_of (API.pair_key (MatrixChart.name v)
                                                   (MatrixChart.name a)) data).
Proof.
  intros m t. split; [apply order_names|]. split; [apply order_names|].
  intros i j v a Hi Hj. subst t m. rewrite layout_cells. cbn zeta.
  exists (cell_at data (MatrixChart.name v) (MatrixChart.name a)).
  split; [|apply cell_at_records].
  rewrite lookup_map, Hi. cbn [fmap option_fmap option_map mbind option_bind].
  rewrite lookup_map, Hj. reflexivity.
Qed.

Lemma maxAmount_fold (cs : list API.cell) :
  forall acc : Js.number,
    exists x,
      fold_left (fun acc cell =>
                   match acc, cell with
                   | Some maxAmount, Some c =>
                       Some (if Js.gt (API.cell_amount c) maxAmount
                             then API.cell_amount c else maxAmount)
                   | _, _ => None
                   end)
                (map Some cs) (Some acc) = Some x
      /\ acc <= x
      /\ Forall (fun c => API.cell_amount c <= x) cs
      /\ (x = acc \/ exists c, In c cs /\ x = API.cell_amount c).
Proof.
  induction cs as [|c cs IH]; intros acc; cbn [map fold_left].
  - exists acc. split; [reflexivity|]. split; [lra|]. split; [constructor|auto].
  - destruct (Js.gt (API.cell_amount c) acc) eqn:E; unfold Js.gt in E;
      [apply negb_true_iff in E|apply negb_false_iff in E]; cycle 1.
    + apply Qle_bool_iff in E.
      destruct (IH acc) as (x & Hx & Hle & Hall & Hor).
      exists x. split; [exact Hx|]. split; [exact Hle|].
      split; [constructor; [lra|exact Hall]|].
      destruct Hor as [->|(c' & Hc' & ->)]; [auto|].
      right. exists c'. split; [right; exact Hc'|reflexivity].
    + assert (Hlt : acc < API.cell_amount c).
      { apply Qnot_le_lt. intros Hle. apply Qle_bool_iff in Hle. congruence. }
      destruct (IH (API.cell_amount c)) as (x & Hx & Hle & Hall & Hor).
      exists x. split; [exact Hx|]. split; [lra|].
      split; [constructor; [lra|exact Hall]|].
      right. destruct Hor as [->|(c' & Hc' & ->)].
      * exists c. split; [left|]; reflexivity.
      * exists c'. split; [right; exact Hc'|reflexivity].
Qed.

(** X12: the loop of the matrix view that looks for the highest amount
    reads no cell outside the matrix, whatever the two caps; what it finds
    is not negative, no cell of the table has a higher amount, and it is 0
    or the amount of a cell of the table. *)
Theorem maxAmount_is_the_highest `{Locale} (maxVendors maxAgencies : nat)
  (data : list record) (sortBy : string) :
  let t := MatrixChart.layout maxVendors maxAgencies
             (API.aggregateForMatrix data sortBy) in
  exists x,
    MatrixChart.maxAmount t = Some x
    /\ 0 <= x
    /\ Forall (Forall (fun cell => exists c, cell = Some c /\ API.cell_amount c <= x))
              (MatrixChart.cells t)
    /\ (x = 0 \/ exists c, In (Some c) (concat (MatrixChart.cells t))
                           /\ x = API.cell_amount c).
Proof.
  intros t. unfold MatrixChart.maxAmount.
  set (cs := concat (map (fun v =>
                map (fun a => cell_at data (MatrixChart.name v) (MatrixChart.name a))
                    (MatrixChart.agencyOrder t))
                (MatrixChart.vendorOrder t))).
  assert (Hcs : concat (MatrixChart.cells t) = map Some cs).
  { subst cs t. rewrite layout_cells. cbn zeta. rewrite concat_map, map_map.
    f_equal. apply map_ext. intros v. rewrite map_map. reflexivity. }
  rewrite Hcs. destruct (maxAmount_fold cs 0) as (x & Hx & Hle & Hall & Hor).
  exists x. split; [exact Hx|]. split; [exact Hle|]. split.
  - apply List.Forall_forall. intros row Hrow.
    apply List.Forall_forall. intros cell Hcell.
    assert (Hin : In cell (map Some cs)).
    { rewrite <- Hcs. apply in_concat. eauto. }
    apply in_map_iff in Hin as (c & <- & Hc). exists c. split; [reflexivity|].
    rewrite List.Forall_forall in Hall. apply Hall, Hc.
  - destruct Hor as [->|(c & Hc & ->)]; [auto|]. right. exists c.
    split; [apply in_map, Hc|reflexivity].
Qed.

(** ** Sorting and filtering the records *)

Lemma sort_insert_head {A} (cmp : A -> A -> Js.number) (x : A) (l : list A) :
  Forall (fun y => Js.is_positive (cmp x y) = false) l ->
  Js.sort_insert cmp x l = x :: l.
Proof.
  destruct l as [|y l]; [reflexivity|]. intros Hall.
  apply List.Forall_inv in Hall. cbn. rewrite Hall. reflexivity.
Qed.

(** Sorting leaves a sorted array as it is. *)
Lemma sort_sorted_id {A} (cmp : A -> A -> Js.number) (l : list A) :
  StronglySorted (fun a b => Js.is_positive (cmp a b) = false) l ->
  Js.sort cmp l = l.
Proof.
  induction 1 as [|x l Hs IH Hall]; [reflexivity|].
  cbn. fold (Js.sort cmp l). rewrite IH. apply sort_insert_head, Hall.
Qed.

Section SortData.

Context `{Locale}.
Variable st : Filters.state.

Lemma compare_amount (a b : record) :
  API.sort_field (Filters.sortBy st) = "amount"
  \/ API.sort_field (Filters.sortBy st) = "count" ->
  (Js.is_positive (Filters.compare st a b) = true
   <-> signed_amount st b < signed_amount st a)
  /\ (Js.is_positive (Filters.compare st a b) = false
      <-> signed_amount st a <= signed_amount st b).
Proof.
  rewrite is_positive_spec, is_positive_false.
  unfold Filters.compare, signed_amount.
  intros [-> | ->]; cbn [String.eqb Ascii.eqb Bool.eqb orb]; split; split; lra.
Qed.

Lemma compare_other (a b : record) :
  API.sort_field (Filters.sortBy st) <> "amount" ->
  API.sort_field (Filters.sortBy st) <> "count" ->
  API.sort_field (Filters.sortBy st) <> "name" ->
  Filters.compare st a b = 0.
Proof.
  unfold Filters.compare. intros Ha Hc Hn.
  apply String.eqb_neq in Ha, Hc, Hn. rewrite Ha, Hc, Hn. reflexivity.
Qed.

Lemma sorted_rows_by_amount (l : list record) :
  API.sort_field (Filters.sortBy st) = "amount"
  \/ API.sort_field (Filters.sortBy st) = "count" ->
  StronglySorted (fun a b => signed_amount st a <= signed_amount st b)
                 (sorted_rows st l).
Proof.
  intros Hf. apply sort_sorted.
  - intros x y z Hxy Hyz. lra.
  - intros x y Hp. apply (compare_amount x y Hf), Hp.
  - intros x y Hp. apply (compare_amount x y Hf) in Hp. lra.
Qed.

Lemma sorted_rows_other (l : list record) :
  API.sort_field (Filters.sortBy st) <> "amount" ->
  API.sort_field (Filters.sortBy st) <> "count" ->
  API.sort_field (Filters.sortBy st) <> "name" ->
  sorted_rows st l = l.
Proof.
  intros Ha Hc Hn. unfold sorted_rows.
  induction l as [|x l IH]; [reflexivity|].
  cbn. fold (Js.sort (Filters.compare st) l). rewrite IH.
  apply sort_insert_head, List.Forall_forall. intros y _.
  rewrite compare_other by assumption. reflexivity.
Qed.

(** Without the "name" field, what [sortData] returns is in the order of
    its own comparator. *)
Lemma sorted_rows_in_order (l : list record) :
  API.sort_field (Filters.sortBy st) <> "name" ->
  StronglySorted (fun a b => Js.is_positive (Filters.compare st a b) = false)
                 (sorted_rows st l).
Proof.
  intros Hn.
  destruct (String.eqb_spec (API.sort_field (Filters.sortBy st)) "amount") as [Ha|Ha];
    [|destruct (String.eqb_spec (API.sort_field (Filters.sortBy st)) "count")
        as [Hc|Hc]].
  1, 2: assert (Hf : API.sort_field (Filters.sortBy st) = "amount"
                     \/ API.sort_field (Filters.sortBy st) = "count") by auto.
  1, 2: apply sort_sorted;
    [ intros x y z Hxy Hyz; apply (compare_amount x y Hf) in Hxy;
      apply (compare_amount y z Hf) in Hyz; apply (compare_amount x z Hf); lra
    | auto
    | intros x y Hp; apply (compare_amount x y Hf) in Hp;
      apply (compare_amount y x Hf); lra ].
  apply sort_sorted.
  - intros x y z _ _. rewrite compare_other by assumption. reflexivity.
  - auto.
  - intros x y _. rewrite compare_other by assumption. reflexivity.
Qed.

(** A second pass of the three filters keeps every row of the first. *)
Lemma filters_fixed (l0 l : list record) :
  (forall r, In r l -> In r (agency_rows st (vendor_rows st (search_rows st l0)))) ->
  agency_rows st (vendor_rows st (search_rows st l)) = l.
Proof.
  unfold agency_rows, vendor_rows, search_rows. intros Hall.
  assert (Hs : (if Js.truthy (Some (Filters.searchQuery st))
                then List.filter (Filters.search_callback
                                    (Js.toLowerCase (Filters.searchQuery st))) l
                else l) = l).
  { destruct (Js.truthy (Some (Filters.searchQuery st))); [|reflexivity].
    apply filter_all. intros r Hr. apply Hall in Hr.
    destruct (0 <? length (Filters.selectedAgencies st))%nat;
      [apply filter_In in Hr as [Hr _]|];
      (destruct (0 <? length (Filters.selectedVendors st))%nat;
       [apply filter_In in Hr as [Hr _]|]);
      apply filter_In in Hr as [_ Hr]; exact Hr. }
  rewrite Hs.
  assert (Hv : (if (0 <? length (Filters.selectedVendors st))%nat
                then List.filter
                       (fun r => Filters.includes (Filters.selectedVendors st)
                                                  (vendor_name r)) l
                else l) = l).
  { destruct (0 <? length (Filters.selectedVendors st))%nat eqn:Ev; [|reflexivity].
    apply filter_all. intros r Hr. apply Hall in Hr. try rewrite Ev in Hr.
    destruct (0 <? length (Filters.selectedAgencies st))%nat;
      [apply filter_In in Hr as [Hr _]|];
      apply filter_In in Hr as [_ Hr]; exact Hr. }
  rewrite Hv.
  destruct (0 <? length (Filters.selectedAgencies st))%nat eqn:Ea; [|reflexivity].
  apply filter_all. intros r Hr. apply Hall in Hr. try rewrite Ea in Hr.
  apply filter_In in Hr as [_ Hr]. exact Hr.
Qed.

(** X13: [sortData] returns the rows it is given, each as often as it is
    given; under a sort key whose field is "amount" they come in the order
    of their amounts, a missing amount counting as 0, ascending, or
    descending when the direction is "desc"; the field "count" sorts by
    amount as well; and under a field that is none of "amount", "count"
    and "name" the rows keep the order they have. *)
Theorem sortData_order (h : gmap nat (list record)) (data : nat) (l : list record) :
  h !! data = Some l ->
  exists out h' res,
    Filters.sortData st data h = Some (out, h')
    /\ h' !! out = Some res
    /\ Permutation res l
    /\ (API.sort_field (Filters.sortBy st) = "amount"
        \/ API.sort_field (Filters.sortBy st) = "count" ->
        rows_ordered_by (signed_amount st) res)
    /\ (API.sort_field (Filters.sortBy st) <> "amount" ->
        API.sort_field (Filters.sortBy st) <> "count" ->
        API.sort_field (Filters.sortBy st) <> "name" ->
        res = l).
Proof.
  intros Hd.
  destruct (sortData_returns st h h data l (preserves_refl h) Hd)
    as (out & h' & Hrun & _ & Hout & _).
  exists out, h', (sorted_rows st l).
  split; [exact Hrun|]. split; [exact Hout|]. split; [apply sort_perm|]. split.
  - intros Hf i j a b Hij Hi Hj.
    exact (sorted_lookup _ _ (sorted_rows_by_amount l Hf) i j a b Hij Hi Hj).
  - apply sorted_rows_other.
Qed.

(** X14: unless the field of the sort key is "name", filtering what
    [applyFilters] has returned returns the same rows in the same order:
    every row of the result passes the three filters, and the result is in
    the order of the sort. *)
Theorem applyFilters_idempotent (h : gmap nat (list record)) (data : nat)
  (l : list record) :
  h !! data = Some l ->
  API.sort_field (Filters.sortBy st) <> "name" ->
  exists out h' res,
    Filters.applyFilters st data h = Some (out, h')
    /\ h' !! out = Some res
    /\ exists out2 h2,
         Filters.applyFilters st out h' = Some (out2, h2)
         /\ h2 !! out2 = Some res
         /\ h2 !! out = Some res.
Proof.
  intros Hd Hn.
  destruct (applyFilters_returns st h data l Hd) as (out & h' & Hrun & _ & Hout & _).
  set (rows := agency_rows st (vendor_rows st (search_rows st l))) in *.
  exists out, h', (sorted_rows st rows).
  split; [exact Hrun|]. split; [exact Hout|].
  destruct (applyFilters_returns st h' out _ Hout)
    as (out2 & h2 & Hrun2 & _ & Hout2 & Hp).
  exists out2, h2. split; [exact Hrun2|]. split; [|apply Hp, Hout].
  rewrite Hout2. f_equal.
  rewrite (filters_fixed l (sorted_rows st rows))
    by (intros r Hr; apply sort_In in Hr; exact Hr).
  apply sort_sorted_id, sorted_rows_in_order, Hn.
Qed.

End SortData.

(** The three records of the scenario, sorted by "amount-desc". *)
Lemma sortData_order_witness :
  exists out h' res,
    @Filters.sortData ordinal_locale no_filters 1%nat (store_of scenario)
    = Some (out, h')
    /\ h' !! out = Some res
    /\ Permutation res scenario
    /\ rows_ordered_by (signed_amount no_filters) res.
Proof.
  destruct (@sortData_order ordinal_locale no_filters (store_of scenario) 1%nat scenario)
    as (out & h' & res & Hrun & Hres & Hperm & Hord & _); [reflexivity|].
  exists out, h', res. repeat split; try assumption.
  apply Hord. left. reflexivity.
Defined.

(** The three records of the scenario, searched for "b" twice. *)
Lemma applyFilters_idempotent_witness :
  exists out h' res,
    @Filters.applyFilters ordinal_locale searching_b 1%nat (store_of scenario)
    = Some (out, h')
    /\ h' !! out = Some res
    /\ exists out2 h2,
         @Filters.applyFilters ordinal_locale searching_b out h' = Some (out2, h2)
         /\ h2 !! out2 = Some res
         /\ h2 !! out = Some res.
Proof.
  apply (@applyFilters_idempotent ordinal_locale searching_b (store_of scenario)
           1%nat scenario).
  - reflexivity.
  - vm_compute. discriminate.
Defined.

(** ** The options of the drop-downs *)

Lemma ascii_compare_lt_trans (a b c : ascii) :
  Ascii.compare a b = Lt -> Ascii.compare b c = Lt -> Ascii.compare a c = Lt.
Proof.
  unfold Ascii.compare. rewrite !N.compare_lt_iff. apply N.lt_trans.
Qed.

Lemma string_compare_lt_trans (a b c : string) :
  String.compare a b = Lt -> String.compare b c = Lt -> String.compare a c = Lt.
Proof.
  revert b c. induction a as [|x a IH]; intros [|y b] [|z c]; cbn;
    try discriminate; try reflexivity.
  destruct (Ascii.compare x y) eqn:Exy; try discriminate;
    destruct (Ascii.compare y z) eqn:Eyz; try discriminate.
  - apply Ascii.compare_eq_iff in Exy, Eyz. subst y z.
    assert (Hxx : Ascii.compare x x = Eq)
      by (unfold Ascii.compare; apply N.compare_refl).
    rewrite Hxx. apply IH.
  - apply Ascii.compare_eq_iff in Exy. subst y. rewrite Eyz. reflexivity.
  - apply Ascii.compare_eq_iff in Eyz. subst z. rewrite Exy. reflexivity.
  - rewrite (ascii_compare_lt_trans x y z Exy Eyz). reflexivity.
Qed.

Lemma string_compare_refl (a : string) : String.compare a a = Eq.
Proof.
  induction a as [|x a IH]; [reflexivity|]. cbn.
  assert (Hxx : Ascii.compare x x = Eq)
    by (unfold Ascii.compare; apply N.compare_refl).
  rewrite Hxx. exact IH.
Qed.

Lemma set_of_snoc (xs : list string) (x : string) :
  Js.set_of (xs ++ [x])
  = if existsb (String.eqb x) (Js.set_of xs) then Js.set_of xs
    else Js.set_of xs ++ [x].
Proof. unfold Js.set_of. rewrite fold_left_app. reflexivity. Qed.

Lemma set_of_In (xs : list string) (x : string) : In x (Js.set_of xs) <-> In x xs.
Proof.
  induction xs as [|y xs IH] using rev_ind; [reflexivity|].
  rewrite set_of_snoc, in_app_iff. cbn [In].
  destruct (existsb (String.eqb y) (Js.set_of xs)) eqn:E.
  - rewrite IH. split; [auto|]. intros [Hin|[<-|[]]]; [exact Hin|].
    apply existsb_exists in E as (z & Hz & Hyz). apply String.eqb_eq in Hyz.
    subst z. apply IH, Hz.
  - rewrite in_app_iff, IH. reflexivity.
Qed.

Lemma set_of_NoDup (xs : list string) : List.NoDup (Js.set_of xs).
Proof.
  induction xs as [|y xs IH] using rev_ind; [constructor|].
  rewrite set_of_snoc.
  destruct (existsb (String.eqb y) (Js.set_of xs)) eqn:E; [exact IH|].
  apply NoDup_ListNoDup, NoDup_app. apply NoDup_ListNoDup in IH.
  split; [exact IH|]. split; [|apply NoDup_singleton].
  intros x Hx. rewrite list_elem_of_singleton. intros ->.
  apply list_elem_of_In in Hx.
  assert (Hex : existsb (String.eqb y) (Js.set_of xs) = true)
    by (apply existsb_exists; exists y; split; [exact Hx|apply String.eqb_refl]).
  congruence.
Qed.

Lemma truthy_names_In (proj : record -> option string) (data : list record)
  (name : string) :
  In name (API.truthy_names proj data) <-> offered proj data name.
Proof.
  unfold API.truthy_names, offered.
  rewrite <- list_elem_of_In, list_elem_of_omap. split.
  - intros (r & Hr & Hp). apply list_elem_of_In in Hr.
    destruct (proj r) as [[|c s]|] eqn:E; cbn in Hp; try discriminate.
    injection Hp as <-. split; [discriminate|eauto].
  - intros (Hne & r & Hr & Hp). exists r. split; [apply list_elem_of_In, Hr|].
    rewrite Hp. destruct name; [congruence|reflexivity].
Qed.

Lemma default_sort_ascending (l : list string) :
  List.NoDup l -> strictly_ascending (Js.sort Js.default_compare l).
Proof.
  intros Hnd.
  assert (Hs : StronglySorted (fun a b => String.compare a b <> Gt)
                              (Js.sort Js.default_compare l)).
  { apply sort_sorted.
    - intros x y z Hxy Hyz.
      destruct (String.compare x y) eqn:Exy; [|clear Hxy|congruence].
      + apply String.compare_eq_iff in Exy. subst y. exact Hyz.
      + destruct (String.compare y z) eqn:Eyz; [| |congruence].
        * apply String.compare_eq_iff in Eyz. subst z. congruence.
        * rewrite (string_compare_lt_trans x y z Exy Eyz). discriminate.
    - intros x y. unfold Js.default_compare.
      destruct (String.compare x y);
        [intros _; discriminate|intros _; discriminate|].
      intros Hp. vm_compute in Hp. discriminate Hp.
    - intros x y. unfold Js.default_compare. rewrite (String.compare_antisym y x).
      destruct (String.compare x y); intros Hp; vm_compute in Hp;
        try discriminate Hp.
      cbn. discriminate. }
  assert (Hnd' : List.NoDup (Js.sort Js.default_compare l)).
  { eapply Permutation_NoDup; [symmetry; apply sort_perm|exact Hnd]. }
  unfold strictly_ascending.
  induction Hs as [|x s Hs IH Hall]; [constructor|].
  apply List.NoDup_cons_iff in Hnd' as [Hx Hnd'].
  constructor; [apply IH, Hnd'|].
  rewrite List.Forall_forall in *. intros y Hy. specialize (Hall y Hy).
  destruct (String.compare x y) eqn:E; [|reflexivity|congruence].
  apply String.compare_eq_iff in E. subst y. contradiction.
Qed.

(** X15: the options that [getFilterOptions] gives to the two drop-downs
    are in strictly ascending order of the code units, hence without
    duplicates, and they are exactly the vendor names, and the agency
    names, that are not empty of the records: a record without a name adds
    no option, and "Unknown Vendor" is no option unless a record has that
    name. *)
Theorem filter_options_spec (data : list record) :
  let options := API.getFilterOptions data in
  strictly_ascending (API.option_vendors options)
  /\ (forall v, In v (API.option_vendors options) <-> offered vendor_name data v)
  /\ strictly_ascending (API.option_agencies options)
  /\ (forall a, In a (API.option_agencies options) <-> offered agency_name data a).
Proof.
  cbn zeta. unfold API.getFilterOptions. cbn zeta.
  cbn [API.option_vendors API.option_agencies].
  split; [apply default_sort_ascending, set_of_NoDup|].
  split; [intros v; rewrite sort_In, set_of_In; apply truthy_names_In|].
  split; [apply default_sort_ascending, set_of_NoDup|].
  intros a. rewrite sort_In, set_of_In. apply truthy_names_In.
Qed.

(** ** Selecting vendors and agencies *)

Lemma applyFilters_selection `{Locale} (st : Filters.state)
  (h : gmap nat (list record)) (data : nat) (l : list record) :
  h !! data = Some l ->
  Filters.searchQuery st = "" ->
  exists out h' res,
    Filters.applyFilters st data h = Some (out, h')
    /\ h' !! out = Some res
    /\ forall r, In r res <->
         In r l /\ selected (Filters.selectedVendors st) (vendor_name r)
         /\ selected (Filters.selectedAgencies st) (agency_name r).
Proof.
  intros Hd Hq.
  destruct (applyFilters_returns st h data l Hd) as (out & h' & Hrun & _ & Hout & _).
  exists out, h', (sorted_rows st (agency_rows st (vendor_rows st (search_rows st l)))).
  split; [exact Hrun|]. split; [exact Hout|].
  intros r. rewrite search_rows_empty_query by exact Hq. apply filtered_rows_In.
Qed.

(** X16: every vendor that the drop-down offers selects records: with no
    query and no agency selected, selecting one of the vendors that
    [getFilterOptions] returns for the records makes [applyFilters] return
    the records of that vendor name, and there is at least one. *)
Theorem offered_vendor_selects_records `{Locale} (st : Filters.state)
  (h : gmap nat (list record)) (data : nat) (l : list record) (v : string) :
  h !! data = Some l ->
  In v (API.option_vendors (API.getFilterOptions l)) ->
  Filters.searchQuery st = "" ->
  Filters.selectedVendors st = [v] ->
  Filters.selectedAgencies st = [] ->
  exists out h' res,
    Filters.applyFilters st data h = Some (out, h')
    /\ h' !! out = Some res
    /\ res <> []
    /\ forall r, In r res <-> In r l /\ vendor_name r = Some v.
Proof.
  intros Hd Hv Hq Hsv Hsa.
  destruct (applyFilters_selection st h data l Hd Hq) as (out & h' & res & Hrun & Hres & Hin).
  assert (Hiff : forall r, In r res <-> In r l /\ vendor_name r = Some v).
  { intros r. rewrite Hin, Hsv, Hsa. unfold selected. split.
    - intros (Hr & [Hnil|(w & Hw & [<-|[]])] & _); [discriminate|auto].
    - intros [Hr Hn]. split; [exact Hr|]. split; [|auto].
      right. exists v. split; [exact Hn|left; reflexivity]. }
  exists out, h', res. split; [exact Hrun|]. split; [exact Hres|].
  split; [|exact Hiff].
  unfold API.getFilterOptions in Hv. cbn [API.option_vendors] in Hv.
  rewrite sort_In, set_of_In, truthy_names_In in Hv.
  destruct Hv as (_ & r & Hr & Hn).
  intros Hnil. assert (Hres' : In r res) by (apply Hiff; auto).
  rewrite Hnil in Hres'. destruct Hres'.
Qed.

(** The vendor "B" of the scenario, selected. *)
Lemma offered_vendor_selects_records_witness :
  exists out h' res,
    @Filters.applyFilters ordinal_locale (only_vendor "B") 1%nat (store_of scenario)
    = Some (out, h')
    /\ h' !! out = Some res
    /\ res <> []
    /\ forall r, In r res <-> In r scenario /\ vendor_name r = Some "B".
Proof.
  apply (@offered_vendor_selects_records ordinal_locale (only_vendor "B")
           (store_of scenario) 1%nat scenario "B").
  - reflexivity.
  - vm_compute. auto.
  - reflexivity.
  - reflexivity.
  - reflexivity.
Defined.

Lemma select_fst (name : string) (sel : list string) :
  fst (Filters.select name sel)
  = if existsb (String.eqb name) sel then sel else sel ++ [name].
Proof.
  unfold Filters.select, Filters.includes.
  destruct (existsb (String.eqb name) sel); reflexivity.
Qed.

Lemma select_snd (name : string) (sel : list string) :
  snd (Filters.select name sel) = negb (existsb (String.eqb name) sel).
Proof.
  unfold Filters.select, Filters.includes.
  destruct (existsb (String.eqb name) sel); reflexivity.
Qed.

Lemma handleNodeClick_selection (d : API.node) (st : Filters.state) :
  selection (API.type d) (fst (SankeyChart.handleNodeClick d st))
  = fst (Filters.select (API.name d) (selection (API.type d) st))
  /\ snd (SankeyChart.handleNodeClick d st)
     = snd (Filters.select (API.name d) (selection (API.type d) st)).
Proof.
  unfold SankeyChart.handleNodeClick, selection.
  destruct (API.type d);
    [destruct (Filters.select (API.name d) (Filters.selectedVendors st))
    |destruct (Filters.select (API.name d) (Filters.selectedAgencies st))];
    split; reflexivity.
Qed.

Lemma filter_out_fresh (name : string) (sel : list string) :
  ~ In name sel ->
  List.filter (fun v => negb (String.eqb v name)) (sel ++ [name]) = sel.
Proof.
  intros Hnot. rewrite List.filter_app. cbn [List.filter].
  rewrite String.eqb_refl. cbn [negb]. rewrite app_nil_r.
  apply filter_all. intros x Hx. apply negb_true_iff, String.eqb_neq.
  intros ->. contradiction.
Qed.

(** X17: a click on a node of the graph selects its name on its side: the
    name is selected afterwards; a second click changes nothing and does
    not filter again; the click filters exactly when the name was not yet
    selected, and then removing the tag of the name gives the state before
    the click back; and a selection without duplicates stays so. *)
Theorem node_click_round_trip (d : API.node) (st : Filters.state) :
  let st' := fst (SankeyChart.handleNodeClick d st) in
  In (API.name d) (selection (API.type d) st')
  /\ SankeyChart.handleNodeClick d st' = (st', false)
  /\ (snd (SankeyChart.handleNodeClick d st) = true
      <-> ~ In (API.name d) (selection (API.type d) st))
  /\ (~ In (API.name d) (selection (API.type d) st) ->
      Filters.removeTag (tag_of (API.type d)) (API.name d) st' = st)
  /\ (List.NoDup (selection (API.type d) st) ->
      List.NoDup (selection (API.type d) st')).
Proof.
  cbn zeta.
  destruct (handleNodeClick_selection d st) as [Hsel Hflag].
  assert (Hin : In (API.name d)
                   (selection (API.type d) (fst (SankeyChart.handleNodeClick d st)))).
  { rewrite Hsel, select_fst.
    destruct (existsb (String.eqb (API.name d)) (selection (API.type d) st)) eqn:E.
    - apply existsb_eqb_In, E.
    - apply in_or_app. right. left. reflexivity. }
  split; [exact Hin|]. split; [|split; [|split]].
  - apply existsb_eqb_In in Hin. revert Hin.
    unfold SankeyChart.handleNodeClick, selection, Filters.select, Filters.includes.
    destruct st as [sd ed q ma sv sa sb ap]. cbn.
    destruct (API.type d); cbn.
    + destruct (existsb (String.eqb (API.name d)) sv) eqn:E; cbn; intros Hin;
        rewrite Hin; reflexivity.
    + destruct (existsb (String.eqb (API.name d)) sa) eqn:E; cbn; intros Hin;
        rewrite Hin; reflexivity.
  - rewrite Hflag, select_snd, negb_true_iff, <- existsb_eqb_In.
    destruct (existsb _ _); split; congruence.
  - intros Hnot. pose proof Hnot as Hex. rewrite <- existsb_eqb_In in Hex.
    apply not_true_is_false in Hex. revert Hex Hnot.
    unfold SankeyChart.handleNodeClick, selection, Filters.select, Filters.includes,
      Filters.removeTag, tag_of.
    destruct st as [sd ed q ma sv sa sb ap]. cbn.
    destruct (API.type d); cbn; intros Hex Hnot; rewrite Hex; cbn;
      rewrite filter_out_fresh by exact Hnot; reflexivity.
  - intros Hnd. rewrite Hsel, select_fst.
    destruct (existsb (String.eqb (API.name d)) (selection (API.type d) st)) eqn:E;
      [exact Hnd|].
    apply NoDup_ListNoDup, NoDup_app. apply NoDup_ListNoDup in Hnd.
    split; [exact Hnd|]. split; [|apply NoDup_singleton].
    intros x Hx. rewrite list_elem_of_singleton. intros ->.
    apply list_elem_of_In, existsb_eqb_In in Hx. congruence.
Qed.

Lemma node_records `{Locale} (data : list record) (sortBy : string) (d : API.node) :
  In d (API.nodes (API.aggregateForSankey data sortBy)) ->
  exists r, In r data /\ side (API.type d) r = API.name d.
Proof.
  rewrite aggregateForSankey_eq. cbn zeta. cbn [API.nodes]. unfold nodes_for.
  intros Hd. apply in_app_or in Hd as [Hd|Hd];
    apply in_map_iff in Hd as (n & <- & Hn); cbn [API.type API.name side].
  - apply vendors_of_In in Hn. exact Hn.
  - apply agencies_of_In in Hn. exact Hn.
Qed.

Lemma side_unknown (ty : API.node_type) (r : record) :
  side ty r = unknown ty ->
  field_of ty r <> Some (unknown ty) ->
  Js.truthy (field_of ty r) = false.
Proof.
  destruct ty; cbn [side field_of unknown];
    unfold API.vendor_of, API.agency_of, Js.or_string.
  - destruct (vendor_name r) as [[|c s]|]; [reflexivity| |reflexivity].
    intros -> Hne. congruence.
  - destruct (agency_name r) as [[|c s]|]; [reflexivity| |reflexivity].
    intros -> Hne. congruence.
Qed.

(** X18: the node "Unknown Vendor", or "Unknown Agency", of the graph
    stands for the records without a name on that side; when no record
    bears that very name and nothing is selected on that side, a click on
    the node leaves no record at all, although such records exist: the
    filter looks for the substitute name in the name field, which these
    records do not have. *)
Theorem unknown_node_click_shows_nothing `{Locale} (st : Filters.state)
  (h : gmap nat (list record)) (data : nat) (l : list record) (d : API.node) :
  h !! data = Some l ->
  In d (API.nodes (API.aggregateForSankey l (Filters.sortBy st))) ->
  API.name d = unknown (API.type d) ->
  selection (API.type d) st = [] ->
  (forall r, In r l -> field_of (API.type d) r <> Some (unknown (API.type d))) ->
  (exists r, In r l /\ Js.truthy (field_of (API.type d) r) = false
             /\ side (API.type d) r = API.name d)
  /\ exists out h',
       Filters.applyFilters (fst (SankeyChart.handleNodeClick d st)) data h
       = Some (out, h')
       /\ h' !! out = Some [].
Proof.
  intros Hd Hnode Hname Hsel Hlit. split.
  - destruct (node_records l _ d Hnode) as (r & Hr & Hside).
    exists r. split; [exact Hr|]. split; [|exact Hside].
    apply side_unknown; [congruence|apply Hlit, Hr].
  - set (st' := fst (SankeyChart.handleNodeClick d st)).
    destruct (applyFilters_returns st' h data l Hd) as (out & h' & Hrun & _ & Hout & _).
    exists out, h'. split; [exact Hrun|]. rewrite Hout. f_equal.
    destruct (sorted_rows st' _) as [|r rows] eqn:E; [reflexivity|]. exfalso.
    assert (Hin : In r (sorted_rows st'
                          (agency_rows st' (vendor_rows st' (search_rows st' l)))))
      by (rewrite E; left; reflexivity).
    apply sort_In in Hin.
    assert (Hsel' : selection (API.type d) st' = [unknown (API.type d)]).
    { subst st'. destruct (handleNodeClick_selection d st) as [-> _].
      rewrite select_fst, Hsel, Hname. reflexivity. }
    assert (Hsub : forall p (xs : list record) x,
               In x (List.filter p xs) -> In x xs)
      by (intros p xs x Hx; apply filter_In in Hx as [Hx _]; exact Hx).
    assert (Hl : forall x, In x (search_rows st' l) -> In x l).
    { intros x. unfold search_rows. destruct (Js.truthy _); [apply Hsub|auto]. }
    unfold agency_rows, vendor_rows in Hin.
    apply filter_selected_In in Hin as [Hin Hsa].
    apply filter_selected_In in Hin as [Hin Hsv].
    unfold selection in Hsel'.
    destruct (API.type d); cbn [field_of unknown] in *.
    + rewrite Hsel' in Hsv. destruct Hsv as [Hnil|(v & Hv & [<-|[]])];
        [discriminate|]. apply (Hlit r (Hl r Hin)). exact Hv.
    + rewrite Hsel' in Hsa. destruct Hsa as [Hnil|(v & Hv & [<-|[]])];
        [discriminate|]. apply (Hlit r (Hl r Hin)). exact Hv.
Qed.

(** A record without vendor name: its node is in the graph, with its
    amount, and the click on it shows nothing. *)
Lemma unknown_node_click_shows_nothing_witness :
  (exists r, In r with_unnamed /\ Js.truthy (vendor_name r) = false
             /\ API.vendor_of r = "Unknown Vendor")
  /\ exists out h',
       @Filters.applyFilters ordinal_locale
         (fst (SankeyChart.handleNodeClick unknown_vendor_node no_filters))
         1%nat (store_of with_unnamed)
       = Some (out, h')
       /\ h' !! out = Some [].
Proof.
  apply (@unknown_node_click_shows_nothing ordinal_locale no_filters
           (store_of with_unnamed) 1%nat with_unnamed unknown_vendor_node).
  - reflexivity.
  - vm_compute. auto.
  - reflexivity.
  - reflexivity.
  - intros r [<-|[<-|[]]]; discriminate.
Defined.

(** X19: [reset] installs a state under which [applyFilters] keeps every
    record, in descending order of the amounts, and under which the data
    source is asked for the awards from 2026-01-01 to today with no lower
    bound on the amount. *)
Theorem reset_shows_everything `{Locale} (today : string)
  (h : gmap nat (list record)) (data : nat) (l : list record) :
  h !! data = Some l ->
  Filters.getApiParams (Filters.reset today)
  = Filters.ApiParams (Some "2026-01-01") (Some today) 0
  /\ exists out h' res,
       Filters.applyFilters (Filters.reset today) data h = Some (out, h')
       /\ h' !! out = Some res
       /\ Permutation res l
       /\ rows_ordered_by (fun r => - API.amount_of r) res.
Proof.
  intros Hd. split; [reflexivity|].
  destruct (applyFilters_returns (Filters.reset today) h data l Hd)
    as (out & h' & Hrun & _ & Hout & _).
  exists out, h', (sorted_rows (Filters.reset today) l).
  split; [exact Hrun|]. split; [exact Hout|]. split; [apply sort_perm|].
  intros i j a b Hij Hi Hj.
  assert (Hf : API.sort_field (Filters.sortBy (Filters.reset today)) = "amount"
               \/ API.sort_field (Filters.sortBy (Filters.reset today)) = "count")
    by (left; reflexivity).
  pose proof (sorted_lookup _ _ (sorted_rows_by_amount (Filters.reset today) l Hf)
                i j a b Hij Hi Hj) as Hle.
  unfold signed_amount in Hle.
  change (API.multiplier (Filters.sortBy (Filters.reset today))) with (-(1)) in Hle.
  unfold API.amount_of. lra.
Qed.

(** The three records of the scenario after a reset. *)
Lemma reset_shows_everything_witness :
  exists out h' res,
    @Filters.applyFilters ordinal_locale (Filters.reset "2026-11-03") 1%nat
      (store_of scenario)
    = Some (out, h')
    /\ h' !! out = Some res
    /\ Permutation res scenario
    /\ rows_ordered_by (fun r => - API.amount_of r) res.
Proof.
  apply (@reset_shows_everything ordinal_locale "2026-11-03" (store_of scenario)
           1%nat scenario).
  reflexivity.
Defined.



(** ** Searching *)

(** X21: the search of [applyFilters] and [Utils.matchesSearch] agree: for a
    query that is not empty, the callback of the search filter keeps a
    record exactly when [matchesSearch] accepts one of its four text
    fields; and [matchesSearch] accepts every text when the query is
    missing or empty, and no missing or empty text otherwise. *)
Theorem search_agrees_with_matchesSearch (c : ascii) (q : string) (r : record) :
  let query := String c q in
  Filters.search_callback (Js.toLowerCase query) r
  = existsb (fun field => Utils.matchesSearch field (Some query)) (search_fields r)
  /\ (forall text, Utils.matchesSearch text None = true
                   /\ Utils.matchesSearch text (Some "") = true)
  /\ Utils.matchesSearch None (Some query) = false
  /\ Utils.matchesSearch (Some "") (Some query) = false.
Proof.
  cbn zeta. split; [|split; [|split]]; try reflexivity.
  - unfold Filters.search_callback, search_fields. cbn [existsb].
    repeat match goal with
           | |- context [Utils.matchesSearch ?f _] =>
               lazymatch f with
               | Some _ => fail
               | None => fail
               | _ => destruct f as [[|? ?]|]
               end
           end; reflexivity.
  - intros text. split; reflexivity.
Qed.

Lemma toLowerCase_app (a b : string) :
  Js.toLowerCase (a +:+ b) = Js.toLowerCase a +:+ Js.toLowerCase b.
Proof.
  induction a as [|c a IH]; [reflexivity|].
  rewrite append_cons. cbn [Js.toLowerCase]. rewrite IH, append_cons. reflexivity.
Qed.

Lemma append_assoc (a b c : string) : (a +:+ b) +:+ c = a +:+ (b +:+ c).
Proof.
  induction a as [|x a IH]; [reflexivity|].
  rewrite !append_cons, IH. reflexivity.
Qed.

Lemma append_empty_r (a : string) : a +:+ "" = a.
Proof. induction a as [|x a IH]; [reflexivity|]. rewrite append_cons, IH. reflexivity. Qed.

Lemma join_In (sep p : string) (parts : list string) :
  In p parts -> exists pre post, Js.join sep parts = pre +:+ p +:+ post.
Proof.
  induction parts as [|x parts IH]; [intros []|].
  intros [->|Hin].
  - destruct parts as [|y parts].
    + exists "", "". cbn [Js.join]. rewrite append_empty_r. reflexivity.
    + exists "", (sep +:+ Js.join sep (y :: parts)). reflexivity.
  - destruct (IH Hin) as (pre & post & Hj).
    destruct parts as [|y parts]; [destruct Hin|].
    exists (x +:+ sep +:+ pre), post.
    change (Js.join sep (x :: y :: parts)) with (x +:+ sep +:+ Js.join sep (y :: parts)).
    rewrite Hj, !append_assoc. reflexivity.
Qed.

(** X22: what the three [other_info] fields of a row hold can be searched
    for: when one of them has a character that is not white space and
    contains the query, case apart, the search keeps the record that
    [processData] makes of the row, whatever its other fields. *)
Theorem other_info_is_searchable (row : raw_row) (info query : string) :
  In (Some info) [raw_other_info_1 row; raw_other_info_2 row; raw_other_info_3 row] ->
  Js.trim_truthy info = true ->
  Js.includes (Js.toLowerCase info) (Js.toLowerCase query) = true ->
  Forall (fun r => Filters.search_callback (Js.toLowerCase query) r = true)
         (API.processData [row]).
Proof.
  intros Hin Htrim Hinc. constructor; [|constructor].
  assert (Hne : exists c s, info = String c s).
  { destruct info as [|c s]; [discriminate|eauto]. }
  assert (Hpart : In info
            (omap (fun part : option string =>
                     match part with
                     | Some p => if Js.truthy part && Js.trim_truthy p
                                 then Some p else None
                     | None => None
                     end)
                  [raw_other_info_1 row; raw_other_info_2 row; raw_other_info_3 row])).
  { apply list_elem_of_In, list_elem_of_omap. exists (Some info).
    split; [apply list_elem_of_In, Hin|].
    destruct Hne as (c & s & ->). cbn [Js.truthy andb]. rewrite Htrim. reflexivity. }
  apply (join_In " | ") in Hpart as (pre & post & Hjoin).
  apply includes_spec in Hinc as (a & b & Hlow).
  unfold Filters.search_callback. cbn [existsb additional_info].
  unfold Utils.concatenateOtherInfo. rewrite Hjoin.
  assert (Htruthy : Js.truthy (Some (pre +:+ info +:+ post)) = true).
  { destruct Hne as (c & s & ->). destruct pre; reflexivity. }
  rewrite Htruthy. cbn [andb].
  assert (Hfound : Js.includes (Js.toLowerCase (pre +:+ info +:+ post))
                               (Js.toLowerCase query) = true).
  { apply includes_spec. rewrite !toLowerCase_app, Hlow.
    exists (Js.toLowerCase pre +:+ a), (b +:+ Js.toLowerCase post).
    rewrite !append_assoc. reflexivity. }
  rewrite Hfound. rewrite !orb_true_r. reflexivity.
Qed.

(** The query "sole" finds "Sole Source" in the second field. *)
Lemma other_info_is_searchable_witness :
  Forall (fun r => Filters.search_callback (Js.toLowerCase "sole") r = true)
         (API.processData [sole_source_row]).
Proof.
  apply (other_info_is_searchable sole_source_row "Sole Source" "sole").
  - right. left. reflexivity.
  - reflexivity.
  - reflexivity.
Defined.

(** ** Truncating a text *)

Lemma length_append (a b : string) :
  String.length (a +:+ b) = (String.length a + String.length b)%nat.
Proof.
  induction a as [|c a IH]; [reflexivity|].
  rewrite append_cons. cbn [String.length]. rewrite IH. reflexivity.
Qed.

Lemma take_chars_split (n : nat) (s : string) :
  exists post,
    s = Js.take_chars n s +:+ post
    /\ String.length (Js.take_chars n s) = Nat.min n (String.length s).
Proof.
  revert s. induction n as [|n IH]; intros s.
  - exists s. split; reflexivity.
  - destruct s as [|c s]; [exists ""; split; reflexivity|].
    destruct (IH s) as (post & Hs & Hlen). exists post. cbn [Js.take_chars].
    split; [rewrite append_cons, <- Hs; reflexivity|].
    cbn [String.length]. rewrite Hlen. reflexivity.
Qed.

(** X23: [truncate] gives the empty string for a missing or empty text and
    a text that fits as it is; of a text that is not empty and longer than
    [maxLength] it keeps the first [maxLength - 3] characters, none when
    that is negative, and puts "..." behind; so the result has at most
    [maxLength] characters whenever [maxLength] is 3 or more. *)
Theorem truncate_spec (text : string) (maxLength : Z) :
  Utils.truncate None maxLength = ""
  /\ Utils.truncate (Some "") maxLength = ""
  /\ ((Z.of_nat (String.length text) <= maxLength)%Z ->
      Utils.truncate (Some text) maxLength = text)
  /\ (text <> "" -> (maxLength < Z.of_nat (String.length text))%Z ->
      exists kept dropped,
        text = kept +:+ dropped
        /\ Z.of_nat (String.length kept) = Z.max 0 (maxLength - 3)
        /\ Utils.truncate (Some text) maxLength = kept +:+ "...")
  /\ ((3 <= maxLength)%Z ->
      (Z.of_nat (String.length (Utils.truncate (Some text) maxLength)) <= maxLength)%Z).
Proof.
  split; [reflexivity|]. split; [reflexivity|].
  assert (Hlong : text <> "" -> (maxLength < Z.of_nat (String.length text))%Z ->
            exists kept dropped,
              text = kept +:+ dropped
              /\ Z.of_nat (String.length kept) = Z.max 0 (maxLength - 3)
              /\ Utils.truncate (Some text) maxLength = kept +:+ "...").
  { intros Hne Hlt.
    destruct (take_chars_split (Z.to_nat (maxLength - 3)) text) as (post & Hs & Hlen).
    exists (Js.take_chars (Z.to_nat (maxLength - 3)) text), post.
    split; [exact Hs|]. split; [rewrite Hlen; clear Hs Hlen; lia|].
    unfold Utils.truncate. destruct text as [|c s]; [congruence|].
    apply Z.leb_gt in Hlt. rewrite Hlt. reflexivity. }
  split; [|split; [exact Hlong|]].
  - intros Hle. unfold Utils.truncate. destruct text as [|c s]; [reflexivity|].
    apply Z.leb_le in Hle. rewrite Hle. reflexivity.
  - intros H3.
    destruct (Z.le_gt_cases (Z.of_nat (String.length text)) maxLength) as [Hle|Hlt].
    + unfold Utils.truncate. destruct text as [|c s]; [cbn; lia|].
      pose proof Hle as Hb. apply Z.leb_le in Hb. rewrite Hb. exact Hle.
    + assert (Hne : text <> "") by (intros ->; cbn in Hlt; lia).
      destruct (Hlong Hne Hlt) as (kept & dropped & _ & Hlen & ->).
      rewrite length_append. cbn [String.length]. lia.
Qed.

(** A vendor name of 40 characters for a label of at most 30. *)
Lemma truncate_spec_witness :
  exists kept dropped,
    "NEW YORK CITY HEALTH AND HOSPITALS CORP." = kept +:+ dropped
    /\ Z.of_nat (String.length kept) = Z.max 0 (30 - 3)
    /\ Utils.truncate (Some "NEW YORK CITY HEALTH AND HOSPITALS CORP.") 30
       = kept +:+ "...".
Proof.
  apply (truncate_spec "NEW YORK CITY HEALTH AND HOSPITALS CORP." 30).
  - discriminate.
  - vm_compute. reflexivity.
Defined.

(** ** The colour of a string *)

Lemma to_int32_mod (z : Z) : (Js.to_int32 z mod 2 ^ 32 = z mod 2 ^ 32)%Z.
Proof.
  unfold Js.to_int32. rewrite Zminus_mod_idemp_l. f_equal. lia.
Qed.

Lemma to_int32_range (z : Z) : (- 2 ^ 31 <= Js.to_int32 z < 2 ^ 31)%Z.
Proof.
  unfold Js.to_int32.
  pose proof (Z.mod_pos_bound (z + 2 ^ 31) (2 ^ 32) ltac:(lia)). lia.
Qed.

Lemma shift_left_5_mod (z : Z) : (Js.shift_left z 5 mod 2 ^ 32 = (32 * z) mod 2 ^ 32)%Z.
Proof.
  unfold Js.shift_left. rewrite to_int32_mod.
  change (2 ^ (5 mod 32))%Z with 32%Z.
  rewrite Z.mul_mod by lia. rewrite to_int32_mod.
  rewrite <- Z.mul_mod by lia. f_equal. lia.
Qed.

Lemma hash_step_mod (h h' c : Z) :
  (h mod 2 ^ 32 = h' mod 2 ^ 32)%Z ->
  ((c + (Js.shift_left h 5 - h)) mod 2 ^ 32 = (c + 31 * h') mod 2 ^ 32)%Z.
Proof.
  intros Hh.
  rewrite Z.add_mod by lia. rewrite Zminus_mod by lia.
  rewrite shift_left_5_mod, Hh.
  rewrite (Z.mul_mod 32 h) by lia. rewrite Hh.
  rewrite <- Z.mul_mod by lia. rewrite <- Zminus_mod by lia.
  rewrite <- Z.add_mod by lia. f_equal. lia.
Qed.

(** X30: the loop of [stringToColor] computes, modulo 2^32, the hash that
    multiplies by 31 and adds the code of the next character; and the hue
    of the colour is the remainder of the hash by 360, strictly between
    -360 and 360, with the sign of the hash. *)
Theorem stringToColor_hash_spec (str : string) :
  let hash := Utils.stringToColor_hash str in
  (hash mod 2 ^ 32
   = fold_left (fun h c => Z.of_nat (nat_of_ascii c) + 31 * h)
               (list_ascii_of_string str) 0 mod 2 ^ 32)%Z
  /\ Utils.stringToColor str
     = "hsl(" +:+ Js.int_to_string (Z.rem hash 360) +:+ ", 65%, 55%)"
  /\ (-360 < Z.rem hash 360 < 360)%Z
  /\ (0 <= hash -> 0 <= Z.rem hash 360)%Z
  /\ (hash <= 0 -> Z.rem hash 360 <= 0)%Z.
Proof.
  cbn zeta. split; [|split; [reflexivity|]].
  - unfold Utils.stringToColor_hash.
    induction (list_ascii_of_string str) as [|c cs IH] using rev_ind; [reflexivity|].
    rewrite !fold_left_app. cbn [fold_left]. apply hash_step_mod, IH.
  - pose proof (Z.rem_bound_abs (Utils.stringToColor_hash str) 360 ltac:(lia)) as Hb.
    split; [|split].
    + change (Z.abs 360) with 360%Z in Hb. lia.
    + intros Hpos. apply Z.rem_nonneg; lia.
    + intros Hneg. apply Z.rem_nonpos; lia.
Qed.

(** ** Inputs that meet the conditions *)


(** The 10,001 rows of a full page and one row more. *)
Lemma fetchAll_concatenates_witness :
  API.fetchAll one_more_row 11
  = Some (API.Returned (API.processData (concat [full_page] ++ [blank_row]))).
Proof.
  apply (fetchAll_concatenates one_more_row [full_page] [blank_row] 11).
  - simpl. lia.
  - intros [|i] p; [|discriminate]. intros [= <-]. split; [reflexivity|].
    unfold full_page. rewrite repeat_length. reflexivity.
  - reflexivity.
  - simpl. lia.
  - lia.
Defined.

(** A data source that answers the first request with the status 503. *)
Lemma fetchAll_keeps_nothing_on_error_witness :
  API.fetchAll unavailable 11 = Some (API.Thrown 503%Z).
Proof.
  apply (fetchAll_keeps_nothing_on_error unavailable [] 503%Z 11).
  - simpl. lia.
  - intros i p Hp. discriminate Hp.
  - reflexivity.
  - lia.
Defined.

Lemma scenario_collision_free : collision_free scenario.
Proof.
  intros r1 r2 r H1 H2 Hr.
  cbn [scenario In] in H1, H2, Hr.
  destruct H1 as [<-|[<-|[<-|[]]]]; destruct H2 as [<-|[<-|[<-|[]]]];
    destruct Hr as [<-|[<-|[<-|[]]]];
    vm_compute; intros Hk; try discriminate Hk; split; reflexivity.
Qed.


(** The vendor "B" and the agency "Y" of the scenario have no edge. *)
Lemma missing_pair_zero_cell_witness :
  API.matrix (@API.aggregateForMatrix ordinal_locale scenario "amount-desc") !! 1%nat
    ≫= (.!! 1%nat)
  = Some (API.Cell 0 0).
Proof.
  apply (@missing_pair_zero_cell ordinal_locale scenario "amount-desc"
           scenario_collision_free 1%nat 1%nat "B" "Y").
  - reflexivity.
  - reflexivity.
  - intros l Hl [Hv Ha]. vm_compute in Hl.
    destruct Hl as [<-|[<-|[<-|[]]]]; discriminate.
Defined.


